(** * Component identity, status resolution, dependency index and removal

    A shallow embedding of the identity collection ([bit-ids.ts]), the
    status loader ([component-status-loader.ts]), the dependency indexer
    ([index-by-dep-id.ts]) and the removal engine ([remove-components.ts]),
    with the properties of the specification stated over it.

    Conventions of the embedding:
    - a JavaScript value that may be [undefined] or [null] is an [option];
    - an [async] function that may reject returns a [Res];
    - a class instance with mutable fields is threaded as explicit state;
    - collaborators that live outside the embedded files are the fields of
      a record of functions, so that every definition stays executable. *)

From Stdlib Require Import String List Bool Arith Lia.
From stdpp Require Import base option list strings gmap fin_maps.

Import ListNotations.
Open Scope string_scope.
Open Scope list_scope.

(* ===================================================================== *)
(** ** JavaScript truthiness *)
(* ===================================================================== *)

Module Js.

(** [Boolean(x)] / [!!x] for a value that is an object or [undefined]. *)
Definition truthy {A : Type} (x : option A) : bool :=
  match x with Some _ => true | None => false end.

(** [!!x] for an optional boolean: only [true] is truthy. *)
Definition truthyb (x : option bool) : bool :=
  match x with Some true => true | _ => false end.

(** [R.uniqBy(key, xs)]: keeps the first element of every key. *)
Fixpoint uniqByFrom {A K : Type} `{EqDecision K}
    (key : A -> K) (seen : list K) (xs : list A) : list A :=
  match xs with
  | [] => []
  | x :: rest =>
      if existsb (fun k => bool_decide (k = key x)) seen
      then uniqByFrom key seen rest
      else x :: uniqByFrom key (key x :: seen) rest
  end.

Definition uniqBy {A K : Type} `{EqDecision K} (key : A -> K) (xs : list A) : list A :=
  uniqByFrom key [] xs.

(** [lodash.partition(xs, p)]. *)
Definition partition {A : Type} (p : A -> bool) (xs : list A) : list A * list A :=
  (List.filter p xs, List.filter (fun x => negb (p x)) xs).

(** [Boolean(s)] for a string that may be [undefined] or [null]: the empty
    string is falsy too. *)
Definition truthyStr (x : option string) : bool :=
  match x with Some s => negb (bool_decide (s = "")) | None => false end.

(** The property names an object literal inherits from [Object.prototype]. *)
Definition objectPrototypeKeys : list string :=
  ["constructor"; "__defineGetter__"; "__defineSetter__"; "hasOwnProperty";
   "__lookupGetter__"; "__lookupSetter__"; "isPrototypeOf"; "propertyIsEnumerable";
   "toString"; "valueOf"; "__proto__"; "toLocaleString"].

(** [obj[key]] on an object literal used as a dictionary: an own property,
    else an inherited member (truthy, and not a value of the dictionary),
    else [undefined]. *)
Inductive Property (V : Type) : Type :=
  | Own (v : V)
  | Inherited
  | Missing.

Arguments Own {V} v.
Arguments Inherited {V}.
Arguments Missing {V}.

Definition getProperty {V : Type} (key : string) (obj : gmap string V) : Property V :=
  match obj !! key with
  | Some v => Own v
  | None => if existsb (fun k => bool_decide (k = key)) objectPrototypeKeys
            then Inherited else Missing
  end.

(** [obj[key] = v] for an object [v]: the key [__proto__] sets the prototype
    and creates no own property. *)
Definition setProperty {V : Type} (key : string) (v : V) (obj : gmap string V) : gmap string V :=
  if bool_decide (key = "__proto__") then obj else <[key := v]> obj.

Definition inheritedKey (key : string) : bool :=
  existsb (fun k => bool_decide (k = key)) objectPrototypeKeys.

End Js.

(* ===================================================================== *)
(** ** Errors and results *)
(* ===================================================================== *)

(** The exception classes the embedded files throw, catch or test with
    [instanceof]; [OtherError] stands for every class they never name. *)
Inductive Error : Type :=
  | MissingFilesFromComponent
  | ComponentNotFoundInPath
  | MissingBitMapComponent
  | ComponentsPendingImport
  | ComponentOutOfSync (idStr : string)
  | BitError (msg : string)
  | GeneralError (msg : string)
  | PlainError (msg : string)
  | TypeError
  | OtherError (tag : string).

Inductive Res (A : Type) : Type :=
  | Ok (a : A)
  | Throw (e : Error).

Arguments Ok {A} a.
Arguments Throw {A} e.

Definition res_bind {A B : Type} (r : Res A) (k : A -> Res B) : Res B :=
  match r with
  | Ok a => k a
  | Throw e => Throw e
  end.

Declare Scope res_scope.
Delimit Scope res_scope with res.
Notation "'let?' x ':=' r 'in' k" := (res_bind r (fun x => k))
  (at level 10, x name, r at level 100, k at level 200) : res_scope.

(** [Promise.all] / a sequential map over results: the first rejection wins. *)
Fixpoint res_mapM {A B : Type} (f : A -> Res B) (xs : list A) : Res (list B) :=
  match xs with
  | [] => Ok []
  | x :: rest =>
      (let? y := f x in let? ys := res_mapM f rest in Ok (y :: ys))%res
  end.

(* ===================================================================== *)
(** ** Identities *)
(* ===================================================================== *)

Module BitId.

(** Modelled from the spec: the identity class ([bit-id.ts]) is not among
    the embedded files. An identity is
    [{ scope: optional string, name: string, version: optional VersionTag }]
    and full equality compares name, scope and version. *)
Record t : Type := mk {
  scope : option string;
  name : string;
  version : option string;
}.

#[global] Instance eq_dec : EqDecision t.
Proof. solve_decision. Defined.

(** [LATEST] / [LATEST_BIT_VERSION] of the constants module. *)
Definition LATEST : string := "latest".

(** Modelled from the spec: the comparisons of the identity class, one per
    field; full equality is the three together, equality without version
    drops the last. *)
Definition hasSameName (a b : t) : bool := bool_decide (name a = name b).
Definition hasSameScope (a b : t) : bool := bool_decide (scope a = scope b).
Definition hasSameVersion (a b : t) : bool := bool_decide (version a = version b).

Definition isEqual (a b : t) : bool :=
  hasSameName a b && hasSameScope a b && hasSameVersion a b.

Definition isEqualWithoutVersion (a b : t) : bool :=
  hasSameName a b && hasSameScope a b.

Definition changeVersion (a : t) (v : option string) : t :=
  {| scope := scope a; name := name a; version := v |}.

(** Modelled from the spec: [hasVersion] of the identity class. A version
    that names a concrete snapshot is present and is not [LATEST]. *)
Definition hasVersion (a : t) : bool :=
  match version a with
  | Some v => negb (bool_decide (v = "")) && negb (bool_decide (v = LATEST))
  | None => false
  end.

(** Modelled from the spec: [isLocal] of the identity class. An identity
    without a scope exists only locally. *)
Definition isLocal (a : t) : bool := negb (Js.truthy (scope a)).

(** Modelled from the spec: the string forms of the identity class,
    [scope/name] and [scope/name@version]. *)
Definition toStringWithoutVersion (a : t) : string :=
  match scope a with
  | Some s => s +:+ "/" +:+ name a
  | None => name a
  end.

Definition toStringWithoutScopeAndVersion (a : t) : string := name a.

Definition toString (a : t) : string :=
  if hasVersion a
  then toStringWithoutVersion a +:+ "@" +:+ default "" (version a)
  else toStringWithoutVersion a.

(** The text [JSON.stringify] gives for an identity lists its fields, so it
    is kept as the tuple of the fields. *)
Definition JSON_stringify (a : t) : option string * string * option string :=
  (scope a, name a, version a).

End BitId.

Abbreviation BitId := BitId.t.
Abbreviation ComponentID := BitId.t.

(* ===================================================================== *)
(** ** The identity collection ([class BitIds extends Array<BitId>]) *)
(* ===================================================================== *)

Module BitIds.

Definition t : Type := list BitId.

Definition serialize (this : t) : list string := map BitId.toString this.

Definition search (this : t) (bitId : BitId) : option BitId :=
  List.find (fun id => BitId.hasSameName id bitId && BitId.hasSameScope id bitId
                       && BitId.hasSameVersion id bitId) this.

Definition searchWithoutVersion (this : t) (bitId : BitId) : option BitId :=
  List.find (fun id => BitId.hasSameName id bitId && BitId.hasSameScope id bitId) this.

Definition searchWithoutScopeAndVersion (this : t) (bitId : BitId) : option BitId :=
  List.find (fun id => BitId.hasSameName id bitId) this.

Definition searchWithoutScope (this : t) (bitId : BitId) : option BitId :=
  List.find (fun id => BitId.hasSameName id bitId && BitId.hasSameVersion id bitId) this.

Definition has (this : t) (bitId : BitId) : bool := Js.truthy (search this bitId).

Definition hasWithoutVersion (this : t) (bitId : BitId) : bool :=
  Js.truthy (searchWithoutVersion this bitId).

Definition hasWithoutScope (this : t) (bitId : BitId) : bool :=
  Js.truthy (searchWithoutScope this bitId).

Definition hasWithoutScopeAndVersion (this : t) (bitId : BitId) : bool :=
  Js.truthy (searchWithoutScopeAndVersion this bitId).

Definition filterExact (this : t) (bitId : BitId) : list BitId :=
  List.filter (fun id => BitId.hasSameName id bitId && BitId.hasSameScope id bitId
                         && BitId.hasSameVersion id bitId) this.

Definition filterWithoutVersion (this : t) (bitId : BitId) : list BitId :=
  List.filter (fun id => BitId.hasSameName id bitId && BitId.hasSameScope id bitId) this.

(** [fromArray]: an empty collection, then one [push] per input element. *)
Definition fromArray (ids : list BitId) : t :=
  fold_left (fun bitIds id => bitIds ++ [id]) ids [].

Definition removeIfExist (this : t) (bitId : BitId) : t :=
  fromArray (List.filter (fun id => negb (BitId.isEqual id bitId)) this).

Definition difference (this bitIds : t) : t :=
  fromArray (List.filter (fun id => negb (Js.truthy (search bitIds id))) this).

Definition removeIfExistWithoutVersion (this : t) (bitId : BitId) : t :=
  fromArray (List.filter (fun id => negb (BitId.isEqualWithoutVersion id bitId)) this).

Definition removeMultipleIfExistWithoutVersion (this bitIds : t) : t :=
  fromArray (List.filter (fun id => negb (hasWithoutVersion bitIds id)) this).

(** [deserialize]: [new BitIds(...array.map(parse))]; the parser belongs to
    the identity class and is taken as an argument. *)
Definition deserialize (parse : string -> Res BitId) (array : list string) : Res t :=
  res_mapM parse array.

(** [add] mutates the receiver; the new receiver is returned. *)
Definition add (this : t) (bitIds : list BitId) : t :=
  fold_left (fun acc bitId => if Js.truthy (search acc bitId) then acc else acc ++ [bitId])
            bitIds this.

Definition uniqFromArray (bitIds : list BitId) : t :=
  fromArray (Js.uniqBy BitId.JSON_stringify bitIds).

Definition toVersionLatest (this : t) : t :=
  uniqFromArray (map (fun id => BitId.changeVersion id (Some BitId.LATEST)) this).

(** No two members, taken in order, are equal under full equality. *)
Fixpoint uniqueFull (l : list BitId) : Prop :=
  match l with
  | [] => True
  | x :: rest => (forall y, In y rest -> BitId.isEqual x y = false) /\ uniqueFull rest
  end.

(** The remaining searches and filters. *)
Definition hasWithoutScopeAndVersionAsString (this : t) (bitIdStr : string) : bool :=
  Js.truthy (List.find (fun id => bool_decide (BitId.name id = bitIdStr)) this).

Definition searchStrWithoutVersion (this : t) (idStr : string) : option BitId :=
  List.find (fun id => bool_decide (BitId.toStringWithoutVersion id = idStr)) this.

Definition searchStrWithoutScopeAndVersion (this : t) (idStr : string) : option BitId :=
  List.find (fun id => bool_decide (BitId.toStringWithoutScopeAndVersion id = idStr)) this.

Definition filterWithoutScopeAndVersion (this : t) (bitId : BitId) : list BitId :=
  List.filter (fun id => BitId.hasSameName id bitId) this.

(** [forEach] with a callback that may throw: the first throw ends it. *)
Fixpoint forEachRes {A : Type} (f : A -> Res unit) (xs : list A) : Res unit :=
  match xs with
  | [] => Ok tt
  | x :: rest => match f x with Ok _ => forEachRes f rest | Throw e => Throw e end
  end.

(** [reduce] with a callback that may throw. *)
Fixpoint reduceRes {A B : Type} (f : B -> A -> Res B) (xs : list A) (acc : B) : Res B :=
  match xs with
  | [] => Ok acc
  | x :: rest => match f acc x with Ok acc' => reduceRes f rest acc' | Throw e => Throw e end
  end.

Definition doubleQuote : string := String (Ascii.ascii_of_nat 34) EmptyString.
Definition newline : string := String (Ascii.ascii_of_nat 10) EmptyString.

(** The message of [throwForDuplicationIgnoreVersion]. *)
Definition duplicationMessage (bitId : BitId) (found : list BitId) : string :=
  "bitIds has " +:+ doubleQuote +:+ BitId.toStringWithoutVersion bitId +:+ doubleQuote
  +:+ " duplicated as following:" +:+ newline
  +:+ String.concat newline (map BitId.toString found).

Definition throwForDuplicationIgnoreVersion (this : t) : Res unit :=
  forEachRes
    (fun bitId =>
       let found := filterWithoutVersion this bitId in
       if Nat.ltb 1 (length found)
       then Throw (PlainError (duplicationMessage bitId found))
       else Ok tt)
    this.

Definition findDuplicationsIgnoreVersion (this : t) : gmap string (list BitId) :=
  fold_left
    (fun duplications id =>
       let sameIds := filterWithoutVersion this id in
       if Nat.ltb 1 (length sameIds)
       then Js.setProperty (BitId.toStringWithoutVersion id) sameIds duplications
       else duplications)
    this ∅.

(** One turn of the two grouping reductions, the key being computed:
    [if (acc[key]) acc[key].push(current); else acc[key] = new BitIds(current)]. *)
Definition groupInto (key : string) (current : BitId) (acc : gmap string t) : Res (gmap string t) :=
  match Js.getProperty key acc with
  | Js.Own group => Ok (<[key := group ++ [current]]> acc)
  | Js.Inherited => Throw TypeError (* the inherited member has no [push] *)
  | Js.Missing => Ok (Js.setProperty key [current] acc)
  end.

Definition toGroupByIdWithoutVersion (this : t) : Res (gmap string t) :=
  reduceRes
    (fun acc current => groupInto (BitId.toStringWithoutVersion current) current acc)
    this ∅.

(** The message of [toGroupByScopeName] for a member without scope name. *)
Definition missingScopeMessage (current : BitId) : string :=
  "toGroupByScopeName() expect ids to have a scope name, got " +:+ BitId.toString current.

(** [getScopeName] of [toGroupByScopeName]. *)
Definition getScopeName (idsWithDefaultScope : t) (current : BitId) : option string :=
  if Js.truthyStr (BitId.scope current) then BitId.scope current
  else match searchWithoutScopeAndVersion idsWithDefaultScope current with
       | Some idWithDefaultScope => BitId.scope idWithDefaultScope
       | None => None
       end.

Definition toGroupByScopeName (this idsWithDefaultScope : t) : Res (gmap string t) :=
  reduceRes
    (fun acc current =>
       let scopeName := getScopeName idsWithDefaultScope current in
       if negb (Js.truthyStr scopeName)
       then Throw (PlainError (missingScopeMessage current))
       else groupInto (default "" scopeName) current acc)
    this ∅.

(** The key under which the looser equality "without version" compares. *)
Definition keyWithoutVersion (id : BitId) : option string * string :=
  (BitId.scope id, BitId.name id).

(** The scope name [toGroupByScopeName] files an identity under, if any. *)
Definition resolvedScope (idsWithDefaultScope : t) (current : BitId) : option string :=
  if Js.truthyStr (getScopeName idsWithDefaultScope current)
  then getScopeName idsWithDefaultScope current
  else None.

(** The members filed under [key] by a key function, in their order;
    no group when there is none. *)
Definition groupOf (keyOf : BitId -> option string) (key : string) (this : t) : option t :=
  match List.filter (fun id => bool_decide (keyOf id = Some key)) this with
  | [] => None
  | group => Some group
  end.

(** In a grouping reduction: the accumulator holds the groups of the
    members seen so far; a member can be filed when it has a key and the key
    names no inherited member. *)
Definition groupsOfSeen (keyOf : BitId -> option string) (seen : t)
    (acc : gmap string t) : Prop :=
  forall key, acc !! key = groupOf keyOf key seen.

Definition filable (keyOf : BitId -> option string) (current : BitId) : Prop :=
  exists key, keyOf current = Some key /\ Js.inheritedKey key = false.

End BitIds.

Abbreviation ComponentIdList := BitIds.t.

(* ===================================================================== *)
(** ** Collaborators of the consumer (working copy, scope, object store) *)
(* ===================================================================== *)

(** [ComponentStatus]: every facet is [undefined], [true] or [false]. *)
Record ComponentStatus : Type := mkStatus {
  modified : option bool;
  newlyCreated : option bool;
  deleted : option bool;
  staged : option bool;
  notExist : option bool;
  missingFromScope : option bool;
}.

(** The object literal [{}]. *)
Definition emptyStatus : ComponentStatus :=
  {| modified := None; newlyCreated := None; deleted := None;
     staged := None; notExist := None; missingFromScope := None |}.

Definition set_modified (st : ComponentStatus) (b : bool) : ComponentStatus :=
  {| modified := Some b; newlyCreated := newlyCreated st; deleted := deleted st;
     staged := staged st; notExist := notExist st; missingFromScope := missingFromScope st |}.

Definition set_newlyCreated (st : ComponentStatus) (b : bool) : ComponentStatus :=
  {| modified := modified st; newlyCreated := Some b; deleted := deleted st;
     staged := staged st; notExist := notExist st; missingFromScope := missingFromScope st |}.

Definition set_deleted (st : ComponentStatus) (b : bool) : ComponentStatus :=
  {| modified := modified st; newlyCreated := newlyCreated st; deleted := Some b;
     staged := staged st; notExist := notExist st; missingFromScope := missingFromScope st |}.

Definition set_staged (st : ComponentStatus) (b : bool) : ComponentStatus :=
  {| modified := modified st; newlyCreated := newlyCreated st; deleted := deleted st;
     staged := Some b; notExist := notExist st; missingFromScope := missingFromScope st |}.

Definition set_notExist (st : ComponentStatus) (b : bool) : ComponentStatus :=
  {| modified := modified st; newlyCreated := newlyCreated st; deleted := deleted st;
     staged := staged st; notExist := Some b; missingFromScope := missingFromScope st |}.

(** How many of the facets [notExist], [deleted], [newlyCreated] are [true]. *)
Definition terminalFacets (st : ComponentStatus) : nat :=
  (if Js.truthyb (notExist st) then 1 else 0)
  + (if Js.truthyb (deleted st) then 1 else 0)
  + (if Js.truthyb (newlyCreated st) then 1 else 0).

(** A lane object, a version reference and a stored object, as far as the
    embedded code looks into them. *)
Record Lane : Type := mkLane { laneName : string }.
Record Ref : Type := mkRef { hash : string }.
Record ScopeObject : Type := mkScopeObject { objectHash : string }.

(** A component loaded from the working copy. *)
Record ConsumerComponent : Type := mkConsumerComponent {
  componentId : ComponentID; (* the [id] property *)
  mainFile : string;
}.

(** The [ModelComponent] of an identity: what its methods answer. *)
Record ModelComponent : Type := mkModelComponent {
  getHeadRegardlessOfLaneAsTagOrHash : string;
  setDivergeData : Res unit;
  isLocallyChanged : option Lane -> Res bool;
  getRef : string -> option Ref;
}.

(** [VERSION_ZERO] of the model-component module. *)
Definition VERSION_ZERO : string := "0.0.0".

Record LoadComponentsResult : Type := mkLoadComponentsResult {
  components : list ConsumerComponent;
  invalidComponents : list ConsumerComponent;
  removedComponents : list ConsumerComponent;
}.

(** What [scope.removeMany] and a remote's [deleteMany] report. *)
Record RemovedObjects : Type := mkRemovedObjects {
  removedComponentIds : ComponentIdList;
  missingComponents : ComponentIdList;
  dependentBits : list (string * list BitId);
  removedFromLane : list BitId;
}.

(** The consumer and the objects reached through it. [getComponentStatusById]
    is the consumer's own entry point to its status loader, as the removal
    engine calls it; the answers are those given during one removal call. *)
Record Consumer : Type := mkConsumer {
  getModelComponentIfExist : ComponentID -> Res (option ModelComponent);
  loadComponents : ComponentIdList -> bool -> Res LoadComponentsResult;
  getCurrentLaneObject : Res (option Lane);
  getObject : string -> Res (option ScopeObject);
  isComponentModified : ScopeObject -> ConsumerComponent -> Res bool;
  getComponentStatusById : ComponentID -> Res ComponentStatus;
  isComponentInvalidByErrorType : Error -> bool;
  listNewComponents : bool -> Res ComponentIdList;
  removeMany : ComponentIdList -> bool -> Res RemovedObjects;
  deleteComponentsFiles : ComponentIdList -> Res unit;
  removeComponentsFromWorkspacesAndDependencies :
    list ConsumerComponent -> list ComponentID -> Res unit;
  cleanFromBitMap : ComponentIdList -> Res unit;
}.

(* ===================================================================== *)
(** ** The status loader ([class ComponentStatusLoader]) *)
(* ===================================================================== *)

Module StatusLoader.

(** Calls that leave the loader, in the order they are made. *)
Inductive Call : Type :=
  | CallGetModelComponentIfExist (id : ComponentID)
  | CallLoadComponents (ids : ComponentIdList)
  | CallGetCurrentLaneObject
  | CallSetDivergeData
  | CallIsLocallyChanged
  | CallGetObject (h : string)
  | CallIsComponentModified.

(** The instance: its private cache, and the journal of the calls made
    through it (what a counting stub of the collaborators would record). *)
Record State : Type := mkState {
  _componentsStatusCache : gmap string ComponentStatus;
  journal : list Call;
}.

Definition M (A : Type) : Type := State -> Res A * State.

Definition ret {A : Type} (a : A) : M A := fun s => (Ok a, s).

Definition throw {A : Type} (e : Error) : M A := fun s => (Throw e, s).

Definition bind {A B : Type} (m : M A) (k : A -> M B) : M B :=
  fun s =>
    match m s with
    | (Ok a, s') => k a s'
    | (Throw e, s') => (Throw e, s')
    end.

(** [try { m } catch (err) { handler(err) }]. *)
Definition tryCatch {A : Type} (m : M A) (handler : Error -> M A) : M A :=
  fun s =>
    match m s with
    | (Ok a, s') => (Ok a, s')
    | (Throw e, s') => handler e s'
    end.

(** [await collaborator(...)]: the call is journalled, its outcome returned. *)
Definition call {A : Type} (c : Call) (r : Res A) : M A :=
  fun s => (r, {| _componentsStatusCache := _componentsStatusCache s;
                  journal := journal s ++ [c] |}).

Definition readCache (key : string) : M (option ComponentStatus) :=
  fun s => (Ok (_componentsStatusCache s !! key), s).

Definition writeCache (key : string) (st : ComponentStatus) : M unit :=
  fun s => (Ok tt, {| _componentsStatusCache := <[key := st]> (_componentsStatusCache s);
                      journal := journal s |}).

Declare Scope loader_scope.
Delimit Scope loader_scope with loader.
Notation "'do' x '<-' m ';' k" := (bind m (fun x => k))
  (at level 10, x name, m at level 100, k at level 200) : loader_scope.

Definition isLoadCall (c : Call) : bool :=
  match c with CallLoadComponents _ => true | _ => false end.

(** How many times the working-copy loader was invoked. *)
Definition loadCount (s : State) : nat := length (List.filter isLoadCall (journal s)).

Open Scope loader_scope.

(** [private async getStatus(id)]. *)
Definition getStatus (consumer : Consumer) (id : ComponentID) : M ComponentStatus :=
  let status := emptyStatus in
  do componentFromModel <-
    call (CallGetModelComponentIfExist id) (getModelComponentIfExist consumer id);
  let ids := BitIds.fromArray [BitId.changeVersion id (Some BitId.LATEST)] in
  do loaded <-
    tryCatch
      (do r <- call (CallLoadComponents ids) (loadComponents consumer ids true);
       if negb (Nat.eqb (length (removedComponents r)) 0)
       then ret (inl (set_deleted status true))
       else ret (inr (head (components r))))
      (fun err =>
         match err with
         | MissingFilesFromComponent | ComponentNotFoundInPath | MissingBitMapComponent =>
             if Js.truthy componentFromModel
             then ret (inl (set_deleted status true))
             else ret (inl (set_notExist status true))
         | ComponentsPendingImport =>
             (* [status.missingFromScope;] reads the property and drops it *)
             let _ := missingFromScope status in
             ret (inl status)
         | _ => throw err
         end);
  match loaded with
  | inl finalStatus => ret finalStatus
  | inr componentFromFileSystem =>
      match componentFromModel with
      | None => ret (set_newlyCreated status true)
      | Some componentFromModel =>
          if bool_decide (getHeadRegardlessOfLaneAsTagOrHash componentFromModel = VERSION_ZERO)
          then ret (set_newlyCreated status true)
          else
            do lane <- call CallGetCurrentLaneObject (getCurrentLaneObject consumer);
            do _ <- call CallSetDivergeData (setDivergeData componentFromModel);
            do isStaged <- call CallIsLocallyChanged (isLocallyChanged componentFromModel lane);
            let status := set_staged status isStaged in
            match componentFromFileSystem with
            | None => throw TypeError (* [components[0]] was undefined *)
            | Some componentFromFileSystem =>
                let versionFromFs := default "" (BitId.version (componentId componentFromFileSystem)) in
                let idStr := BitId.toString id in
                if negb (BitId.hasVersion (componentId componentFromFileSystem))
                then throw (ComponentOutOfSync idStr)
                else
                  match getRef componentFromModel versionFromFs with
                  | None =>
                      throw (BitError ("version " +:+ versionFromFs +:+ " was not found in " +:+ idStr))
                  | Some versionRef =>
                      do versionFromModel <-
                        call (CallGetObject (hash versionRef)) (getObject consumer (hash versionRef));
                      match versionFromModel with
                      | None =>
                          throw (BitError ("failed loading version " +:+ versionFromFs
                                           +:+ " of " +:+ idStr +:+ " from the scope"))
                      | Some versionFromModel =>
                          do isModified <-
                            call CallIsComponentModified
                                 (isComponentModified consumer versionFromModel componentFromFileSystem);
                          ret (set_modified status isModified)
                      end
                  end
            end
      end
  end.

(** [async getComponentStatusById(id)]: a cached record is an object, hence
    truthy, so the computation runs exactly when the key has no entry. *)
Definition getComponentStatusById (consumer : Consumer) (id : ComponentID) : M ComponentStatus :=
  do cached <- readCache (BitId.toString id);
  match cached with
  | Some status => ret status
  | None =>
      do status <- getStatus consumer id;
      do _ <- writeCache (BitId.toString id) status;
      ret status
  end.

(** [async getManyComponentsStatuses(ids)]: one identity after the other. *)
Fixpoint getManyComponentsStatuses (consumer : Consumer) (ids : list ComponentID)
    : M (list (ComponentID * ComponentStatus)) :=
  match ids with
  | [] => ret []
  | id :: rest =>
      do status <- getComponentStatusById consumer id;
      do results <- getManyComponentsStatuses consumer rest;
      ret ((id, status) :: results)
  end.

(** [clearOneComponentCache(id)]: [delete this._componentsStatusCache[key]]. *)
Definition clearOneComponentCache (id : ComponentID) (s : State) : State :=
  {| _componentsStatusCache := delete (BitId.toString id) (_componentsStatusCache s);
     journal := journal s |}.

(** A fresh instance. *)
Definition newLoader : State := {| _componentsStatusCache := ∅; journal := [] |}.

Close Scope loader_scope.

(** What [getStatus] answers and which calls it makes, read off a run on
    a fresh instance. *)
Definition outcomeOf (consumer : Consumer) (id : ComponentID) : Res ComponentStatus :=
  fst (getStatus consumer id newLoader).

Definition callsOf (consumer : Consumer) (id : ComponentID) : list Call :=
  journal (snd (getStatus consumer id newLoader)).

(** The five shapes a computed status record can have. *)
Inductive computedShape : ComponentStatus -> Prop :=
  | ShapeDeleted : computedShape (set_deleted emptyStatus true)
  | ShapeNotExist : computedShape (set_notExist emptyStatus true)
  | ShapeBare : computedShape emptyStatus
  | ShapeNewlyCreated : computedShape (set_newlyCreated emptyStatus true)
  | ShapeTracked (isStaged isModified : bool) :
      computedShape (set_modified (set_staged emptyStatus isStaged) isModified).

(** The instance after [key] was cached with [status]. *)
Definition cached (key : string) (status : ComponentStatus) (s : State) : State :=
  {| _componentsStatusCache := <[key := status]> (_componentsStatusCache s);
     journal := journal s |}.

(** The load errors [getStatus] turns into a record. *)
Definition expectedAbsence (err : Error) : bool :=
  match err with
  | MissingFilesFromComponent | ComponentNotFoundInPath | MissingBitMapComponent
  | ComponentsPendingImport => true
  | _ => false
  end.

(** Where an error thrown by [getStatus] comes from: a collaborator, whose
    error is passed on as it is, or one of the four [throw] of the
    function. *)
Inductive thrownBy (consumer : Consumer) (id : ComponentID) : Error -> Prop :=
  | ByModelLookup e :
      getModelComponentIfExist consumer id = Throw e -> thrownBy consumer id e
  | ByLoad e :
      loadComponents consumer
        (BitIds.fromArray [BitId.changeVersion id (Some BitId.LATEST)]) true = Throw e ->
      expectedAbsence e = false -> thrownBy consumer id e
  | ByLane e :
      getCurrentLaneObject consumer = Throw e -> thrownBy consumer id e
  | ByDivergeData model e :
      getModelComponentIfExist consumer id = Ok (Some model) ->
      setDivergeData model = Throw e -> thrownBy consumer id e
  | ByLocalChanges model lane e :
      getModelComponentIfExist consumer id = Ok (Some model) ->
      isLocallyChanged model lane = Throw e -> thrownBy consumer id e
  | ByObjectStore h e :
      getObject consumer h = Throw e -> thrownBy consumer id e
  | ByComparison versionFromModel componentFromFileSystem e :
      isComponentModified consumer versionFromModel componentFromFileSystem = Throw e ->
      thrownBy consumer id e
  | NoComponentLoaded : thrownBy consumer id TypeError
  | OutOfSync : thrownBy consumer id (ComponentOutOfSync (BitId.toString id))
  | VersionNotFound versionFromFs :
      thrownBy consumer id
        (BitError ("version " +:+ versionFromFs +:+ " was not found in " +:+ BitId.toString id))
  | VersionNotLoaded versionFromFs :
      thrownBy consumer id
        (BitError ("failed loading version " +:+ versionFromFs
                   +:+ " of " +:+ BitId.toString id +:+ " from the scope")).

End StatusLoader.

(* ===================================================================== *)
(** ** The dependency indexer ([index-by-dep-id.ts]) *)
(* ===================================================================== *)

Module IndexByDepId.

Inductive DependencyLifecycleType : Type := RUNTIME | DEV | PEER.

#[global] Instance lifecycle_eq_dec : EqDecision DependencyLifecycleType.
Proof. solve_decision. Defined.

(** Modelled from the spec: the constant table [LIFECYCLE_TYPE_BY_KEY_NAME]
    is declared in the dependencies constants, outside the embedded files.
    The buckets are runtime, dev and peer; any other key has no lifecycle. *)
Definition LIFECYCLE_TYPE_BY_KEY_NAME (depKeyName : string) : option DependencyLifecycleType :=
  if bool_decide (depKeyName = "dependencies") then Some RUNTIME
  else if bool_decide (depKeyName = "devDependencies") then Some DEV
  else if bool_decide (depKeyName = "peerDependencies") then Some PEER
  else None.

Record PackageNameIndexItemMetadata : Type := mkMetadata {
  preservedVersion : option string;
  preservedLifecycleType : option DependencyLifecycleType;
}.

Record PackageNameIndexComponentItem : Type := mkComponentItem {
  range : string;
  origin : string;
  lifecycleType : option DependencyLifecycleType;
}.

Record PackageNameIndexItem : Type := mkItem {
  metadata : PackageNameIndexItemMetadata;
  componentItems : list PackageNameIndexComponentItem;
}.

(** [Map<PackageName, PackageNameIndexItem>]. *)
Abbreviation PackageNameIndex := (gmap string PackageNameIndexItem).

(** A bucket [{ depId: range }], a component's buckets
    [{ dependencies: ..., devDependencies: ..., ... }] and the map from a
    component's package name to its buckets, each in iteration order. *)
Definition DepObjectValue : Type := list (string * string).
Definition ManifestDependenciesObject : Type := list (string * DepObjectValue).
Definition ComponentDependenciesMap : Type := list (string * ManifestDependenciesObject).

Record PolicyValue : Type := mkPolicyValue {
  version : string;
  preserve : option bool;
}.

Record WorkspacePolicyEntry : Type := mkEntry {
  dependencyId : string;
  value : PolicyValue;
  policyLifecycleType : DependencyLifecycleType; (* the [lifecycleType] property *)
}.

Definition WorkspacePolicy : Type := list WorkspacePolicyEntry.

(** [obj[key]] on an object kept as its list of properties. *)
Definition prop {V : Type} (key : string) (obj : list (string * V)) : option V :=
  snd <$> List.find (fun kv => bool_decide (fst kv = key)) obj.

(** [pick(names, obj)]: the properties of [obj] named in [names], in the
    order of [names]; a name given twice is one property. *)
Definition pick {V : Type} (names : list string) (obj : list (string * V)) : list (string * V) :=
  fold_left
    (fun result name =>
       match prop name obj with
       | Some v => if Js.truthy (prop name result) then result else result ++ [(name, v)]
       | None => result
       end)
    names [].

(** [omit(names, obj)]. *)
Definition omit {V : Type} (names : list string) (obj : list (string * V)) : list (string * V) :=
  List.filter (fun kv => negb (existsb (fun n => bool_decide (n = fst kv)) names)) obj.

(** The empty metadata object [{}]. *)
Definition noMetadata : PackageNameIndexItemMetadata :=
  {| preservedVersion := None; preservedLifecycleType := None |}.

Definition pushComponentItem (componentItem : PackageNameIndexComponentItem)
    (item : PackageNameIndexItem) : PackageNameIndexItem :=
  {| metadata := metadata item; componentItems := componentItems item ++ [componentItem] |}.

Definition addComponentDepToDepIdIndex (index : PackageNameIndex) (origin : string)
    (lifecycleType : option DependencyLifecycleType) (range depId : string) : PackageNameIndex :=
  let componentItem := {| range := range; origin := origin; lifecycleType := lifecycleType |} in
  if negb (Js.truthy (index !! depId))
  then <[depId := {| metadata := noMetadata; componentItems := [componentItem] |}]> index
  else alter (pushComponentItem componentItem) depId index.

Definition addSpecificLifeCycleDepsToIndex (index : PackageNameIndex) (origin : string)
    (deps : DepObjectValue) (depKeyName : string) : PackageNameIndex :=
  let lifecycleType := LIFECYCLE_TYPE_BY_KEY_NAME depKeyName in
  fold_left
    (fun index kv => addComponentDepToDepIdIndex index origin lifecycleType (snd kv) (fst kv))
    deps index.

Definition setMetadata (metadata : PackageNameIndexItemMetadata)
    (item : PackageNameIndexItem) : PackageNameIndexItem :=
  {| metadata := metadata; componentItems := componentItems item |}.

Definition setMetadataToExistingIndexItem (index : PackageNameIndex) (depId : string)
    (metadata : PackageNameIndexItemMetadata) : PackageNameIndex :=
  match index !! depId with
  | Some existingItem => <[depId := setMetadata metadata existingItem]> index
  | None => index
  end.

Definition isPreserved (entry : WorkspacePolicyEntry) : bool :=
  Js.truthyb (preserve (value entry)).

Definition preservedMetadata (entry : WorkspacePolicyEntry) : PackageNameIndexItemMetadata :=
  {| preservedVersion := Some (version (value entry));
     preservedLifecycleType := Some (policyLifecycleType entry) |}.

Definition addPreservedFromRoot (index : PackageNameIndex) (rootPolicy : WorkspacePolicy)
    : PackageNameIndex :=
  let preserved := List.filter isPreserved rootPolicy in
  fold_left
    (fun index entry =>
       setMetadataToExistingIndexItem index (dependencyId entry) (preservedMetadata entry))
    preserved index.

(** The buckets of one component that are indexed. *)
Definition indexedBuckets (hoistedDepFields : option (list string))
    (depsObject : ManifestDependenciesObject) : ManifestDependenciesObject :=
  match hoistedDepFields with
  | Some fields => pick fields depsObject
  | None => omit ["peerDependenciesMeta"] depsObject
  end.

Definition addComponentToIndex (hoistedDepFields : option (list string))
    (index : PackageNameIndex) (entry : string * ManifestDependenciesObject) : PackageNameIndex :=
  let compPackageName := fst entry in
  fold_left
    (fun index bucket =>
       addSpecificLifeCycleDepsToIndex index compPackageName (snd bucket) (fst bucket))
    (indexedBuckets hoistedDepFields (snd entry)) index.

Definition indexComponents (componentDependenciesMap : ComponentDependenciesMap)
    (hoistedDepFields : option (list string)) : PackageNameIndex :=
  fold_left (addComponentToIndex hoistedDepFields) componentDependenciesMap ∅.

Definition indexByDepId (rootPolicy : WorkspacePolicy)
    (componentDependenciesMap : ComponentDependenciesMap)
    (hoistedDepFields : option (list string)) : PackageNameIndex :=
  let result := indexComponents componentDependenciesMap hoistedDepFields in
  addPreservedFromRoot result rootPolicy.

(** Some component declares [depId] in one of its indexed buckets. *)
Definition declared (componentDependenciesMap : ComponentDependenciesMap)
    (hoistedDepFields : option (list string)) (depId : string) : Prop :=
  exists comp depsObject depKeyName deps range,
    In (comp, depsObject) componentDependenciesMap /\
    In (depKeyName, deps) (indexedBuckets hoistedDepFields depsObject) /\
    In (depId, range) deps.

(** The preserve entries of the policy that name [depId], in policy order. *)
Definition preservedFor (rootPolicy : WorkspacePolicy) (depId : string) : list WorkspacePolicyEntry :=
  List.filter (fun entry => isPreserved entry && bool_decide (dependencyId entry = depId)) rootPolicy.

(** An index item after the policy was applied: stamped by the last
    preserve entry that names it, untouched when there is none. *)
Definition stampWith (stamp : option WorkspacePolicyEntry)
    (item : PackageNameIndexItem) : PackageNameIndexItem :=
  match stamp with
  | Some entry => setMetadata (preservedMetadata entry) item
  | None => item
  end.

(** One declaration: a dependency name with the component item it adds. *)
Definition Declaration : Type := string * PackageNameIndexComponentItem.

Definition addDeclaration (index : PackageNameIndex) (d : Declaration) : PackageNameIndex :=
  addComponentDepToDepIdIndex index (origin (snd d)) (lifecycleType (snd d))
    (range (snd d)) (fst d).

(** The declarations of a bucket, of a component and of the whole map, in
    the order [indexByDepId] visits them. *)
Definition bucketDeclarations (compPackageName : string) (bucket : string * DepObjectValue)
    : list Declaration :=
  map (fun kv => (fst kv, {| range := snd kv; origin := compPackageName;
                             lifecycleType := LIFECYCLE_TYPE_BY_KEY_NAME (fst bucket) |}))
      (snd bucket).

Definition componentDeclarations (hoistedDepFields : option (list string))
    (entry : string * ManifestDependenciesObject) : list Declaration :=
  flat_map (bucketDeclarations (fst entry)) (indexedBuckets hoistedDepFields (snd entry)).

Definition declarations (componentDependenciesMap : ComponentDependenciesMap)
    (hoistedDepFields : option (list string)) : list Declaration :=
  flat_map (componentDeclarations hoistedDepFields) componentDependenciesMap.

(** The index item a list of declarations gives a dependency name. *)
Definition declaredItem (depId : string) (decls : list Declaration)
    : option PackageNameIndexItem :=
  match map snd (List.filter (fun d => bool_decide (fst d = depId)) decls) with
  | [] => None
  | items => Some {| metadata := noMetadata; componentItems := items |}
  end.

(** What [pick] has copied so far: properties of the object, each key once. *)
Definition pickedFrom {V : Type} (obj result : list (string * V)) : Prop :=
  (forall key v, In (key, v) result -> prop key obj = Some v)
  /\ List.NoDup (map fst result).

End IndexByDepId.

(* ===================================================================== *)
(** ** The removal engine ([remove-components.ts]) *)
(* ===================================================================== *)

Module Remove.

(** [RemovedLocalObjects]: the constructor arguments, in their order. *)
Record RemovedLocalObjects : Type := mkRemovedLocalObjects {
  removedIdentities : ComponentIdList;   (* removedComponentIds *)
  missingIdentities : ComponentIdList;   (* missingComponents *)
  modifiedSkipped : ComponentIdList;     (* modifiedComponents *)
  blockingDependents : list (string * list BitId); (* dependentBits *)
  removedFromLaneIds : list BitId;       (* removedFromLane *)
}.

(** [new RemovedLocalObjects()]. *)
Definition emptyRemovedLocalObjects : RemovedLocalObjects :=
  {| removedIdentities := []; missingIdentities := []; modifiedSkipped := [];
     blockingDependents := []; removedFromLaneIds := [] |}.

Record RemoveComponentsResult : Type := mkResult {
  localResult : RemovedLocalObjects;
  remoteResult : list RemovedObjects;
}.

(** The remotes of a scope and the central hub. *)
Record Remotes : Type := mkRemotes {
  shouldGoToCentralHub : list string -> bool;
  deleteMany : string -> list string -> bool -> Res RemovedObjects;
}.

Record Network : Type := mkNetwork {
  getScopeRemotes : Consumer -> Res Remotes;
  getGlobalRemotes : Res Remotes;
  deleteViaCentralHub : list string -> bool -> Res (list RemovedObjects);
}.

Definition R_isEmpty {A : Type} (xs : list A) : bool :=
  match xs with [] => true | _ => false end.

(** [groupArray(bitIds, 'scope')]: the scopes in order of first appearance,
    each with its identities. *)
Definition groupByScope (bitIds : list BitId) : list (string * list BitId) :=
  fold_left
    (fun groups id =>
       let key := default "" (BitId.scope id) in
       if existsb (fun g => bool_decide (fst g = key)) groups
       then map (fun g => if bool_decide (fst g = key) then (fst g, snd g ++ [id]) else g) groups
       else groups ++ [(key, [id])])
    bitIds [].

Open Scope res_scope.

(** [async function removeRemote(consumer, bitIds, force)]. *)
Definition removeRemote (net : Network) (consumer : option Consumer)
    (bitIds : ComponentIdList) (force : bool) : Res (list RemovedObjects) :=
  let groupedBitsByScope := groupByScope bitIds in
  let? remotes := match consumer with
                  | Some c => getScopeRemotes net c
                  | None => getGlobalRemotes net
                  end in
  if shouldGoToCentralHub remotes (map fst groupedBitsByScope)
  then deleteViaCentralHub net (map BitId.toString bitIds) force
  else
    res_mapM
      (fun group =>
         let idsStr := map BitId.toStringWithoutVersion (snd group) in
         deleteMany remotes (fst group) idsStr force)
      groupedBitsByScope.

(** The loop of [removeLocal] over the identities when [force] is off:
    the two lists it pushes to, or the error that leaves the loop. *)
Fixpoint partitionByModification (consumer : Consumer) (bitIds : list ComponentID)
    (modifiedComponents nonModifiedComponents : ComponentIdList)
    : Res (ComponentIdList * ComponentIdList) :=
  match bitIds with
  | [] => Ok (modifiedComponents, nonModifiedComponents)
  | id :: rest =>
      match getComponentStatusById consumer id with
      | Ok componentStatus =>
          if Js.truthyb (modified componentStatus)
          then partitionByModification consumer rest (modifiedComponents ++ [id]) nonModifiedComponents
          else partitionByModification consumer rest modifiedComponents (nonModifiedComponents ++ [id])
      | Throw err =>
          if isComponentInvalidByErrorType consumer err
          then partitionByModification consumer rest modifiedComponents (nonModifiedComponents ++ [id])
          else Throw err
      end
  end.

(** The second half of [removeLocal], from [new ComponentsList(consumer)]
    on: [idsToRemove] and [modifiedComponents] are settled. *)
Definition removeCandidates (consumer : Consumer)
    (idsToRemove modifiedComponents : ComponentIdList)
    (force track deleteFiles : bool) : Res RemovedLocalObjects :=
  let? newComponents := listNewComponents consumer false in
  let idsToRemoveFromScope :=
    BitIds.fromArray
      (List.filter (fun id => negb (BitIds.hasWithoutVersion newComponents id)) idsToRemove) in
  let idsToCleanFromWorkspace :=
    BitIds.fromArray
      (List.filter (fun id => BitIds.hasWithoutVersion newComponents id) idsToRemove) in
  let? loaded := loadComponents consumer idsToRemove false in
  let componentsToRemove := components loaded in
  let? removed := removeMany consumer idsToRemoveFromScope force in
  let idsToCleanFromWorkspace := idsToCleanFromWorkspace ++ removedComponentIds removed in
  let? _ :=
    if negb (R_isEmpty idsToCleanFromWorkspace)
    then
      let? _ := if deleteFiles
                then deleteComponentsFiles consumer idsToCleanFromWorkspace
                else Ok tt in
      if negb track
      then
        let invalidComponentsIds := map componentId (invalidComponents loaded) in
        let removedComponents :=
          List.filter
            (fun c => BitIds.hasWithoutVersion idsToCleanFromWorkspace (componentId c))
            componentsToRemove in
        let? _ := removeComponentsFromWorkspacesAndDependencies
                    consumer removedComponents invalidComponentsIds in
        cleanFromBitMap consumer idsToCleanFromWorkspace
      else Ok tt
    else Ok tt in
  Ok {| removedIdentities :=
          BitIds.uniqFromArray (idsToCleanFromWorkspace ++ removedComponentIds removed);
        missingIdentities := missingComponents removed;
        modifiedSkipped := modifiedComponents;
        blockingDependents := dependentBits removed;
        removedFromLaneIds := removedFromLane removed |}.

(** [async function removeLocal(consumer, bitIds, force, track, deleteFiles)]. *)
Definition removeLocal (consumer : Consumer) (bitIds : ComponentIdList)
    (force track deleteFiles : bool) : Res RemovedLocalObjects :=
  if R_isEmpty bitIds then Ok emptyRemovedLocalObjects
  else
    let? lists := if negb force
                  then partitionByModification consumer bitIds [] []
                  else Ok ([], []) in
    let modifiedComponents := fst lists in
    let nonModifiedComponents := snd lists in
    let idsToRemove := if force then bitIds else nonModifiedComponents in
    removeCandidates consumer idsToRemove modifiedComponents force track deleteFiles.

(** The message of the [GeneralError] thrown for unscoped identities. *)
Definition unscopedRemoteRemovalMessage (localIds : list BitId) : string :=
  "unable to remove the remote components: "
  +:+ String.concat "," (map BitId.toString localIds)
  +:+ " as they don't contain a scope-name".

(** [async function removeComponents({ consumer, ids, force, remote, track,
    deleteFiles })]. Without a consumer a local removal of a non-empty set
    dereferences [undefined]. *)
Definition removeComponents (net : Network) (consumer : option Consumer)
    (ids : ComponentIdList) (force remote track deleteFiles : bool)
    : Res RemoveComponentsResult :=
  let bitIdsLatest :=
    BitIds.fromArray (map (fun id => BitId.changeVersion id (Some BitId.LATEST)) ids) in
  let (localIds, remoteIds) := Js.partition BitId.isLocal bitIdsLatest in
  if remote && negb (Nat.eqb (length localIds) 0)
  then Throw (GeneralError (unscopedRemoteRemovalMessage localIds))
  else
    let? remoteResult :=
      if remote && negb (R_isEmpty remoteIds)
      then removeRemote net consumer remoteIds force
      else Ok [] in
    let? localResult :=
      if negb remote
      then match consumer with
           | Some c => removeLocal c bitIdsLatest force track deleteFiles
           | None => if R_isEmpty bitIdsLatest
                     then Ok emptyRemovedLocalObjects
                     else Throw TypeError
           end
      else Ok emptyRemovedLocalObjects in
    Ok {| localResult := localResult; remoteResult := remoteResult |}.

Close Scope res_scope.

(** What one turn of the loop of [removeLocal] does with an identity:
    push it to [modifiedComponents], or leave the loop with an error;
    otherwise it is pushed to [nonModifiedComponents]. *)
Definition statusModified (consumer : Consumer) (id : ComponentID) : bool :=
  match getComponentStatusById consumer id with
  | Ok componentStatus => Js.truthyb (modified componentStatus)
  | Throw _ => false
  end.

Definition abortsOn (consumer : Consumer) (id : ComponentID) : option Error :=
  match getComponentStatusById consumer id with
  | Ok _ => None
  | Throw err => if isComponentInvalidByErrorType consumer err then None else Some err
  end.

(** The same workspace with other answers to the status requests. *)
Definition withStatus (consumer : Consumer)
    (status : ComponentID -> Res ComponentStatus) : Consumer :=
  {| getModelComponentIfExist := getModelComponentIfExist consumer;
     loadComponents := loadComponents consumer;
     getCurrentLaneObject := getCurrentLaneObject consumer;
     getObject := getObject consumer;
     isComponentModified := isComponentModified consumer;
     getComponentStatusById := status;
     isComponentInvalidByErrorType := isComponentInvalidByErrorType consumer;
     listNewComponents := listNewComponents consumer;
     removeMany := removeMany consumer;
     deleteComponentsFiles := deleteComponentsFiles consumer;
     removeComponentsFromWorkspacesAndDependencies :=
       removeComponentsFromWorkspacesAndDependencies consumer;
     cleanFromBitMap := cleanFromBitMap consumer |}.

(** [scope.removeMany] reports as removed only identities it was given. *)
Definition removesOnlyRequested (consumer : Consumer) : Prop :=
  forall ids force removed,
    removeMany consumer ids force = Ok removed ->
    forall id, In id (removedComponentIds removed) -> In id ids.

(** The identities [removeLocal] hands to [scope.removeMany]. *)
Definition idsToRemoveFromScope (newComponents idsToRemove : ComponentIdList) : ComponentIdList :=
  BitIds.fromArray
    (List.filter (fun id => negb (BitIds.hasWithoutVersion newComponents id)) idsToRemove).



End Remove.

(* ===================================================================== *)
(** ** Concrete workspaces used to exercise the embedding *)
(* ===================================================================== *)

Module Examples.

Definition idA : BitId := BitId.mk (Some "acme") "ui/button" (Some "1.0.0").
Definition idA2 : BitId := BitId.mk (Some "acme") "ui/button" (Some "2.0.0").
Definition idB : BitId := BitId.mk (Some "acme") "ui/card" (Some "1.0.0").
Definition idUnscoped : BitId := BitId.mk None "utils/is-string" None.
Definition idZ : BitId := BitId.mk (Some "acme") "ui/card" (Some BitId.LATEST).
Definition idY : BitId := BitId.mk (Some "acme") "ui/button" (Some BitId.LATEST).

(** A model component whose head is the tag [1.0.0], ahead of its remote. *)
Definition modelA : ModelComponent :=
  {| getHeadRegardlessOfLaneAsTagOrHash := "1.0.0";
     setDivergeData := Ok tt;
     isLocallyChanged := fun _ => Ok true;
     getRef := fun v => if bool_decide (v = "1.0.0") then Some {| hash := "3f2a" |} else None |}.

Definition fsA : ConsumerComponent := {| componentId := idA; mainFile := "index.ts" |}.

Definition fsNoVersion : ConsumerComponent :=
  {| componentId := BitId.mk (Some "acme") "ui/button" None; mainFile := "index.ts" |}.

Definition loaded (cs : list ConsumerComponent) : LoadComponentsResult :=
  {| components := cs; invalidComponents := []; removedComponents := [] |}.

Definition invalidByErrorType (err : Error) : bool :=
  match err with
  | MissingFilesFromComponent | ComponentNotFoundInPath | ComponentOutOfSync _ => true
  | _ => false
  end.

Definition removesAll (ids : ComponentIdList) (force : bool) : Res RemovedObjects :=
  Ok {| removedComponentIds := ids; missingComponents := [];
        dependentBits := []; removedFromLane := [] |}.

(** A scope that holds none of the identities reports them all missing. *)
Definition missesAll (ids : ComponentIdList) (force : bool) : Res RemovedObjects :=
  Ok {| removedComponentIds := []; missingComponents := ids;
        dependentBits := []; removedFromLane := [] |}.

Definition unmodifiedStatus : ComponentStatus := set_modified (set_staged emptyStatus false) false.
Definition modifiedStatus : ComponentStatus := set_modified (set_staged emptyStatus false) true.

Definition workspace
    (model : Res (option ModelComponent))
    (load : Res LoadComponentsResult)
    (status : ComponentID -> Res ComponentStatus)
    (newIds : ComponentIdList)
    (remove : ComponentIdList -> bool -> Res RemovedObjects) : Consumer :=
  {| getModelComponentIfExist := fun _ => model;
     loadComponents := fun _ _ => load;
     getCurrentLaneObject := Ok None;
     getObject := fun h => Ok (Some {| objectHash := h |});
     isComponentModified := fun _ _ => Ok true;
     getComponentStatusById := status;
     isComponentInvalidByErrorType := invalidByErrorType;
     listNewComponents := fun _ => Ok newIds;
     removeMany := remove;
     deleteComponentsFiles := fun _ => Ok tt;
     removeComponentsFromWorkspacesAndDependencies := fun _ _ => Ok tt;
     cleanFromBitMap := fun _ => Ok tt |}.

(** The objects of the working copy's version are not fetched yet. *)
Definition pendingImport : Consumer :=
  workspace (Ok (Some modelA)) (Throw ComponentsPendingImport)
            (fun _ => Ok unmodifiedStatus) [] removesAll.

(** A tagged component, locally ahead and edited in the working copy. *)
Definition stagedAndModified : Consumer :=
  workspace (Ok (Some modelA)) (Ok (loaded [fsA]))
            (fun _ => Ok modifiedStatus) [] removesAll.

(** The working copy carries no version of a tagged component. *)
Definition outOfSync : Consumer :=
  workspace (Ok (Some modelA)) (Ok (loaded [fsNoVersion]))
            (fun _ => Throw (ComponentOutOfSync "acme/ui/button")) [] removesAll.

(** [idZ] is modified, every other identity is not. *)
Definition statusZModified (id : ComponentID) : Res ComponentStatus :=
  if bool_decide (id = idZ) then Ok modifiedStatus else Ok unmodifiedStatus.

Definition zModified : Consumer :=
  workspace (Ok (Some modelA)) (Ok (loaded [fsA])) statusZModified [] removesAll.

(** [idZ] is modified and the scope does not hold it. *)
Definition zModifiedMissing : Consumer :=
  workspace (Ok (Some modelA)) (Ok (loaded [fsA])) statusZModified [] missesAll.

(** The status of [idZ] fails with a missing main file; the status of
    [idY] fails with an error that does not mark the component invalid. *)
Definition statusFailing (id : ComponentID) : Res ComponentStatus :=
  if bool_decide (id = idZ) then Throw MissingFilesFromComponent
  else if bool_decide (id = idY) then Throw (OtherError "EACCES")
  else Ok unmodifiedStatus.

Definition zInvalid : Consumer :=
  workspace (Ok (Some modelA)) (Ok (loaded [fsA])) statusFailing [] removesAll.

Definition offline : Remove.Network :=
  {| Remove.getScopeRemotes := fun _ => Throw (OtherError "no remotes");
     Remove.getGlobalRemotes := Throw (OtherError "no remotes");
     Remove.deleteViaCentralHub := fun _ _ => Throw (OtherError "offline") |}.

(** Component X declares [left-pad] at [^1.0.0] as a runtime dependency. *)
Definition depsOfX : IndexByDepId.ComponentDependenciesMap :=
  [("@acme/x", [("dependencies", [("left-pad", "^1.0.0")])])].

Definition depsWithoutLeftPad : IndexByDepId.ComponentDependenciesMap :=
  [("@acme/x", [("dependencies", [("lodash", "^4.0.0")])])].

Definition preserveLeftPad : IndexByDepId.WorkspacePolicy :=
  [ {| IndexByDepId.dependencyId := "left-pad";
       IndexByDepId.value := {| IndexByDepId.version := "1.3.0";
                                IndexByDepId.preserve := Some true |};
       IndexByDepId.policyLifecycleType := IndexByDepId.RUNTIME |} ].

(** The first status request for [idA] in the workspace where it is
    staged and modified, and in the one where it is out of sync. *)
Definition firstCall : Res ComponentStatus * StatusLoader.State :=
  StatusLoader.getComponentStatusById stagedAndModified idA StatusLoader.newLoader.

Definition failedCall : Res ComponentStatus * StatusLoader.State :=
  StatusLoader.getComponentStatusById outOfSync idA StatusLoader.newLoader.





End Examples.


(* ===================================================================== *)
(** * Properties *)
(* ===================================================================== *)

(** ** The identity collection *)

Section BitIdsFacts.

Implicit Types (S T this : BitIds.t) (x y bitId : BitId).

Lemma isEqual_true x y : BitId.isEqual x y = true <-> x = y.
Proof.
  unfold BitId.isEqual, BitId.hasSameName, BitId.hasSameScope, BitId.hasSameVersion.
  rewrite !andb_true_iff, !bool_decide_eq_true.
  destruct x, y; simpl; split.
  - intros [[-> ->] ->]; reflexivity.
  - intros [= -> -> ->]; auto.
Qed.

Lemma isEqual_false x y : BitId.isEqual x y = false <-> x <> y.
Proof.
  rewrite <- isEqual_true. destruct (BitId.isEqual x y); split; congruence.
Qed.

Lemma filter_none {A : Type} (p : A -> bool) (l : list A) :
  (forall a, In a l -> p a = false) -> List.filter p l = [].
Proof.
  induction l as [|a l IH]; intros H; simpl; [reflexivity|].
  rewrite (H a (or_introl eq_refl)). apply IH. intros b Hb. apply H. now right.
Qed.

Lemma push_all {A : Type} (xs acc : list A) :
  fold_left (fun bitIds id => bitIds ++ [id]) xs acc = acc ++ xs.
Proof.
  revert acc; induction xs as [|a xs IH]; intros acc; simpl.
  - now rewrite app_nil_r.
  - rewrite IH, <- app_assoc. reflexivity.
Qed.

Lemma fromArray_same (ids : list BitId) : BitIds.fromArray ids = ids.
Proof. unfold BitIds.fromArray. now rewrite push_all. Qed.

(** [search] finds a member exactly when one is fully equal to the id. *)
Lemma search_None this bitId :
  BitIds.search this bitId = None <->
  forall id, In id this -> BitId.isEqual id bitId = false.
Proof.
  unfold BitIds.search, BitId.isEqual. split.
  - intros H id Hin. exact (find_none _ _ H id Hin).
  - intros H. induction this as [|a l IH]; simpl; [reflexivity|].
    rewrite (H a (or_introl eq_refl)). apply IH. intros id Hin. apply H. now right.
Qed.

Lemma has_true this bitId : BitIds.has this bitId = true <-> In bitId this.
Proof.
  unfold BitIds.has. destruct (BitIds.search this bitId) as [f|] eqn:E; simpl.
  - split; [intros _|reflexivity].
    unfold BitIds.search in E. apply find_some in E as [Hin Heq].
    apply isEqual_true in Heq. now subst.
  - split; [discriminate|]. intros Hin.
    pose proof (proj1 (search_None _ _) E _ Hin) as Hne.
    apply isEqual_false in Hne. congruence.
Qed.

Lemma uniqueFull_NoDup (l : list BitId) : BitIds.uniqueFull l <-> List.NoDup l.
Proof.
  induction l as [|a l IH]; simpl.
  - split; [constructor|trivial].
  - rewrite IH. split.
    + intros [Hne Hnd]. constructor; [|exact Hnd].
      intros Hin. specialize (Hne _ Hin). apply isEqual_false in Hne. congruence.
    + intros Hnd. inversion Hnd as [|? ? Hnotin Hnd']; subst. split; [|exact Hnd'].
      intros y Hin. apply isEqual_false. intros ->. contradiction.
Qed.

Lemma uniqueFull_filter (p : BitId -> bool) (l : list BitId) :
  BitIds.uniqueFull l -> BitIds.uniqueFull (List.filter p l).
Proof. rewrite !uniqueFull_NoDup. apply List.NoDup_filter. Qed.

Lemma uniqueFull_snoc (l : list BitId) bitId :
  BitIds.uniqueFull l -> BitIds.search l bitId = None -> BitIds.uniqueFull (l ++ [bitId]).
Proof.
  intros Hu Hs. rewrite search_None in Hs.
  induction l as [|a l IH]; simpl.
  - split; [intros ? []|trivial].
  - destruct Hu as [Hne Hu]. split.
    + intros y Hin. apply in_app_or in Hin as [Hin|[<-|[]]]; [now apply Hne|].
      apply Hs. now left.
    + apply IH; [exact Hu|]. intros id Hin. apply Hs. now right.
Qed.

Lemma add_uniqueFull (ids : list BitId) this :
  BitIds.uniqueFull this -> BitIds.uniqueFull (BitIds.add this ids).
Proof.
  unfold BitIds.add. revert this. induction ids as [|b ids IH]; intros this Hu; simpl.
  - exact Hu.
  - apply IH. destruct (BitIds.search this b) eqn:E; simpl; [exact Hu|].
    now apply uniqueFull_snoc.
Qed.

End BitIdsFacts.

Section UniqByFacts.

Context {A K : Type} `{EqDecision K} (key : A -> K).

Lemma seen_spec (k : K) (seen : list K) :
  existsb (fun k' => bool_decide (k' = k)) seen = true <-> In k seen.
Proof.
  rewrite existsb_exists. split.
  - intros [k' [Hin Hk]]. apply bool_decide_eq_true in Hk. now subst.
  - intros Hin. exists k. split; [exact Hin|]. now apply bool_decide_eq_true.
Qed.

Lemma uniqByFrom_sound (xs : list A) (seen : list K) (x : A) :
  In x (Js.uniqByFrom key seen xs) -> In x xs /\ ~ In (key x) seen.
Proof.
  revert seen. induction xs as [|a xs IH]; intros seen; simpl; [intros []|].
  destruct (existsb _ seen) eqn:E.
  - intros Hin. destruct (IH _ Hin) as [H1 H2]. auto.
  - intros [<-|Hin].
    + split; [now left|]. rewrite <- seen_spec. congruence.
    + destruct (IH _ Hin) as [H1 H2]. split; [now right|].
      intros Hs. apply H2. now right.
Qed.

Lemma uniqByFrom_keys_NoDup (xs : list A) (seen : list K) :
  List.NoDup (map key (Js.uniqByFrom key seen xs)).
Proof.
  revert seen. induction xs as [|a xs IH]; intros seen; simpl; [constructor|].
  destruct (existsb _ seen) eqn:E; [apply IH|].
  simpl. constructor; [|apply IH].
  rewrite in_map_iff. intros [y [Hk Hin]].
  apply uniqByFrom_sound in Hin as [_ Hns]. apply Hns. left. congruence.
Qed.

Lemma uniqByFrom_complete (xs : list A) (seen : list K) (x : A) :
  In x xs -> ~ In (key x) seen ->
  exists y, In y (Js.uniqByFrom key seen xs) /\ key y = key x.
Proof.
  revert seen. induction xs as [|a xs IH]; intros seen; simpl; [intros []|].
  intros Hin Hns. destruct (existsb _ seen) eqn:E.
  - destruct Hin as [->|Hin]; [apply seen_spec in E; contradiction|].
    now apply IH.
  - destruct Hin as [->|Hin]; [exists x; split; [now left|reflexivity]|].
    destruct (decide (key a = key x)) as [Heq|Hne].
    + exists a. split; [now left|exact Heq].
    + destruct (IH (key a :: seen) Hin) as [y [Hy Hk]].
      * intros [Heq|Hs]; [now apply Hne|now apply Hns].
      * exists y. split; [now right|exact Hk].
Qed.

End UniqByFacts.

Section UniqFromArrayFacts.

Lemma JSON_stringify_inj (x y : BitId) :
  BitId.JSON_stringify x = BitId.JSON_stringify y -> x = y.
Proof. destruct x, y. unfold BitId.JSON_stringify. simpl. now intros [= -> -> ->]. Qed.

Lemma uniqFromArray_In (ids : list BitId) (x : BitId) :
  In x (BitIds.uniqFromArray ids) <-> In x ids.
Proof.
  unfold BitIds.uniqFromArray, Js.uniqBy. rewrite fromArray_same. split.
  - intros Hin. now apply uniqByFrom_sound in Hin.
  - intros Hin.
    destruct (uniqByFrom_complete BitId.JSON_stringify ids [] x Hin) as [y [Hy Hk]];
      [intros []|].
    apply JSON_stringify_inj in Hk. now subst.
Qed.

Lemma uniqFromArray_uniqueFull (ids : list BitId) :
  BitIds.uniqueFull (BitIds.uniqFromArray ids).
Proof.
  rewrite uniqueFull_NoDup. unfold BitIds.uniqFromArray, Js.uniqBy.
  rewrite fromArray_same.
  eapply List.NoDup_map_inv. apply uniqByFrom_keys_NoDup.
Qed.

Lemma deserialize_keeps_every_element (parse : string -> Res BitId)
    (array : list string) (ids : BitIds.t) :
  BitIds.deserialize parse array = Ok ids ->
  Forall2 (fun str id => parse str = Ok id) array ids.
Proof.
  unfold BitIds.deserialize. revert ids.
  induction array as [|str array IH]; intros ids; simpl.
  - intros [= <-]. constructor.
  - destruct (parse str) as [id|e] eqn:Ep; simpl; [|discriminate].
    destruct (res_mapM parse array) as [rest|e] eqn:Er; simpl; [|discriminate].
    intros [= <-]. constructor; [exact Ep|]. now apply IH.
Qed.

End UniqFromArrayFacts.

(** C7. For all identity sets S and T: every member of [S.difference(T)] is
    a member of S, and no member of it is fully equal to a member of T, so
    intersecting the difference with T leaves nothing; [S.difference(S)] is
    the empty collection. *)
Theorem difference_disjoint_from_argument (S T : BitIds.t) :
  (forall x, In x (BitIds.difference S T) ->
     In x S /\ BitIds.search T x = None /\
     forall t, In t T -> BitId.isEqual t x = false)
  /\ List.filter (BitIds.has T) (BitIds.difference S T) = []
  /\ BitIds.difference S S = [].
Proof.
  unfold BitIds.difference. rewrite !fromArray_same.
  assert (Hmem : forall x,
             In x (List.filter (fun id => negb (Js.truthy (BitIds.search T id))) S) ->
             In x S /\ BitIds.search T x = None).
  { intros x Hin. apply filter_In in Hin as [Hin Hs]. split; [exact Hin|].
    destruct (BitIds.search T x); [discriminate|reflexivity]. }
  repeat split.
  - now apply Hmem.
  - now apply Hmem.
  - intros t Ht. destruct (Hmem x H) as [_ Hs].
    exact (proj1 (search_None _ _) Hs t Ht).
  - apply filter_none. intros x Hin.
    destruct (Hmem x Hin) as [_ Hs]. unfold BitIds.has. now rewrite Hs.
  - clear Hmem. apply filter_none. intros x Hin.
    apply negb_false_iff. change (BitIds.has S x = true). now apply has_true.
Qed.

(** C8, as stated, fails: [fromArray] pushes every element it is given, so
    an array that lists one identity twice yields a collection with two
    fully equal members. *)
Lemma fromArray_keeps_duplicates :
  BitIds.fromArray [Examples.idA; Examples.idA] = [Examples.idA; Examples.idA]
  /\ BitId.isEqual Examples.idA Examples.idA = true
  /\ ~ BitIds.uniqueFull (BitIds.fromArray [Examples.idA; Examples.idA]).
Proof.
  split; [reflexivity|]. split; [reflexivity|].
  simpl. intros [Hne _]. specialize (Hne Examples.idA (or_introl eq_refl)).
  discriminate Hne.
Qed.

(** C8, amended. Uniqueness under full equality is kept, not enforced: [add]
    never pushes an identity fully equal to a member, and [difference] and
    [removeIfExist] only drop members, so a collection without fully equal
    members stays so; [uniqFromArray] always yields one; [fromArray] and
    [deserialize] keep every element they are given, duplicates included.
    The same component at two versions may be members together. *)
Theorem uniqueness_kept_by_add_difference_removeIfExist (this : BitIds.t)
    (Hunique : BitIds.uniqueFull this) :
  (forall bitIds, BitIds.uniqueFull (BitIds.add this bitIds))
  /\ (forall bitIds, BitIds.uniqueFull (BitIds.difference this bitIds))
  /\ (forall bitId, BitIds.uniqueFull (BitIds.removeIfExist this bitId))
  /\ (forall ids, BitIds.uniqueFull (BitIds.uniqFromArray ids))
  /\ (forall ids, BitIds.fromArray ids = ids)
  /\ (forall parse array ids,
        BitIds.deserialize parse array = Ok ids ->
        Forall2 (fun str id => parse str = Ok id) array ids)
  /\ (BitIds.add [] [Examples.idA; Examples.idA2] = [Examples.idA; Examples.idA2]
      /\ BitId.isEqualWithoutVersion Examples.idA Examples.idA2 = true).
Proof.
  repeat split.
  - intros bitIds. now apply add_uniqueFull.
  - intros bitIds. unfold BitIds.difference. rewrite fromArray_same.
    now apply uniqueFull_filter.
  - intros bitId. unfold BitIds.removeIfExist. rewrite fromArray_same.
    now apply uniqueFull_filter.
  - apply uniqFromArray_uniqueFull.
  - apply fromArray_same.
  - apply deserialize_keeps_every_element.
Qed.

Lemma uniqueness_kept_witness :
  BitIds.uniqueFull [Examples.idA; Examples.idB]
  /\ BitIds.uniqueFull (BitIds.add [Examples.idA; Examples.idB] [Examples.idA; Examples.idA2]).
Proof.
  assert (H : BitIds.uniqueFull [Examples.idA; Examples.idB]).
  { simpl. repeat split; try tauto.
    intros y [<-|[]]. reflexivity. }
  split; [exact H|].
  exact (proj1 (uniqueness_kept_by_add_difference_removeIfExist _ H) _).
Defined.

(** ** The status loader *)

Section StatusLoaderFacts.

Import StatusLoader.

Implicit Types (consumer : Consumer) (id : ComponentID) (s : State).

(** One case split on the next collaborator answer or test of [getStatus]. *)
Ltac step_getStatus :=
  match goal with
  | |- context [getModelComponentIfExist ?c ?i] =>
      destruct (getModelComponentIfExist c i) as [[?|]|?] eqn:?
  | |- context [loadComponents ?c ?i ?b] => destruct (loadComponents c i b) as [?|[]] eqn:?
  | |- context [negb (Nat.eqb ?n 0)] => destruct (negb (Nat.eqb n 0)) eqn:?
  | |- context [bool_decide (?h = VERSION_ZERO)] => destruct (bool_decide (h = VERSION_ZERO)) eqn:?
  | |- context [getCurrentLaneObject ?c] => destruct (getCurrentLaneObject c) eqn:?
  | |- context [setDivergeData ?m] => destruct (setDivergeData m) eqn:?
  | |- context [isLocallyChanged ?m ?l] => destruct (isLocallyChanged m l) eqn:?
  | |- context [head ?l] => destruct (head l) eqn:?
  | |- context [BitId.hasVersion ?i] => destruct (BitId.hasVersion i) eqn:?
  | |- context [getRef ?m ?v] => destruct (getRef m v) eqn:?
  | |- context [getObject ?c ?h] => destruct (getObject c h) as [[?|]|?] eqn:?
  | |- context [isComponentModified ?c ?v ?f] => destruct (isComponentModified c v f) eqn:?
  end; simpl.

Ltac run_getStatus :=
  unfold outcomeOf, callsOf, getStatus, bind, tryCatch, call, ret, throw; simpl;
  repeat step_getStatus.

(** [getStatus] reads nothing of the instance and only appends to its
    journal. *)
Lemma getStatus_run consumer id s :
  getStatus consumer id s
  = (outcomeOf consumer id,
     {| _componentsStatusCache := _componentsStatusCache s;
        journal := journal s ++ callsOf consumer id |}).
Proof. run_getStatus; rewrite <- ?app_assoc; reflexivity. Qed.

Lemma outcomeOf_shape consumer id status :
  outcomeOf consumer id = Ok status -> computedShape status.
Proof. run_getStatus; intros [= <-]; constructor. Qed.

(** A computation always starts by asking the scope for the model
    component, and one that returns a record has loaded the working copy
    exactly once. *)
Lemma callsOf_first consumer id :
  exists calls, callsOf consumer id = CallGetModelComponentIfExist id :: calls.
Proof. run_getStatus; eexists; reflexivity. Qed.

Lemma callsOf_loads_once consumer id status :
  outcomeOf consumer id = Ok status ->
  length (List.filter isLoadCall (callsOf consumer id)) = 1.
Proof. run_getStatus; intros [= <-]; reflexivity. Qed.

Lemma getStatus_shape consumer id s status s' :
  getStatus consumer id s = (Ok status, s') -> computedShape status.
Proof. rewrite getStatus_run. intros [= H _]. now apply outcomeOf_shape in H. Qed.

(** [getComponentStatusById] on a key without entry runs [getStatus] and
    caches what it returns; on a key with an entry it returns the entry. *)
Lemma getComponentStatusById_miss consumer id s :
  _componentsStatusCache s !! BitId.toString id = None ->
  getComponentStatusById consumer id s
  = match getStatus consumer id s with
    | (Ok status, s') => (Ok status, cached (BitId.toString id) status s')
    | (Throw e, s') => (Throw e, s')
    end.
Proof.
  intros Hmiss. unfold getComponentStatusById, bind, readCache. rewrite Hmiss.
  unfold bind, writeCache, ret, cached.
  destruct (getStatus consumer id s) as [[status|e] s']; reflexivity.
Qed.

Lemma getComponentStatusById_hit consumer id s status :
  _componentsStatusCache s !! BitId.toString id = Some status ->
  getComponentStatusById consumer id s = (Ok status, s).
Proof.
  intros Hhit. unfold getComponentStatusById, bind, readCache. now rewrite Hhit.
Qed.

End StatusLoaderFacts.

(** C1 (the code departs from the claim). When the working-copy load fails
    with [ComponentsPendingImport], [getStatus] returns the record it
    started from: [missingFromScope] is read, never assigned, so it stays
    [undefined] like every other facet. *)
Theorem getStatus_pending_import_leaves_missingFromScope_unset
    (consumer : Consumer) (id : ComponentID) (s : StatusLoader.State)
    (model : option ModelComponent)
    (Hmodel : getModelComponentIfExist consumer id = Ok model)
    (Hload : loadComponents consumer
               (BitIds.fromArray [BitId.changeVersion id (Some BitId.LATEST)]) true
             = Throw ComponentsPendingImport) :
  exists status s',
    StatusLoader.getStatus consumer id s = (Ok status, s')
    /\ status = emptyStatus
    /\ missingFromScope status = None
    /\ Js.truthyb (missingFromScope status) = false.
Proof.
  exists emptyStatus. eexists. split; [|repeat split].
  rewrite getStatus_run. f_equal.
  unfold StatusLoader.outcomeOf, StatusLoader.getStatus, StatusLoader.bind,
    StatusLoader.tryCatch, StatusLoader.call, StatusLoader.ret. simpl.
  rewrite Hmodel. simpl. rewrite Hload. reflexivity.
Qed.

Lemma getStatus_pending_import_witness :
  exists status s',
    StatusLoader.getStatus Examples.pendingImport Examples.idA StatusLoader.newLoader
    = (Ok status, s')
    /\ status = emptyStatus
    /\ missingFromScope status = None
    /\ Js.truthyb (missingFromScope status) = false.
Proof.
  apply (getStatus_pending_import_leaves_missingFromScope_unset
           Examples.pendingImport Examples.idA StatusLoader.newLoader
           (Some Examples.modelA)); reflexivity.
Defined.

(** No computed record ever carries [missingFromScope]. *)
Lemma getStatus_never_sets_missingFromScope
    (consumer : Consumer) (id : ComponentID) (s s' : StatusLoader.State)
    (status : ComponentStatus) :
  StatusLoader.getStatus consumer id s = (Ok status, s') ->
  missingFromScope status = None.
Proof. intros H. apply getStatus_shape in H. destruct H; reflexivity. Qed.

(** C5. Every status record produced by [getStatus] has at most one of the
    facets [notExist], [deleted], [newlyCreated] set to true, while [staged]
    and [modified] may be true together. *)
Theorem getStatus_terminal_facets_exclusive :
  (forall (consumer : Consumer) (id : ComponentID) (s s' : StatusLoader.State)
          (status : ComponentStatus),
      StatusLoader.getStatus consumer id s = (Ok status, s') ->
      terminalFacets status <= 1)
  /\ (exists (consumer : Consumer) (id : ComponentID) (s' : StatusLoader.State)
             (status : ComponentStatus),
        StatusLoader.getStatus consumer id StatusLoader.newLoader = (Ok status, s')
        /\ staged status = Some true /\ modified status = Some true).
Proof.
  split.
  - intros consumer id s s' status H. apply getStatus_shape in H.
    destruct H; unfold terminalFacets; simpl; lia.
  - exists Examples.stagedAndModified, Examples.idA,
      (snd (StatusLoader.getStatus Examples.stagedAndModified Examples.idA
              StatusLoader.newLoader)),
      (set_modified (set_staged emptyStatus true) true).
    split; [vm_compute; reflexivity|]. split; reflexivity.
Qed.

Lemma getStatus_terminal_facets_witness :
  StatusLoader.outcomeOf Examples.stagedAndModified Examples.idA
  = Ok (set_modified (set_staged emptyStatus true) true)
  /\ terminalFacets (set_modified (set_staged emptyStatus true) true) <= 1.
Proof.
  split; [vm_compute; reflexivity|].
  apply (proj1 getStatus_terminal_facets_exclusive
           Examples.stagedAndModified Examples.idA StatusLoader.newLoader
           (snd (StatusLoader.getStatus Examples.stagedAndModified Examples.idA
                   StatusLoader.newLoader))).
  vm_compute; reflexivity.
Defined.

(** C4. Once [getComponentStatusById] has returned a record for an identity,
    a second call on the same instance returns that same record and leaves
    the instance as it is, whatever the workspace has become: nothing is
    computed and the working-copy loader is not invoked again, so over both
    calls it ran at most once (exactly once when the identity had no entry).
    [clearOneComponentCache(id)] deletes the entry of that identity's key and
    no other. *)
Theorem getComponentStatusById_cached
    (consumer : Consumer) (id : ComponentID) (s s1 : StatusLoader.State)
    (status : ComponentStatus)
    (Hfirst : StatusLoader.getComponentStatusById consumer id s = (Ok status, s1)) :
  (forall consumer', StatusLoader.getComponentStatusById consumer' id s1 = (Ok status, s1))
  /\ StatusLoader.loadCount s1 <= S (StatusLoader.loadCount s)
  /\ (StatusLoader._componentsStatusCache s !! BitId.toString id = None ->
      StatusLoader.loadCount s1 = S (StatusLoader.loadCount s))
  /\ StatusLoader._componentsStatusCache (StatusLoader.clearOneComponentCache id s1)
       !! BitId.toString id = None
  /\ (forall key, key <> BitId.toString id ->
        StatusLoader._componentsStatusCache (StatusLoader.clearOneComponentCache id s1) !! key
        = StatusLoader._componentsStatusCache s1 !! key)
  /\ StatusLoader.journal (StatusLoader.clearOneComponentCache id s1)
     = StatusLoader.journal s1.
Proof.
  assert (Hclear :
    StatusLoader._componentsStatusCache (StatusLoader.clearOneComponentCache id s1)
      !! BitId.toString id = None
    /\ (forall key, key <> BitId.toString id ->
          StatusLoader._componentsStatusCache (StatusLoader.clearOneComponentCache id s1) !! key
          = StatusLoader._componentsStatusCache s1 !! key)
    /\ StatusLoader.journal (StatusLoader.clearOneComponentCache id s1)
       = StatusLoader.journal s1).
  { unfold StatusLoader.clearOneComponentCache. simpl. split; [apply lookup_delete_eq|].
    split; [|reflexivity]. intros key Hne. now apply lookup_delete_ne. }
  destruct (StatusLoader._componentsStatusCache s !! BitId.toString id) as [st0|] eqn:Hc.
  - rewrite (getComponentStatusById_hit _ _ _ _ Hc) in Hfirst.
    injection Hfirst as -> ->.
    split; [intros consumer'; now apply getComponentStatusById_hit|].
    split; [lia|]. split; [discriminate|exact Hclear].
  - rewrite (getComponentStatusById_miss _ _ _ Hc), getStatus_run in Hfirst.
    destruct (StatusLoader.outcomeOf consumer id) as [st|e] eqn:Ho; [|discriminate].
    injection Hfirst as -> <-.
    assert (Hcount : StatusLoader.loadCount
                       (StatusLoader.cached (BitId.toString id) status
                          {| StatusLoader._componentsStatusCache :=
                               StatusLoader._componentsStatusCache s;
                             StatusLoader.journal :=
                               StatusLoader.journal s ++ StatusLoader.callsOf consumer id |})
                     = S (StatusLoader.loadCount s)).
    { unfold StatusLoader.loadCount, StatusLoader.cached. simpl.
      rewrite List.filter_app, length_app, (callsOf_loads_once _ _ _ Ho). lia. }
    split.
    { intros consumer'. apply getComponentStatusById_hit.
      unfold StatusLoader.cached. simpl. apply lookup_insert_eq. }
    split; [lia|]. split; [intros _; exact Hcount|exact Hclear].
Qed.

Lemma getComponentStatusById_cached_witness :
  fst Examples.firstCall = Ok (set_modified (set_staged emptyStatus true) true)
  /\ StatusLoader.getComponentStatusById Examples.pendingImport Examples.idA
       (snd Examples.firstCall)
     = (Ok (set_modified (set_staged emptyStatus true) true), snd Examples.firstCall)
  /\ StatusLoader.loadCount (snd Examples.firstCall) = 1.
Proof.
  assert (Hfirst : StatusLoader.getComponentStatusById
                     Examples.stagedAndModified Examples.idA StatusLoader.newLoader
                   = (Ok (set_modified (set_staged emptyStatus true) true),
                      snd Examples.firstCall))
    by (vm_compute; reflexivity).
  split; [vm_compute; reflexivity|].
  destruct (getComponentStatusById_cached _ _ _ _ _ Hfirst) as [Hagain [_ [Honce _]]].
  split; [apply Hagain|]. apply Honce. reflexivity.
Defined.

(** C9. When the status computation throws, [getComponentStatusById] rejects
    with that error and the cache is left as it was, with no entry for the
    identity; the next call for the identity runs the whole computation
    again, starting with the model lookup, and caches only what that run
    returns. *)
Theorem getComponentStatusById_failure_not_cached
    (consumer : Consumer) (id : ComponentID) (s s' : StatusLoader.State) (e : Error)
    (Hfail : StatusLoader.getComponentStatusById consumer id s = (Throw e, s')) :
  StatusLoader.getStatus consumer id s = (Throw e, s')
  /\ StatusLoader._componentsStatusCache s' = StatusLoader._componentsStatusCache s
  /\ StatusLoader._componentsStatusCache s' !! BitId.toString id = None
  /\ (forall consumer',
        StatusLoader.getComponentStatusById consumer' id s'
        = match StatusLoader.getStatus consumer' id s' with
          | (Ok status, s2) => (Ok status, StatusLoader.cached (BitId.toString id) status s2)
          | (Throw e', s2) => (Throw e', s2)
          end)
  /\ (forall consumer', exists calls,
        StatusLoader.journal (snd (StatusLoader.getComponentStatusById consumer' id s'))
        = StatusLoader.journal s' ++ StatusLoader.CallGetModelComponentIfExist id :: calls).
Proof.
  destruct (StatusLoader._componentsStatusCache s !! BitId.toString id) as [st0|] eqn:Hc.
  { rewrite (getComponentStatusById_hit _ _ _ _ Hc) in Hfail. discriminate. }
  rewrite (getComponentStatusById_miss _ _ _ Hc) in Hfail.
  destruct (StatusLoader.getStatus consumer id s) as [[st|e0] s0] eqn:Hg; [discriminate|].
  injection Hfail as -> ->.
  assert (Hcache : StatusLoader._componentsStatusCache s'
                   = StatusLoader._componentsStatusCache s).
  { rewrite getStatus_run in Hg. injection Hg as _ <-. reflexivity. }
  assert (Hmiss : StatusLoader._componentsStatusCache s' !! BitId.toString id = None)
    by (rewrite Hcache; exact Hc).
  split; [reflexivity|]. split; [exact Hcache|]. split; [exact Hmiss|].
  split.
  - intros consumer'. now apply getComponentStatusById_miss.
  - intros consumer'. rewrite (getComponentStatusById_miss _ _ _ Hmiss), getStatus_run.
    destruct (callsOf_first consumer' id) as [calls Hcalls].
    exists calls. rewrite <- Hcalls.
    destruct (StatusLoader.outcomeOf consumer' id); reflexivity.
Qed.

Lemma getComponentStatusById_failure_witness :
  fst Examples.failedCall = Throw (ComponentOutOfSync "acme/ui/button@1.0.0")
  /\ StatusLoader._componentsStatusCache (snd Examples.failedCall)
       !! BitId.toString Examples.idA = None.
Proof.
  assert (Hfail : StatusLoader.getComponentStatusById
                    Examples.outOfSync Examples.idA StatusLoader.newLoader
                  = (Throw (ComponentOutOfSync "acme/ui/button@1.0.0"),
                     snd Examples.failedCall))
    by (vm_compute; reflexivity).
  split; [vm_compute; reflexivity|].
  exact (proj1 (proj2 (proj2 (getComponentStatusById_failure_not_cached _ _ _ _ _ Hfail)))).
Defined.

(** ** The dependency indexer *)

Section IndexFacts.

Import IndexByDepId.

Implicit Types (index : PackageNameIndex) (depId key : string).

Lemma addComponentDepToDepIdIndex_dom index origin lifecycleType range depId key :
  is_Some (addComponentDepToDepIdIndex index origin lifecycleType range depId !! key)
  <-> key = depId \/ is_Some (index !! key).
Proof.
  unfold addComponentDepToDepIdIndex.
  destruct (index !! depId) as [item|] eqn:E; simpl.
  - rewrite lookup_alter. destruct (decide (depId = key)) as [->|Hne].
    + rewrite E. simpl. split; [intros _; now left|intros _; eauto].
    + split; [now right|]. intros [->|H]; [congruence|exact H].
  - destruct (decide (depId = key)) as [->|Hne].
    + rewrite lookup_insert_eq. split; [intros _; now left|eauto].
    + rewrite lookup_insert_ne by exact Hne.
      split; [now right|]. intros [->|H]; [congruence|exact H].
Qed.

Lemma addSpecificLifeCycleDepsToIndex_dom deps index origin depKeyName key :
  is_Some (addSpecificLifeCycleDepsToIndex index origin deps depKeyName !! key)
  <-> is_Some (index !! key) \/ exists range, In (key, range) deps.
Proof.
  unfold addSpecificLifeCycleDepsToIndex. revert index.
  induction deps as [|[d r] deps IH]; intros index; simpl.
  - split; [now left|]. intros [H|[? []]]. exact H.
  - rewrite IH, addComponentDepToDepIdIndex_dom. simpl. split.
    + intros [[->|H]|[range H]]; [right; exists r; now left|now left|].
      right. exists range. now right.
    + intros [H|[range [[= <- <-]|H]]]; [left; now right|left; now left|].
      right. now exists range.
Qed.

Lemma addComponentToIndex_dom hoistedDepFields index entry key :
  is_Some (addComponentToIndex hoistedDepFields index entry !! key)
  <-> is_Some (index !! key)
      \/ exists depKeyName deps range,
           In (depKeyName, deps) (indexedBuckets hoistedDepFields (snd entry))
           /\ In (key, range) deps.
Proof.
  unfold addComponentToIndex.
  generalize (indexedBuckets hoistedDepFields (snd entry)) as buckets.
  intros buckets. revert index.
  induction buckets as [|[k deps] buckets IH]; intros index; simpl.
  - split; [now left|]. intros [H|[? [? [? [[] _]]]]]. exact H.
  - rewrite IH, addSpecificLifeCycleDepsToIndex_dom. split.
    + intros [[H|[range H]]|[k' [deps' [range [H1 H2]]]]].
      * now left.
      * right. exists k, deps, range. split; [now left|exact H].
      * right. exists k', deps', range. split; [now right|exact H2].
    + intros [H|[k' [deps' [range [[[= <- <-]|H1] H2]]]]].
      * left. now left.
      * left. right. now exists range.
      * right. exists k', deps', range. now split.
Qed.

Lemma fold_addComponentToIndex_dom hoistedDepFields componentDependenciesMap index key :
  is_Some (fold_left (addComponentToIndex hoistedDepFields) componentDependenciesMap index !! key)
  <-> is_Some (index !! key) \/ declared componentDependenciesMap hoistedDepFields key.
Proof.
  unfold declared. revert index.
  induction componentDependenciesMap as [|[comp depsObject] cdm IH]; intros index; simpl.
  - split; [now left|]. intros [H|[? [? [? [? [? [[] _]]]]]]]. exact H.
  - rewrite IH, addComponentToIndex_dom. simpl. split.
    + intros [[H|[k [deps [range [H1 H2]]]]]|[c [d [k [deps [range [H0 [H1 H2]]]]]]]].
      * now left.
      * right. exists comp, depsObject, k, deps, range. split; [now left|now split].
      * right. exists c, d, k, deps, range. split; [now right|now split].
    + intros [H|[c [d [k [deps [range [[[= <- <-]|H0] [H1 H2]]]]]]]].
      * left. now left.
      * left. right. exists k, deps, range. now split.
      * right. exists c, d, k, deps, range. now split.
Qed.

(** The index built from the components holds exactly the declared names. *)
Lemma indexComponents_dom componentDependenciesMap hoistedDepFields key :
  is_Some (indexComponents componentDependenciesMap hoistedDepFields !! key)
  <-> declared componentDependenciesMap hoistedDepFields key.
Proof.
  unfold indexComponents. rewrite fold_addComponentToIndex_dom, lookup_empty.
  split; [intros [[? [=]]|H]; exact H|now right].
Qed.

(** One override: the item of [depId] gets the metadata when it exists;
    nothing else changes and no key appears. *)
Lemma setMetadataToExistingIndexItem_lookup index depId md key :
  setMetadataToExistingIndexItem index depId md !! key
  = if decide (key = depId) then setMetadata md <$> index !! key else index !! key.
Proof.
  unfold setMetadataToExistingIndexItem.
  destruct (decide (key = depId)) as [->|Hne].
  - destruct (index !! depId) as [item|] eqn:E; simpl.
    + now rewrite lookup_insert_eq.
    + now rewrite E.
  - destruct (index !! depId) as [item|] eqn:E; simpl; [|reflexivity].
    rewrite lookup_insert_ne; congruence.
Qed.

Lemma preservedFor_snoc (rootPolicy : WorkspacePolicy) entry depId :
  preservedFor (rootPolicy ++ [entry]) depId
  = preservedFor rootPolicy depId
    ++ (if isPreserved entry && bool_decide (dependencyId entry = depId) then [entry] else []).
Proof. unfold preservedFor. now rewrite List.filter_app. Qed.

(** All overrides: every item is stamped by the last preserve entry that
    names it, and the keys are those of the index given. *)
Lemma addPreservedFromRoot_lookup (rootPolicy : WorkspacePolicy) index key :
  addPreservedFromRoot index rootPolicy !! key
  = stampWith (last (preservedFor rootPolicy key)) <$> index !! key.
Proof.
  unfold addPreservedFromRoot.
  induction rootPolicy as [|entry rootPolicy IH] using rev_ind; simpl.
  - now destruct (index !! key).
  - rewrite List.filter_app, fold_left_app, preservedFor_snoc. simpl.
    destruct (isPreserved entry) eqn:Ep; simpl.
    + rewrite setMetadataToExistingIndexItem_lookup, IH.
      destruct (decide (key = dependencyId entry)) as [->|Hne].
      * rewrite bool_decide_eq_true_2 by reflexivity. rewrite last_snoc.
        destruct (index !! dependencyId entry) as [item|]; simpl; [|reflexivity].
        now destruct (last (preservedFor rootPolicy (dependencyId entry))).
      * rewrite bool_decide_eq_false_2 by congruence. now rewrite app_nil_r.
    + now rewrite app_nil_r.
Qed.

End IndexFacts.

(** C3. A root-policy entry marked preserve stamps [preservedVersion] and
    [preservedLifecycleType] on the index entry of its dependency name if and
    only if that name is already in the index, that is, if and only if some
    component declares it; the override adds no key, so a preserve entry for
    a name no component declares leaves the index without an entry for it.
    After all overrides the entry carries the metadata of the last preserve
    entry naming it. *)
Theorem preserve_only_annotates_existing_entries
    (rootPolicy : IndexByDepId.WorkspacePolicy)
    (componentDependenciesMap : IndexByDepId.ComponentDependenciesMap)
    (hoistedDepFields : option (list string))
    (entry : IndexByDepId.WorkspacePolicyEntry)
    (Hentry : In entry rootPolicy)
    (Hpreserve : IndexByDepId.isPreserved entry = true) :
  (forall index : IndexByDepId.PackageNameIndex,
      ((exists item,
          IndexByDepId.setMetadataToExistingIndexItem index
            (IndexByDepId.dependencyId entry) (IndexByDepId.preservedMetadata entry)
            !! IndexByDepId.dependencyId entry = Some item
          /\ IndexByDepId.metadata item = IndexByDepId.preservedMetadata entry)
       <-> is_Some (index !! IndexByDepId.dependencyId entry))
      /\ (forall key,
             is_Some (IndexByDepId.setMetadataToExistingIndexItem index
                        (IndexByDepId.dependencyId entry)
                        (IndexByDepId.preservedMetadata entry) !! key)
             <-> is_Some (index !! key)))
  /\ (exists stamp,
        last (IndexByDepId.preservedFor rootPolicy (IndexByDepId.dependencyId entry))
        = Some stamp
        /\ In stamp rootPolicy
        /\ IndexByDepId.isPreserved stamp = true
        /\ IndexByDepId.dependencyId stamp = IndexByDepId.dependencyId entry
        /\ IndexByDepId.indexByDepId rootPolicy componentDependenciesMap hoistedDepFields
             !! IndexByDepId.dependencyId entry
           = IndexByDepId.setMetadata (IndexByDepId.preservedMetadata stamp)
               <$> IndexByDepId.indexComponents componentDependenciesMap hoistedDepFields
                     !! IndexByDepId.dependencyId entry
        /\ ((exists item,
               IndexByDepId.indexByDepId rootPolicy componentDependenciesMap hoistedDepFields
                 !! IndexByDepId.dependencyId entry = Some item
               /\ IndexByDepId.metadata item = IndexByDepId.preservedMetadata stamp)
            <-> IndexByDepId.declared componentDependenciesMap hoistedDepFields
                  (IndexByDepId.dependencyId entry)))
  /\ (forall key,
        is_Some (IndexByDepId.indexByDepId rootPolicy componentDependenciesMap
                   hoistedDepFields !! key)
        <-> IndexByDepId.declared componentDependenciesMap hoistedDepFields key)
  /\ (~ IndexByDepId.declared componentDependenciesMap hoistedDepFields
          (IndexByDepId.dependencyId entry) ->
      IndexByDepId.indexByDepId rootPolicy componentDependenciesMap hoistedDepFields
        !! IndexByDepId.dependencyId entry = None).
Proof.
  assert (Hdom : forall key,
             is_Some (IndexByDepId.indexByDepId rootPolicy componentDependenciesMap
                        hoistedDepFields !! key)
             <-> IndexByDepId.declared componentDependenciesMap hoistedDepFields key).
  { intros key. unfold IndexByDepId.indexByDepId.
    rewrite addPreservedFromRoot_lookup, <- indexComponents_dom.
    apply fmap_is_Some. }
  split; [|split; [|split]].
  - intros index. split.
    + rewrite setMetadataToExistingIndexItem_lookup, decide_True by reflexivity.
      destruct (index !! IndexByDepId.dependencyId entry) as [item|]; simpl.
      * split; [eauto|]. intros _. eexists. split; reflexivity.
      * split; [intros [item [[=] _]]|intros [item [=]]].
    + intros key. rewrite setMetadataToExistingIndexItem_lookup.
      destruct (decide (key = IndexByDepId.dependencyId entry)); [|reflexivity].
      apply fmap_is_Some.
  - assert (Hmem : In entry (IndexByDepId.preservedFor rootPolicy
                               (IndexByDepId.dependencyId entry))).
    { unfold IndexByDepId.preservedFor. apply filter_In. split; [exact Hentry|].
      rewrite Hpreserve. simpl. now apply bool_decide_eq_true. }
    destruct (last (IndexByDepId.preservedFor rootPolicy (IndexByDepId.dependencyId entry)))
      as [stamp|] eqn:Hlast.
    2:{ apply last_None in Hlast. rewrite Hlast in Hmem. destruct Hmem. }
    exists stamp.
    assert (Hstamp : In stamp (IndexByDepId.preservedFor rootPolicy
                                 (IndexByDepId.dependencyId entry))).
    { apply list_elem_of_In. now apply last_Some_elem_of. }
    unfold IndexByDepId.preservedFor in Hstamp. apply filter_In in Hstamp as [Hs1 Hs2].
    apply andb_true_iff in Hs2 as [Hs2 Hs3]. apply bool_decide_eq_true in Hs3.
    split; [reflexivity|]. split; [exact Hs1|]. split; [exact Hs2|]. split; [exact Hs3|].
    assert (Heq : IndexByDepId.indexByDepId rootPolicy componentDependenciesMap hoistedDepFields
                    !! IndexByDepId.dependencyId entry
                  = IndexByDepId.setMetadata (IndexByDepId.preservedMetadata stamp)
                      <$> IndexByDepId.indexComponents componentDependenciesMap hoistedDepFields
                            !! IndexByDepId.dependencyId entry).
    { unfold IndexByDepId.indexByDepId. rewrite addPreservedFromRoot_lookup, Hlast.
      reflexivity. }
    split; [exact Heq|].
    rewrite <- indexComponents_dom, Heq.
    destruct (IndexByDepId.indexComponents componentDependenciesMap hoistedDepFields
                !! IndexByDepId.dependencyId entry) as [item|]; simpl.
    + split; [eauto|]. intros _. eexists. split; reflexivity.
    + split; [intros [item [[=] _]]|intros [item [=]]].
  - exact Hdom.
  - intros Hnot. apply eq_None_not_Some. now rewrite Hdom.
Qed.

Lemma preserve_left_pad_witness :
  (exists item,
      IndexByDepId.indexByDepId Examples.preserveLeftPad Examples.depsOfX None
        !! "left-pad" = Some item
      /\ IndexByDepId.preservedVersion (IndexByDepId.metadata item) = Some "1.3.0"
      /\ IndexByDepId.componentItems item
         = [ {| IndexByDepId.range := "^1.0.0"; IndexByDepId.origin := "@acme/x";
                IndexByDepId.lifecycleType := Some IndexByDepId.RUNTIME |} ])
  /\ IndexByDepId.indexByDepId Examples.preserveLeftPad Examples.depsWithoutLeftPad None
       !! "left-pad" = None.
Proof.
  split.
  - eexists. split; [vm_compute; reflexivity|]. split; reflexivity.
  - refine (proj2 (proj2 (proj2
              (preserve_only_annotates_existing_entries
                 Examples.preserveLeftPad Examples.depsWithoutLeftPad None
                 _ (or_introl eq_refl) eq_refl))) _).
    intros [comp [depsObject [k [deps [range [H0 [H1 H2]]]]]]].
    destruct H0 as [[= <- <-]|[]]. simpl in H1.
    destruct H1 as [[= <- <-]|[]]. destruct H2 as [[=]|[]].
Defined.

(** ** The removal engine *)

Section RemoveFacts.

Import Remove.

Implicit Types (consumer : Consumer) (bitIds : ComponentIdList) (id Z : ComponentID).

(** The loop either leaves with the error of the first identity it aborts
    on, or splits the identities by [statusModified], in order. *)
Lemma partitionByModification_ok consumer bitIds :
  forall modifiedComponents nonModifiedComponents,
    (forall id, In id bitIds -> abortsOn consumer id = None) ->
    partitionByModification consumer bitIds modifiedComponents nonModifiedComponents
    = Ok (modifiedComponents ++ List.filter (statusModified consumer) bitIds,
          nonModifiedComponents
            ++ List.filter (fun id => negb (statusModified consumer id)) bitIds).
Proof.
  induction bitIds as [|id bitIds IH]; intros m n Hok; simpl.
  - now rewrite !app_nil_r.
  - pose proof (Hok id (or_introl eq_refl)) as Hid.
    assert (Hrest : forall id', In id' bitIds -> abortsOn consumer id' = None)
      by (intros id' Hin; apply Hok; now right).
    unfold abortsOn in Hid.
    destruct (getComponentStatusById consumer id) as [st|err] eqn:Es.
    + assert (Hm : statusModified consumer id = Js.truthyb (modified st))
        by (unfold statusModified; now rewrite Es).
      rewrite Hm. destruct (Js.truthyb (modified st)); simpl;
        rewrite (IH _ _ Hrest), <- app_assoc; reflexivity.
    + assert (Hm : statusModified consumer id = false)
        by (unfold statusModified; now rewrite Es).
      rewrite Hm.
      destruct (isComponentInvalidByErrorType consumer err); [|discriminate].
      simpl. rewrite (IH _ _ Hrest), <- app_assoc. reflexivity.
Qed.

Lemma partitionByModification_abort consumer pre Z post err :
  forall modifiedComponents nonModifiedComponents,
    (forall id, In id pre -> abortsOn consumer id = None) ->
    abortsOn consumer Z = Some err ->
    partitionByModification consumer (pre ++ Z :: post)
      modifiedComponents nonModifiedComponents = Throw err.
Proof.
  induction pre as [|id pre IH]; intros m n Hpre HZ; simpl.
  - unfold abortsOn in HZ. destruct (getComponentStatusById consumer Z) as [st|e];
      [discriminate|].
    destruct (isComponentInvalidByErrorType consumer e); [discriminate|].
    now injection HZ as ->.
  - pose proof (Hpre id (or_introl eq_refl)) as Hid.
    assert (Hrest : forall id', In id' pre -> abortsOn consumer id' = None)
      by (intros id' Hin; apply Hpre; now right).
    unfold abortsOn in Hid.
    destruct (getComponentStatusById consumer id) as [st|e].
    + destruct (Js.truthyb (modified st)); now apply IH.
    + destruct (isComponentInvalidByErrorType consumer e); [|discriminate]. now apply IH.
Qed.

(** A list splits at its first element with a given property. *)
Lemma first_abort consumer bitIds Z :
  In Z bitIds -> abortsOn consumer Z <> None ->
  exists pre Y post err,
    bitIds = pre ++ Y :: post
    /\ (forall id, In id pre -> abortsOn consumer id = None)
    /\ abortsOn consumer Y = Some err.
Proof.
  induction bitIds as [|id bitIds IH]; intros Hin HZ; [destruct Hin|].
  destruct (abortsOn consumer id) as [err|] eqn:E.
  - exists [], id, bitIds, err. split; [reflexivity|]. split; [intros ? []|exact E].
  - destruct Hin as [->|Hin]; [congruence|].
    destruct (IH Hin HZ) as [pre [Y [post [err [-> [Hpre HY]]]]]].
    exists (id :: pre), Y, post, err. split; [reflexivity|]. split; [|exact HY].
    intros id' [<-|Hin']; [exact E|now apply Hpre].
Qed.

Lemma partitionByModification_inv consumer bitIds modifiedComponents nonModifiedComponents :
  partitionByModification consumer bitIds [] [] = Ok (modifiedComponents, nonModifiedComponents) ->
  (forall id, In id bitIds -> abortsOn consumer id = None)
  /\ modifiedComponents = List.filter (statusModified consumer) bitIds
  /\ nonModifiedComponents = List.filter (fun id => negb (statusModified consumer id)) bitIds.
Proof.
  intros H.
  assert (Hok : forall id, In id bitIds -> abortsOn consumer id = None).
  { intros id Hin. destruct (abortsOn consumer id) as [e|] eqn:E; [|reflexivity].
    destruct (first_abort consumer bitIds id Hin) as [pre [Y [post [err [Heq [Hpre HY]]]]]];
      [congruence|].
    rewrite Heq, (partitionByModification_abort _ _ _ _ _ _ _ Hpre HY) in H.
    discriminate. }
  split; [exact Hok|].
  rewrite (partitionByModification_ok _ _ _ _ Hok) in H. simpl in H.
  now injection H as <- <-.
Qed.

(** What a successful second half of [removeLocal] reports. *)
Lemma removeCandidates_inv consumer idsToRemove modifiedComponents force track deleteFiles res :
  removeCandidates consumer idsToRemove modifiedComponents force track deleteFiles = Ok res ->
  exists newComponents removed,
    listNewComponents consumer false = Ok newComponents
    /\ removeMany consumer (idsToRemoveFromScope newComponents idsToRemove) force = Ok removed
    /\ modifiedSkipped res = modifiedComponents
    /\ missingIdentities res = missingComponents removed
    /\ forall id,
         In id (removedIdentities res)
         <-> (In id idsToRemove /\ BitIds.hasWithoutVersion newComponents id = true)
             \/ In id (removedComponentIds removed).
Proof.
  unfold removeCandidates, idsToRemoveFromScope, res_bind.
  destruct (listNewComponents consumer false) as [newComponents|] eqn:Hnew; [|discriminate].
  destruct (loadComponents consumer idsToRemove false) as [loaded|]; [|discriminate].
  destruct (removeMany consumer _ force) as [removed|] eqn:Hremoved; [|discriminate].
  match goal with
  | |- match ?side with Ok _ => _ | Throw e => _ end = _ -> _ =>
      destruct side; [|discriminate]
  end.
  intros [= <-]. exists newComponents, removed. simpl.
  split; [reflexivity|]. split; [exact Hremoved|]. split; [reflexivity|].
  split; [reflexivity|].
  intros id. rewrite uniqFromArray_In, !in_app_iff, fromArray_same, filter_In. tauto.
Qed.

Lemma removeLocal_forced consumer bitIds track deleteFiles :
  removeLocal consumer bitIds true track deleteFiles
  = if R_isEmpty bitIds then Ok emptyRemovedLocalObjects
    else removeCandidates consumer bitIds [] true track deleteFiles.
Proof. unfold removeLocal. now destruct bitIds. Qed.

End RemoveFacts.

(** C2, as stated, fails in its second half: with [force] an identity that
    the scope does not hold (and that is not a new component) is reported
    in the missing list, not in the removed one. *)
Lemma forced_removal_of_missing_component_not_removed :
  In Examples.idZ [Examples.idZ; Examples.idY]
  /\ Remove.statusModified Examples.zModifiedMissing Examples.idZ = true
  /\ exists res,
       Remove.removeLocal Examples.zModifiedMissing [Examples.idZ; Examples.idY]
         true false false = Ok res
       /\ ~ In Examples.idZ (Remove.removedIdentities res)
       /\ In Examples.idZ (Remove.missingIdentities res).
Proof.
  split; [now left|]. split; [reflexivity|].
  exists {| Remove.removedIdentities := [];
            Remove.missingIdentities := [Examples.idZ; Examples.idY];
            Remove.modifiedSkipped := [];
            Remove.blockingDependents := [];
            Remove.removedFromLaneIds := [] |}.
  split; [vm_compute; reflexivity|]. split; [intros []|now left].
Qed.

(** C2, amended. For an identity Z of the input set of a local removal:
    without [force], when the status of Z is modified, Z is in
    [modifiedSkipped], and it is not in [removedIdentities] as long as the
    scope reports as removed only identities it was asked to remove; with
    [force] nothing is skipped as modified and the result does not depend on
    any status, and Z is in [removedIdentities] exactly when it is a new
    component of the workspace or the scope reports it removed (an identity
    the scope does not hold is reported missing instead). *)
Theorem removeLocal_skips_modified_unless_forced
    (consumer : Consumer) (bitIds : ComponentIdList) (Z : ComponentID)
    (track deleteFiles : bool) (res : Remove.RemovedLocalObjects)
    (HZ : In Z bitIds) :
  (Remove.removeLocal consumer bitIds false track deleteFiles = Ok res ->
   Remove.statusModified consumer Z = true ->
   In Z (Remove.modifiedSkipped res)
   /\ (Remove.removesOnlyRequested consumer -> ~ In Z (Remove.removedIdentities res)))
  /\ (Remove.removeLocal consumer bitIds true track deleteFiles = Ok res ->
      Remove.modifiedSkipped res = []
      /\ exists newComponents removed,
           listNewComponents consumer false = Ok newComponents
           /\ removeMany consumer (Remove.idsToRemoveFromScope newComponents bitIds) true
              = Ok removed
           /\ Remove.missingIdentities res = missingComponents removed
           /\ (In Z (Remove.removedIdentities res)
               <-> BitIds.hasWithoutVersion newComponents Z = true
                   \/ In Z (removedComponentIds removed)))
  /\ (forall status,
        Remove.removeLocal (Remove.withStatus consumer status) bitIds true track deleteFiles
        = Remove.removeLocal consumer bitIds true track deleteFiles).
Proof.
  split; [|split].
  - intros Hres Hmod. unfold Remove.removeLocal in Hres.
    destruct bitIds as [|b bitIds]; [destruct HZ|]. simpl Remove.R_isEmpty in Hres.
    cbv iota in Hres. simpl negb in Hres. cbv iota in Hres.
    destruct (Remove.partitionByModification consumer (b :: bitIds) [] [])
      as [[m n]|e] eqn:Hpart; [|discriminate].
    simpl in Hres.
    apply partitionByModification_inv in Hpart as [_ [Hm Hn]].
    apply removeCandidates_inv in Hres
      as [newComponents [removed [_ [Hremoved [Hskipped [_ Hmem]]]]]].
    assert (HnotN : ~ In Z n).
    { rewrite Hn, filter_In. intros [_ H]. rewrite Hmod in H. discriminate. }
    split.
    + rewrite Hskipped, Hm. apply filter_In. now split.
    + intros Hcontract Hin. apply Hmem in Hin as [[Hin _]|Hin]; [now apply HnotN|].
      apply (Hcontract _ _ _ Hremoved) in Hin.
      unfold Remove.idsToRemoveFromScope in Hin. rewrite fromArray_same in Hin.
      apply filter_In in Hin as [Hin _]. now apply HnotN.
  - rewrite removeLocal_forced.
    destruct bitIds as [|b bitIds]; [destruct HZ|]. simpl Remove.R_isEmpty. cbv iota.
    intros Hres.
    apply removeCandidates_inv in Hres
      as [newComponents [removed [Hnew [Hremoved [Hskipped [Hmissing Hmem]]]]]].
    split; [exact Hskipped|].
    exists newComponents, removed.
    split; [exact Hnew|]. split; [exact Hremoved|]. split; [exact Hmissing|].
    rewrite Hmem. tauto.
  - intros status. rewrite !removeLocal_forced. reflexivity.
Qed.

Lemma removeLocal_skips_modified_witness :
  In Examples.idZ [Examples.idZ; Examples.idY]
  /\ Remove.statusModified Examples.zModified Examples.idZ = true
  /\ Remove.removeLocal Examples.zModified [Examples.idZ; Examples.idY] false false false
     = Ok {| Remove.removedIdentities := [Examples.idY];
             Remove.missingIdentities := [];
             Remove.modifiedSkipped := [Examples.idZ];
             Remove.blockingDependents := [];
             Remove.removedFromLaneIds := [] |}
  /\ In Examples.idZ [Examples.idZ]
  /\ ~ In Examples.idZ [Examples.idY].
Proof.
  assert (HZ : In Examples.idZ [Examples.idZ; Examples.idY]) by (now left).
  assert (Hrun : Remove.removeLocal Examples.zModified [Examples.idZ; Examples.idY]
                   false false false
                 = Ok {| Remove.removedIdentities := [Examples.idY];
                         Remove.missingIdentities := [];
                         Remove.modifiedSkipped := [Examples.idZ];
                         Remove.blockingDependents := [];
                         Remove.removedFromLaneIds := [] |})
    by (vm_compute; reflexivity).
  assert (Hcontract : Remove.removesOnlyRequested Examples.zModified).
  { intros ids force removed [= <-] id Hin. exact Hin. }
  split; [exact HZ|]. split; [reflexivity|]. split; [exact Hrun|].
  destruct (proj1 (removeLocal_skips_modified_unless_forced
                     Examples.zModified _ Examples.idZ false false _ HZ)
                  Hrun eq_refl) as [Hskipped Hnot].
  split; [exact Hskipped|exact (Hnot Hcontract)].
Defined.

(** C6, as stated, fails: with [remote=false] an identity without scope is
    not rejected; it goes through the local removal. *)
Lemma removeComponents_local_unscoped_not_rejected :
  BitId.isLocal Examples.idUnscoped = true
  /\ Remove.removeComponents Examples.offline (Some Examples.zModified)
       [Examples.idUnscoped] false false false false
     = Ok {| Remove.localResult :=
               {| Remove.removedIdentities :=
                    [BitId.changeVersion Examples.idUnscoped (Some BitId.LATEST)];
                  Remove.missingIdentities := [];
                  Remove.modifiedSkipped := [];
                  Remove.blockingDependents := [];
                  Remove.removedFromLaneIds := [] |};
             Remove.remoteResult := [] |}.
Proof. split; [reflexivity|vm_compute; reflexivity]. Qed.

(** C6, amended. In [removeComponents], when [remote=true] and some input
    identity lacks a scope, the call is rejected with the error naming the
    unscoped identities, before any removal; when [remote=false] the
    identities, scoped or not, all go to the local removal, whose outcome is
    the outcome of the call. *)
Theorem removeComponents_rejects_unscoped_when_remote
    (net : Remove.Network) (consumer : option Consumer) (ids : ComponentIdList)
    (force track deleteFiles : bool)
    (Hunscoped : exists id, In id ids /\ BitId.isLocal id = true) :
  Remove.removeComponents net consumer ids force true track deleteFiles
  = Throw (GeneralError
             (Remove.unscopedRemoteRemovalMessage
                (List.filter BitId.isLocal
                   (map (fun id => BitId.changeVersion id (Some BitId.LATEST)) ids))))
  /\ (forall c : Consumer,
        Remove.removeComponents net (Some c) ids force false track deleteFiles
        = match Remove.removeLocal c
                  (map (fun id => BitId.changeVersion id (Some BitId.LATEST)) ids)
                  force track deleteFiles with
          | Ok localResult =>
              Ok {| Remove.localResult := localResult; Remove.remoteResult := [] |}
          | Throw e => Throw e
          end).
Proof.
  unfold Remove.removeComponents, Js.partition. rewrite fromArray_same. split.
  - destruct Hunscoped as [id [Hin Hlocal]].
    assert (Hmem : In (BitId.changeVersion id (Some BitId.LATEST))
                     (List.filter BitId.isLocal
                        (map (fun id => BitId.changeVersion id (Some BitId.LATEST)) ids))).
    { apply filter_In. split; [|exact Hlocal].
      apply in_map_iff. now exists id. }
    destruct (List.filter BitId.isLocal _) as [|l ls]; [destruct Hmem|]. reflexivity.
  - intros c. simpl. unfold res_bind.
    destruct (Remove.removeLocal c _ force track deleteFiles); reflexivity.
Qed.

Lemma removeComponents_rejects_unscoped_witness :
  Remove.removeComponents Examples.offline (Some Examples.zModified)
    [Examples.idA; Examples.idUnscoped] false true false false
  = Throw (GeneralError
             "unable to remove the remote components: utils/is-string as they don't contain a scope-name").
Proof.
  refine (proj1 (removeComponents_rejects_unscoped_when_remote
                   Examples.offline (Some Examples.zModified)
                   [Examples.idA; Examples.idUnscoped] false false false _)).
  exists Examples.idUnscoped. split; [right; now left|reflexivity].
Defined.

(** C10. In a local removal without [force], an identity whose status
    computation throws an error that marks the component invalid is pushed
    to the non-modified list: it is a removal candidate, it is not reported
    as modified, and its error does not leave the loop. An identity whose
    status computation throws any other error aborts the whole call with
    the error of the first such identity. *)
Theorem removeLocal_invalid_component_stays_candidate
    (consumer : Consumer) (bitIds : ComponentIdList) (Z : ComponentID) (err : Error)
    (track deleteFiles : bool)
    (HZ : In Z bitIds)
    (Hthrow : getComponentStatusById consumer Z = Throw err) :
  (isComponentInvalidByErrorType consumer err = true ->
     (forall modifiedComponents nonModifiedComponents,
         Remove.partitionByModification consumer bitIds [] []
         = Ok (modifiedComponents, nonModifiedComponents) ->
         In Z nonModifiedComponents /\ ~ In Z modifiedComponents
         /\ Remove.removeLocal consumer bitIds false track deleteFiles
            = Remove.removeCandidates consumer nonModifiedComponents modifiedComponents
                false track deleteFiles)
     /\ ((forall id, In id bitIds -> Remove.abortsOn consumer id = None) ->
         exists modifiedComponents nonModifiedComponents,
           Remove.partitionByModification consumer bitIds [] []
           = Ok (modifiedComponents, nonModifiedComponents))
     /\ (forall res,
           Remove.removeLocal consumer bitIds false track deleteFiles = Ok res ->
           ~ In Z (Remove.modifiedSkipped res)
           /\ exists newComponents removed,
                listNewComponents consumer false = Ok newComponents
                /\ (BitIds.hasWithoutVersion newComponents Z = true ->
                    In Z (Remove.removedIdentities res))
                /\ removeMany consumer
                     (Remove.idsToRemoveFromScope newComponents
                        (List.filter (fun id => negb (Remove.statusModified consumer id))
                           bitIds)) false
                   = Ok removed
                /\ (BitIds.hasWithoutVersion newComponents Z = false ->
                    In Z (Remove.idsToRemoveFromScope newComponents
                            (List.filter (fun id => negb (Remove.statusModified consumer id))
                               bitIds)))))
  /\ (isComponentInvalidByErrorType consumer err = false ->
      (exists err',
          Remove.removeLocal consumer bitIds false track deleteFiles = Throw err'
          /\ isComponentInvalidByErrorType consumer err' = false)
      /\ (forall pre post,
            bitIds = pre ++ Z :: post ->
            (forall id, In id pre -> Remove.abortsOn consumer id = None) ->
            Remove.removeLocal consumer bitIds false track deleteFiles = Throw err)).
Proof.
  assert (Hnonempty : Remove.R_isEmpty bitIds = false)
    by (destruct bitIds; [destruct HZ|reflexivity]).
  assert (HnotMod : Remove.statusModified consumer Z = false)
    by (unfold Remove.statusModified; now rewrite Hthrow).
  assert (Hlocal : forall m n,
             Remove.partitionByModification consumer bitIds [] [] = Ok (m, n) ->
             Remove.removeLocal consumer bitIds false track deleteFiles
             = Remove.removeCandidates consumer n m false track deleteFiles).
  { intros m n Hpart. unfold Remove.removeLocal. rewrite Hnonempty. simpl.
    now rewrite Hpart. }
  split.
  - intros Hinvalid.
    assert (Hsplit : forall m n,
               Remove.partitionByModification consumer bitIds [] [] = Ok (m, n) ->
               In Z n /\ ~ In Z m).
    { intros m n Hpart. apply partitionByModification_inv in Hpart as [_ [-> ->]].
      rewrite !filter_In, HnotMod. split; [now split|]. intros [_ [=]]. }
    split; [|split].
    + intros m n Hpart. destruct (Hsplit _ _ Hpart) as [Hn Hm].
      split; [exact Hn|]. split; [exact Hm|]. now apply Hlocal.
    + intros Hok. eexists. eexists. now apply partitionByModification_ok.
    + intros res Hres.
      destruct (Remove.partitionByModification consumer bitIds [] []) as [[m n]|e] eqn:Hpart.
      2:{ unfold Remove.removeLocal in Hres. rewrite Hnonempty in Hres. simpl in Hres.
          rewrite Hpart in Hres. discriminate. }
      rewrite (Hlocal _ _ eq_refl) in Hres. destruct (Hsplit _ _ eq_refl) as [Hn Hm].
      destruct (partitionByModification_inv _ _ _ _ Hpart) as [_ [_ Hnon]].
      apply removeCandidates_inv in Hres
        as [newComponents [removed [Hnew [Hremoved [Hskipped [_ Hmem]]]]]].
      rewrite Hnon in Hremoved, Hn.
      split; [now rewrite Hskipped|].
      exists newComponents, removed. split; [exact Hnew|]. split; [|split].
      * intros Hisnew. apply Hmem. left. rewrite Hnon. now split.
      * exact Hremoved.
      * intros Hnotnew.
        unfold Remove.idsToRemoveFromScope. rewrite fromArray_same. apply filter_In.
        split; [exact Hn|]. now rewrite Hnotnew.
  - intros Hother.
    assert (Habort : Remove.abortsOn consumer Z = Some err)
      by (unfold Remove.abortsOn; now rewrite Hthrow, Hother).
    assert (Hrun : forall pre Y post e,
               bitIds = pre ++ Y :: post ->
               (forall id, In id pre -> Remove.abortsOn consumer id = None) ->
               Remove.abortsOn consumer Y = Some e ->
               Remove.removeLocal consumer bitIds false track deleteFiles = Throw e).
    { intros pre Y post e Heq Hpre HY. unfold Remove.removeLocal.
      rewrite Hnonempty. simpl. rewrite Heq.
      now rewrite (partitionByModification_abort _ _ _ _ _ _ _ Hpre HY). }
    split.
    + destruct (first_abort consumer bitIds Z HZ) as [pre [Y [post [e [Heq [Hpre HY]]]]]];
        [congruence|].
      exists e. split; [now apply (Hrun pre Y post)|].
      unfold Remove.abortsOn in HY.
      destruct (getComponentStatusById consumer Y) as [st|e0]; [discriminate|].
      destruct (isComponentInvalidByErrorType consumer e0) eqn:Ee; [discriminate|].
      now injection HY as <-.
    + intros pre post Heq Hpre. now apply (Hrun pre Z post).
Qed.

Lemma removeLocal_invalid_component_witness :
  getComponentStatusById Examples.zInvalid Examples.idZ = Throw MissingFilesFromComponent
  /\ Remove.partitionByModification Examples.zInvalid [Examples.idB; Examples.idZ] [] []
     = Ok ([], [Examples.idB; Examples.idZ])
  /\ In Examples.idZ [Examples.idB; Examples.idZ]
  /\ getComponentStatusById Examples.zInvalid Examples.idY = Throw (OtherError "EACCES")
  /\ Remove.removeLocal Examples.zInvalid [Examples.idZ; Examples.idY; Examples.idB]
       false false false
     = Throw (OtherError "EACCES").
Proof.
  split; [reflexivity|]. split; [vm_compute; reflexivity|]. split.
  - refine (proj1 (proj1 (proj1 (removeLocal_invalid_component_stays_candidate
                      Examples.zInvalid [Examples.idB; Examples.idZ] Examples.idZ
                      MissingFilesFromComponent false false _ eq_refl) eq_refl)
                    [] [Examples.idB; Examples.idZ] _)).
    + right; now left.
    + vm_compute; reflexivity.
  - split; [reflexivity|].
    refine (proj2 (proj2 (removeLocal_invalid_component_stays_candidate
                     Examples.zInvalid [Examples.idZ; Examples.idY; Examples.idB] Examples.idY
                     (OtherError "EACCES") false false _ eq_refl) eq_refl)
                  [Examples.idZ] [Examples.idB] eq_refl _).
    + right; now left.
    + intros id [<-|[]]. reflexivity.
Defined.


(* ===================================================================== *)
(** * Further properties of the embedded code *)
(* ===================================================================== *)

(** ** The identity collection: searches, filters and removals *)

Section SearchFacts.

Implicit Types (this bitIds : BitIds.t) (x bitId : BitId).

Lemma find_head_filter {A : Type} (p : A -> bool) (l : list A) :
  List.find p l = head (List.filter p l).
Proof.
  induction l as [|a l IH]; simpl; [reflexivity|]. now destruct (p a).
Qed.

Lemma find_weaken {A : Type} (p q : A -> bool) (l : list A) :
  (forall a, p a = true -> q a = true) ->
  Js.truthy (List.find p l) = true -> Js.truthy (List.find q l) = true.
Proof.
  intros Hpq. induction l as [|a l IH]; simpl; [discriminate|].
  destruct (p a) eqn:Ep.
  - now rewrite (Hpq a Ep).
  - intros H. destruct (q a); [reflexivity|now apply IH].
Qed.

Lemma hasSameName_sym x y : BitId.hasSameName x y = BitId.hasSameName y x.
Proof.
  unfold BitId.hasSameName. apply bool_decide_ext. split; congruence.
Qed.

Lemma hasSameScope_sym x y : BitId.hasSameScope x y = BitId.hasSameScope y x.
Proof.
  unfold BitId.hasSameScope. apply bool_decide_ext. split; congruence.
Qed.

Lemma hasSameVersion_sym x y : BitId.hasSameVersion x y = BitId.hasSameVersion y x.
Proof.
  unfold BitId.hasSameVersion. apply bool_decide_ext. split; congruence.
Qed.

Lemma isEqual_sym x y : BitId.isEqual x y = BitId.isEqual y x.
Proof.
  unfold BitId.isEqual.
  now rewrite (hasSameName_sym x y), (hasSameScope_sym x y), (hasSameVersion_sym x y).
Qed.

Lemma isEqualWithoutVersion_key x y :
  BitId.isEqualWithoutVersion x y = true
  <-> BitIds.keyWithoutVersion x = BitIds.keyWithoutVersion y.
Proof.
  unfold BitId.isEqualWithoutVersion, BitId.hasSameName, BitId.hasSameScope,
    BitIds.keyWithoutVersion.
  rewrite andb_true_iff, !bool_decide_eq_true. split.
  - intros [-> ->]. reflexivity.
  - intros [= -> ->]. auto.
Qed.

Lemma hasWithoutVersion_true this bitId :
  BitIds.hasWithoutVersion this bitId = true
  <-> exists id, In id this
                 /\ BitIds.keyWithoutVersion id = BitIds.keyWithoutVersion bitId.
Proof.
  unfold BitIds.hasWithoutVersion, BitIds.searchWithoutVersion.
  destruct (List.find _ this) as [f|] eqn:E; simpl.
  - split; [intros _|reflexivity]. apply find_some in E as [Hin Heq].
    exists f. split; [exact Hin|]. now apply isEqualWithoutVersion_key.
  - split; [discriminate|]. intros [id [Hin Hk]].
    pose proof (find_none _ _ E id Hin) as Hne. simpl in Hne.
    apply isEqualWithoutVersion_key in Hk. unfold BitId.isEqualWithoutVersion in Hk.
    congruence.
Qed.

End SearchFacts.

(** X1. A match at a finer equality is a match at every looser one: an
    identity the collection [has] is also found without version and without
    scope, and each of those is found without scope and version. *)
Theorem has_implies_looser_matches (this : BitIds.t) (bitId : BitId) :
  (BitIds.has this bitId = true -> BitIds.hasWithoutVersion this bitId = true)
  /\ (BitIds.has this bitId = true -> BitIds.hasWithoutScope this bitId = true)
  /\ (BitIds.hasWithoutVersion this bitId = true ->
      BitIds.hasWithoutScopeAndVersion this bitId = true)
  /\ (BitIds.hasWithoutScope this bitId = true ->
      BitIds.hasWithoutScopeAndVersion this bitId = true)
  /\ (BitIds.hasWithoutScopeAndVersion this bitId = true ->
      BitIds.hasWithoutScopeAndVersionAsString this (BitId.name bitId) = true).
Proof.
  unfold BitIds.has, BitIds.hasWithoutVersion, BitIds.hasWithoutScope,
    BitIds.hasWithoutScopeAndVersion, BitIds.hasWithoutScopeAndVersionAsString,
    BitIds.search, BitIds.searchWithoutVersion, BitIds.searchWithoutScope,
    BitIds.searchWithoutScopeAndVersion.
  repeat split; apply find_weaken; intros a;
    rewrite ?andb_true_iff; unfold BitId.hasSameName; tauto.
Qed.

Lemma has_implies_looser_witness :
  BitIds.has [Examples.idB; Examples.idA] Examples.idA = true
  /\ BitIds.hasWithoutVersion [Examples.idB; Examples.idA] Examples.idA = true.
Proof.
  split; [reflexivity|].
  apply (proj1 (has_implies_looser_matches [Examples.idB; Examples.idA] Examples.idA)).
  reflexivity.
Defined.

(** X2. Each search returns the first element of the filter of the same
    equality, so an identity is found exactly when that filter is not
    empty. *)
Theorem search_is_first_of_filter (this : BitIds.t) (bitId : BitId) :
  BitIds.search this bitId = head (BitIds.filterExact this bitId)
  /\ BitIds.searchWithoutVersion this bitId = head (BitIds.filterWithoutVersion this bitId)
  /\ BitIds.searchWithoutScopeAndVersion this bitId
     = head (BitIds.filterWithoutScopeAndVersion this bitId)
  /\ (BitIds.has this bitId = false <-> BitIds.filterExact this bitId = [])
  /\ (BitIds.hasWithoutVersion this bitId = false
      <-> BitIds.filterWithoutVersion this bitId = []).
Proof.
  assert (Hhead : forall (p : BitId -> bool),
             Js.truthy (List.find p this) = false <-> List.filter p this = []).
  { intros p. rewrite find_head_filter. destruct (List.filter p this); simpl.
    - split; reflexivity.
    - split; discriminate. }
  split; [apply find_head_filter|]. split; [apply find_head_filter|].
  split; [apply find_head_filter|]. split; apply Hhead.
Qed.

(** X3. [difference] keeps exactly the members of the receiver that the
    argument does not hold, in their order; taking away nothing changes
    nothing, and taking the same collection away twice is taking it away
    once. *)
Theorem difference_characterised (this bitIds : BitIds.t) :
  (forall x, In x (BitIds.difference this bitIds)
             <-> In x this /\ BitIds.has bitIds x = false)
  /\ BitIds.difference this bitIds
     = List.filter (fun id => negb (BitIds.has bitIds id)) this
  /\ BitIds.difference this [] = this
  /\ BitIds.difference [] bitIds = []
  /\ BitIds.difference (BitIds.difference this bitIds) bitIds
     = BitIds.difference this bitIds.
Proof.
  assert (Heq : forall S T, BitIds.difference S T
                            = List.filter (fun id => negb (BitIds.has T id)) S).
  { intros S T. unfold BitIds.difference. now rewrite fromArray_same. }
  split; [|split; [|split; [|split]]].
  - intros x. rewrite Heq, filter_In, negb_true_iff. reflexivity.
  - apply Heq.
  - rewrite Heq. induction this as [|a l IH]; simpl; [reflexivity|]. f_equal. exact IH.
  - now rewrite Heq.
  - rewrite !Heq. induction this as [|a l IH]; simpl; [reflexivity|].
    destruct (BitIds.has bitIds a) eqn:E; simpl; [exact IH|]. rewrite E. simpl.
    now rewrite IH.
Qed.

(** X4. [removeIfExist] drops every member fully equal to the identity and
    nothing else: afterwards the collection does not have it, an identity
    the collection does not have leaves it unchanged, and the result is the
    difference with the one-element collection. *)
Theorem removeIfExist_removes_exactly (this : BitIds.t) (bitId : BitId) :
  BitIds.has (BitIds.removeIfExist this bitId) bitId = false
  /\ (forall x, In x (BitIds.removeIfExist this bitId)
                <-> In x this /\ BitId.isEqual x bitId = false)
  /\ (BitIds.has this bitId = false -> BitIds.removeIfExist this bitId = this)
  /\ BitIds.removeIfExist this bitId = BitIds.difference this [bitId].
Proof.
  assert (Hmem : forall x, In x (BitIds.removeIfExist this bitId)
                           <-> In x this /\ BitId.isEqual x bitId = false).
  { intros x. unfold BitIds.removeIfExist. rewrite fromArray_same, filter_In, negb_true_iff.
    reflexivity. }
  split; [|split; [exact Hmem|split]].
  - destruct (BitIds.has (BitIds.removeIfExist this bitId) bitId) eqn:E; [|reflexivity].
    apply has_true, Hmem in E as [_ E]. apply isEqual_false in E. congruence.
  - intros Hnot. clear Hmem. unfold BitIds.removeIfExist. rewrite fromArray_same.
    assert (Hall : forall a, In a this -> BitId.isEqual a bitId = false).
    { intros a Hin. apply isEqual_false. intros ->. apply has_true in Hin. congruence. }
    clear Hnot. induction this as [|a l IH]; simpl; [reflexivity|].
    rewrite (Hall a (or_introl eq_refl)). simpl. f_equal. apply IH.
    intros b Hb. apply Hall. now right.
  - unfold BitIds.removeIfExist, BitIds.difference, BitIds.search.
    apply f_equal, filter_ext. intros a. simpl.
    fold (BitId.isEqual bitId a). rewrite (isEqual_sym bitId a).
    now destruct (BitId.isEqual a bitId).
Qed.

Lemma removeIfExist_absent_witness :
  BitIds.has [Examples.idA; Examples.idB] Examples.idA2 = false
  /\ BitIds.removeIfExist [Examples.idA; Examples.idB] Examples.idA2
     = [Examples.idA; Examples.idB].
Proof.
  split; [reflexivity|].
  apply (proj1 (proj2 (proj2 (removeIfExist_removes_exactly
                                [Examples.idA; Examples.idB] Examples.idA2)))).
  reflexivity.
Defined.

(** X5. Removal without version drops every version of a component:
    afterwards no member has the name and scope of the removed identity,
    whatever its version; removing several identities is removing them one
    after the other. *)
Theorem removeWithoutVersion_drops_all_versions (this bitIds : BitIds.t) (bitId : BitId) :
  BitIds.hasWithoutVersion (BitIds.removeIfExistWithoutVersion this bitId) bitId = false
  /\ (forall v, ~ In (BitId.changeVersion bitId v)
                     (BitIds.removeIfExistWithoutVersion this bitId))
  /\ (forall x, In x (BitIds.removeMultipleIfExistWithoutVersion this bitIds)
                <-> In x this /\ BitIds.hasWithoutVersion bitIds x = false)
  /\ BitIds.removeMultipleIfExistWithoutVersion this (bitId :: bitIds)
     = BitIds.removeMultipleIfExistWithoutVersion
         (BitIds.removeIfExistWithoutVersion this bitId) bitIds
  /\ BitIds.removeMultipleIfExistWithoutVersion this [] = this.
Proof.
  assert (Hone : forall x, In x (BitIds.removeIfExistWithoutVersion this bitId)
                           -> BitIds.keyWithoutVersion x <> BitIds.keyWithoutVersion bitId).
  { intros x. unfold BitIds.removeIfExistWithoutVersion.
    rewrite fromArray_same, filter_In, negb_true_iff. intros [_ Hne] Hk.
    apply isEqualWithoutVersion_key in Hk. congruence. }
  split; [|split; [|split; [|split]]].
  - destruct (BitIds.hasWithoutVersion _ bitId) eqn:E; [|reflexivity].
    apply hasWithoutVersion_true in E as [id [Hin Hk]]. now apply Hone in Hin.
  - intros v Hin. apply Hone in Hin. now apply Hin.
  - intros x. unfold BitIds.removeMultipleIfExistWithoutVersion.
    rewrite fromArray_same, filter_In, negb_true_iff. reflexivity.
  - clear Hone.
    assert (Hcons : forall a, BitIds.hasWithoutVersion (bitId :: bitIds) a
                              = BitId.isEqualWithoutVersion a bitId
                                || BitIds.hasWithoutVersion bitIds a).
    { intros a. unfold BitIds.hasWithoutVersion, BitIds.searchWithoutVersion,
        BitId.isEqualWithoutVersion. simpl.
      rewrite (hasSameName_sym bitId a), (hasSameScope_sym bitId a).
      now destruct (BitId.hasSameName a bitId && BitId.hasSameScope a bitId). }
    unfold BitIds.removeMultipleIfExistWithoutVersion, BitIds.removeIfExistWithoutVersion.
    rewrite !fromArray_same.
    induction this as [|a l IH]; [reflexivity|].
    cbn [List.filter]. rewrite (Hcons a).
    destruct (BitId.isEqualWithoutVersion a bitId); simpl; [exact IH|].
    destruct (BitIds.hasWithoutVersion bitIds a); simpl; [exact IH|].
    f_equal. exact IH.
  - unfold BitIds.removeMultipleIfExistWithoutVersion. rewrite fromArray_same.
    clear Hone. induction this as [|a l IH]; simpl; [reflexivity|]. f_equal. exact IH.
Qed.

(** ** The identity collection: adding and deduplicating *)

Section AddFacts.

Implicit Types (this : BitIds.t) (x bitId : BitId) (ids : list BitId).

Lemma add_cons this bitId ids :
  BitIds.add this (bitId :: ids)
  = BitIds.add (if BitIds.has this bitId then this else this ++ [bitId]) ids.
Proof. reflexivity. Qed.

Lemma add_extends ids : forall this,
  exists added,
    BitIds.add this ids = this ++ added
    /\ forall x, In x added -> In x ids /\ ~ In x this.
Proof.
  induction ids as [|b ids IH]; intros this.
  - exists []. split; [now rewrite app_nil_r|intros ? []].
  - rewrite add_cons. destruct (BitIds.has this b) eqn:E.
    + destruct (IH this) as [added [Heq Hadded]]. exists added. split; [exact Heq|].
      intros x Hx. destruct (Hadded x Hx). split; [now right|assumption].
    + destruct (IH (this ++ [b])) as [added [Heq Hadded]].
      exists (b :: added). split; [now rewrite Heq, <- app_assoc|].
      intros x [<-|Hx].
      * split; [now left|]. intros Hin. apply has_true in Hin. congruence.
      * destruct (Hadded x Hx) as [H1 H2]. split; [now right|].
        intros Hin. apply H2, in_or_app. now left.
Qed.

Lemma add_keeps this ids x : In x this -> In x (BitIds.add this ids).
Proof.
  intros Hin. destruct (add_extends ids this) as [added [-> _]].
  apply in_or_app. now left.
Qed.

Lemma add_holds ids : forall this x, In x ids -> In x (BitIds.add this ids).
Proof.
  induction ids as [|b ids IH]; intros this x; [intros []|].
  rewrite add_cons. intros [<-|Hin]; [|now apply IH].
  apply add_keeps. destruct (BitIds.has this b) eqn:E.
  - now apply has_true.
  - apply in_or_app. right. now left.
Qed.

Lemma add_present ids : forall this,
  (forall x, In x ids -> In x this) -> BitIds.add this ids = this.
Proof.
  induction ids as [|b ids IH]; intros this Hall; [reflexivity|].
  rewrite add_cons.
  assert (Hb : BitIds.has this b = true) by (apply has_true, Hall; now left).
  rewrite Hb. apply IH. intros x Hx. apply Hall. now right.
Qed.

End AddFacts.

(** X6. [add] appends to the receiver, in order, those given identities it
    does not hold yet: the receiver is a prefix of the result, every given
    identity is a member afterwards, nothing else joins, and adding the same
    identities again changes nothing. *)
Theorem add_appends_only_missing (this : BitIds.t) (bitIds : list BitId) :
  (exists added,
      BitIds.add this bitIds = this ++ added
      /\ forall x, In x added -> In x bitIds /\ BitIds.has this x = false)
  /\ (forall x, In x bitIds -> BitIds.has (BitIds.add this bitIds) x = true)
  /\ BitIds.add (BitIds.add this bitIds) bitIds = BitIds.add this bitIds
  /\ BitIds.add this [] = this.
Proof.
  split; [|split; [|split]].
  - destruct (add_extends bitIds this) as [added [Heq Hadded]].
    exists added. split; [exact Heq|]. intros x Hx.
    destruct (Hadded x Hx) as [H1 H2]. split; [exact H1|].
    destruct (BitIds.has this x) eqn:E; [|reflexivity].
    apply has_true in E. contradiction.
  - intros x Hx. apply has_true. now apply add_holds.
  - apply add_present. intros x Hx. now apply add_holds.
  - reflexivity.
Qed.

Section UniqFacts.

Context {A K : Type} `{EqDecision K} (key : A -> K).

Lemma NoDup_map_injective (xs : list A) :
  (forall x y, key x = key y -> x = y) -> List.NoDup xs -> List.NoDup (map key xs).
Proof.
  intros Hinj. induction xs as [|a xs IH]; intros Hnd; simpl; [constructor|].
  inversion Hnd as [|? ? Hnotin Hnd']; subst. constructor; [|now apply IH].
  rewrite in_map_iff. intros [b [Hk Hb]]. apply Hinj in Hk. now subst.
Qed.

Lemma uniqByFrom_fixed (xs : list A) : forall seen,
  List.NoDup (map key xs) ->
  (forall x, In x xs -> ~ In (key x) seen) ->
  Js.uniqByFrom key seen xs = xs.
Proof.
  induction xs as [|a xs IH]; intros seen Hnd Hseen; simpl; [reflexivity|].
  inversion Hnd as [|? ? Hnotin Hnd']; subst.
  destruct (existsb _ seen) eqn:E.
  - apply seen_spec in E. exfalso. apply (Hseen a); [now left|exact E].
  - f_equal. apply IH; [exact Hnd'|].
    intros x Hx [Heq|Hs].
    + apply Hnotin. rewrite Heq. now apply in_map.
    + apply (Hseen x); [now right|exact Hs].
Qed.

Lemma uniqBy_idempotent (xs : list A) :
  Js.uniqBy key (Js.uniqBy key xs) = Js.uniqBy key xs.
Proof.
  unfold Js.uniqBy. apply uniqByFrom_fixed; [apply uniqByFrom_keys_NoDup|].
  intros x _ [].
Qed.

End UniqFacts.

Lemma uniqFromArray_fixed (bitIds : list BitId) :
  List.NoDup bitIds -> BitIds.uniqFromArray bitIds = bitIds.
Proof.
  intros Hnd. unfold BitIds.uniqFromArray, Js.uniqBy. rewrite fromArray_same.
  apply uniqByFrom_fixed; [|intros x _ []].
  apply NoDup_map_injective; [|exact Hnd].
  intros x y. apply JSON_stringify_inj.
Qed.

Lemma uniqFromArray_NoDup (bitIds : list BitId) : List.NoDup (BitIds.uniqFromArray bitIds).
Proof. apply uniqueFull_NoDup, uniqFromArray_uniqueFull. Qed.

Lemma uniqFromArray_idempotent (bitIds : list BitId) :
  BitIds.uniqFromArray (BitIds.uniqFromArray bitIds) = BitIds.uniqFromArray bitIds.
Proof. apply uniqFromArray_fixed, uniqFromArray_NoDup. Qed.

(** X7. [uniqFromArray] returns a collection without duplicates unchanged,
    and applying it twice is applying it once. *)
Theorem uniqFromArray_fixes_unique_collections (bitIds : list BitId) :
  (List.NoDup bitIds -> BitIds.uniqFromArray bitIds = bitIds)
  /\ BitIds.uniqFromArray (BitIds.uniqFromArray bitIds) = BitIds.uniqFromArray bitIds
  /\ List.NoDup (BitIds.uniqFromArray bitIds)
  /\ (forall x, In x (BitIds.uniqFromArray bitIds) <-> In x bitIds).
Proof.
  split; [apply uniqFromArray_fixed|]. split; [apply uniqFromArray_idempotent|].
  split; [apply uniqFromArray_NoDup|apply uniqFromArray_In].
Qed.

Lemma uniqFromArray_unique_witness :
  List.NoDup [Examples.idA; Examples.idB]
  /\ BitIds.uniqFromArray [Examples.idA; Examples.idB] = [Examples.idA; Examples.idB].
Proof.
  assert (H : List.NoDup [Examples.idA; Examples.idB]).
  { constructor; [intros [[=]|[]]|]. constructor; [intros []|constructor]. }
  split; [exact H|].
  exact (proj1 (uniqFromArray_fixes_unique_collections _) H).
Defined.

Section ToVersionLatestFacts.

Implicit Types (this : BitIds.t).

Lemma toVersionLatest_In this (x : BitId) :
  In x (BitIds.toVersionLatest this)
  <-> exists id, In id this /\ x = BitId.changeVersion id (Some BitId.LATEST).
Proof.
  unfold BitIds.toVersionLatest. rewrite uniqFromArray_In, in_map_iff.
  split; intros [id [H1 H2]]; exists id; split; congruence.
Qed.

Lemma toVersionLatest_version this (x : BitId) :
  In x (BitIds.toVersionLatest this) -> BitId.version x = Some BitId.LATEST.
Proof. intros Hx. apply toVersionLatest_In in Hx as [id [_ ->]]. reflexivity. Qed.

Lemma toVersionLatest_keys_NoDup this :
  List.NoDup (map BitIds.keyWithoutVersion (BitIds.toVersionLatest this)).
Proof.
  pose proof (toVersionLatest_version this) as Hlatest.
  assert (Hnd : List.NoDup (BitIds.toVersionLatest this))
    by apply uniqFromArray_NoDup.
  revert Hlatest Hnd. generalize (BitIds.toVersionLatest this) as l.
  induction l as [|a l IH]; intros Hlatest Hnd; simpl; [constructor|].
  inversion Hnd as [|? ? Hnotin Hnd']; subst.
  constructor; [|apply IH; [intros x Hx; apply Hlatest; now right|exact Hnd']].
  rewrite in_map_iff. intros [b [Hk Hb]]. apply Hnotin.
  assert (Hva := Hlatest a (or_introl eq_refl)).
  assert (Hvb := Hlatest b (or_intror Hb)).
  destruct a, b. unfold BitIds.keyWithoutVersion in Hk. simpl in *.
  injection Hk as -> ->. subst. exact Hb.
Qed.

Lemma toVersionLatest_idempotent this :
  BitIds.toVersionLatest (BitIds.toVersionLatest this) = BitIds.toVersionLatest this.
Proof.
  pose proof (toVersionLatest_version this) as Hlatest.
  unfold BitIds.toVersionLatest at 1.
  assert (Hid : map (fun id => BitId.changeVersion id (Some BitId.LATEST))
                  (BitIds.toVersionLatest this) = BitIds.toVersionLatest this).
  { revert Hlatest. generalize (BitIds.toVersionLatest this) as l.
    induction l as [|a l IH]; intros Hlatest; simpl; [reflexivity|].
    rewrite IH by (intros x Hx; apply Hlatest; now right). f_equal.
    pose proof (Hlatest a (or_introl eq_refl)) as Hv.
    destruct a. simpl in Hv. subst. reflexivity. }
  rewrite Hid. unfold BitIds.toVersionLatest. apply uniqFromArray_idempotent.
Qed.

End ToVersionLatestFacts.

(** X8. [toVersionLatest] turns every member to the version [LATEST] and
    keeps one member per component: every member of the result is at
    [LATEST], every input identity is represented, and no two members have
    the same scope and name. *)
Theorem toVersionLatest_one_member_per_component (this : BitIds.t) :
  (forall x, In x (BitIds.toVersionLatest this) -> BitId.version x = Some BitId.LATEST)
  /\ (forall id, In id this ->
        In (BitId.changeVersion id (Some BitId.LATEST)) (BitIds.toVersionLatest this))
  /\ (forall x, In x (BitIds.toVersionLatest this) ->
        exists id, In id this /\ x = BitId.changeVersion id (Some BitId.LATEST))
  /\ List.NoDup (map BitIds.keyWithoutVersion (BitIds.toVersionLatest this))
  /\ BitIds.toVersionLatest (BitIds.toVersionLatest this) = BitIds.toVersionLatest this.
Proof.
  split; [apply toVersionLatest_version|]. split; [|split; [|split]].
  - intros id Hin. apply toVersionLatest_In. now exists id.
  - intros x Hx. now apply toVersionLatest_In.
  - apply toVersionLatest_keys_NoDup.
  - apply toVersionLatest_idempotent.
Qed.

(** ** The identity collection: duplicates ignoring the version *)

Section DuplicationFacts.

Implicit Types (this : BitIds.t) (bitId : BitId).

Lemma filterWithoutVersion_key this bitId :
  BitIds.filterWithoutVersion this bitId
  = List.filter (fun id => bool_decide (BitIds.keyWithoutVersion id
                                        = BitIds.keyWithoutVersion bitId)) this.
Proof.
  unfold BitIds.filterWithoutVersion. apply filter_ext. intros a.
  fold (BitId.isEqualWithoutVersion a bitId).
  destruct (BitId.isEqualWithoutVersion a bitId) eqn:E.
  - symmetry. apply bool_decide_eq_true. now apply isEqualWithoutVersion_key.
  - symmetry. apply bool_decide_eq_false. intros Hk.
    apply isEqualWithoutVersion_key in Hk. congruence.
Qed.

(** A list has distinct keys exactly when no key selects two elements. *)
Lemma NoDup_keys_filter {A K : Type} `{EqDecision K} (key : A -> K) (l : list A) :
  List.NoDup (map key l)
  <-> forall b, In b l ->
        length (List.filter (fun a => bool_decide (key a = key b)) l) <= 1.
Proof.
  split.
  - intros Hnd b _. generalize (key b) as v. intros v.
    induction l as [|a l IH]; simpl; [lia|].
    inversion Hnd as [|? ? Hnotin Hnd']; subst. specialize (IH Hnd').
    destruct (bool_decide (key a = v)) eqn:E; [|exact IH].
    apply bool_decide_eq_true in E. simpl.
    assert (Hnone : List.filter (fun a0 => bool_decide (key a0 = v)) l = []).
    { apply filter_none. intros c Hc. apply bool_decide_eq_false. intros Hk.
      apply Hnotin. rewrite E, <- Hk. now apply in_map. }
    rewrite Hnone. simpl. lia.
  - induction l as [|a l IH]; intros Hcount; simpl; [constructor|].
    constructor.
    + rewrite in_map_iff. intros [c [Hk Hc]].
      specialize (Hcount a (or_introl eq_refl)). simpl in Hcount.
      rewrite bool_decide_eq_true_2 in Hcount by reflexivity. simpl in Hcount.
      assert (Hin : In c (List.filter (fun a0 => bool_decide (key a0 = key a)) l)).
      { apply filter_In. split; [exact Hc|]. now apply bool_decide_eq_true. }
      destruct (List.filter _ l); [destruct Hin|]. simpl in Hcount. lia.
    + apply IH. intros b Hb. specialize (Hcount b (or_intror Hb)). simpl in Hcount.
      destruct (bool_decide (key a = key b)); simpl in Hcount; lia.
Qed.

Lemma forEachRes_ok {A : Type} (f : A -> Res unit) (xs : list A) :
  BitIds.forEachRes f xs = Ok tt <-> forall x, In x xs -> f x = Ok tt.
Proof.
  induction xs as [|a xs IH]; simpl.
  - split; [intros _ ? []|reflexivity].
  - destruct (f a) as [[]|e] eqn:E.
    + rewrite IH. split.
      * intros H x [<-|Hx]; [exact E|now apply H].
      * intros H x Hx. apply H. now right.
    + split; [discriminate|]. intros H. specialize (H a (or_introl eq_refl)). congruence.
Qed.

Lemma forEachRes_throw {A : Type} (f : A -> Res unit) (xs : list A) (e : Error) :
  BitIds.forEachRes f xs = Throw e ->
  exists pre x post,
    xs = pre ++ x :: post /\ f x = Throw e /\ forall y, In y pre -> f y = Ok tt.
Proof.
  induction xs as [|a xs IH]; simpl; [discriminate|].
  destruct (f a) as [[]|e'] eqn:E.
  - intros H. destruct (IH H) as [pre [x [post [-> [Hx Hpre]]]]].
    exists (a :: pre), x, post. split; [reflexivity|]. split; [exact Hx|].
    intros y [<-|Hy]; [exact E|now apply Hpre].
  - intros [= ->]. exists [], a, xs. split; [reflexivity|]. split; [exact E|intros ? []].
Qed.

End DuplicationFacts.

Lemma throwForDuplication_ok_iff (this : BitIds.t) :
  BitIds.throwForDuplicationIgnoreVersion this = Ok tt
  <-> List.NoDup (map BitIds.keyWithoutVersion this).
Proof.
  unfold BitIds.throwForDuplicationIgnoreVersion.
  rewrite forEachRes_ok, NoDup_keys_filter. split.
  - intros H b Hb. specialize (H b Hb). rewrite <- filterWithoutVersion_key.
    destruct (Nat.ltb_spec 1 (length (BitIds.filterWithoutVersion this b)));
      [discriminate|lia].
  - intros H b Hb. specialize (H b Hb). rewrite <- filterWithoutVersion_key in H.
    destruct (Nat.ltb_spec 1 (length (BitIds.filterWithoutVersion this b)));
      [lia|reflexivity].
Qed.

Lemma throwForDuplication_throws (this : BitIds.t) (e : Error) :
  BitIds.throwForDuplicationIgnoreVersion this = Throw e ->
  exists pre bitId post,
    this = pre ++ bitId :: post
    /\ e = PlainError (BitIds.duplicationMessage bitId
                         (BitIds.filterWithoutVersion this bitId))
    /\ 1 < length (BitIds.filterWithoutVersion this bitId)
    /\ forall y, In y pre -> length (BitIds.filterWithoutVersion this y) <= 1.
Proof.
  unfold BitIds.throwForDuplicationIgnoreVersion.
  intros H. apply forEachRes_throw in H as [pre [x [post [Heq [Hx Hpre]]]]].
  exists pre, x, post. split; [exact Heq|].
  destruct (Nat.ltb_spec 1 (length (BitIds.filterWithoutVersion this x)));
    [|discriminate].
  split; [congruence|]. split; [assumption|].
  intros y Hy. specialize (Hpre y Hy).
  destruct (Nat.ltb_spec 1 (length (BitIds.filterWithoutVersion this y)));
    [discriminate|lia].
Qed.

(** X9. [throwForDuplicationIgnoreVersion] returns normally exactly when no
    two members share scope and name; otherwise it throws for the first
    member that has a namesake, with the message that names it and lists
    all the members sharing its scope and name. *)
Theorem throwForDuplicationIgnoreVersion_iff_distinct_components (this : BitIds.t) :
  (BitIds.throwForDuplicationIgnoreVersion this = Ok tt
   <-> List.NoDup (map BitIds.keyWithoutVersion this))
  /\ (forall e,
        BitIds.throwForDuplicationIgnoreVersion this = Throw e ->
        exists pre bitId post,
          this = pre ++ bitId :: post
          /\ e = PlainError (BitIds.duplicationMessage bitId
                               (BitIds.filterWithoutVersion this bitId))
          /\ 1 < length (BitIds.filterWithoutVersion this bitId)
          /\ forall y, In y pre -> length (BitIds.filterWithoutVersion this y) <= 1).
Proof.
  split; [apply throwForDuplication_ok_iff|apply throwForDuplication_throws].
Qed.

(** X10. The versions of one component never pass the duplication check
    together, and a collection turned to [LATEST] always passes it. *)
Theorem duplication_check_after_toVersionLatest (this : BitIds.t) :
  BitIds.throwForDuplicationIgnoreVersion (BitIds.toVersionLatest this) = Ok tt
  /\ (forall id v w,
        In (BitId.changeVersion id v) this ->
        In (BitId.changeVersion id w) this ->
        v <> w ->
        exists msg, BitIds.throwForDuplicationIgnoreVersion this = Throw (PlainError msg)).
Proof.
  split.
  - apply throwForDuplication_ok_iff, toVersionLatest_keys_NoDup.
  - intros id v w Hv Hw Hne.
    destruct (BitIds.throwForDuplicationIgnoreVersion this) as [[]|e] eqn:E.
    + exfalso.
      apply throwForDuplication_ok_iff in E.
      pose proof (proj1 (NoDup_keys_filter _ _) E _ Hv) as Hcount.
      rewrite <- filterWithoutVersion_key in Hcount.
      assert (Hsub : forall x, In x [BitId.changeVersion id v; BitId.changeVersion id w]
                               -> In x (BitIds.filterWithoutVersion this
                                          (BitId.changeVersion id v))).
      { intros x [<-|[<-|[]]]; unfold BitIds.filterWithoutVersion; apply filter_In;
          (split; [assumption|]);
          unfold BitId.hasSameName, BitId.hasSameScope; simpl;
          now rewrite !bool_decide_eq_true_2. }
      assert (Hnd : List.NoDup [BitId.changeVersion id v; BitId.changeVersion id w]).
      { constructor; [|constructor; [intros []|constructor]].
        intros [[=]|[]]. congruence. }
      pose proof (List.NoDup_incl_length Hnd Hsub) as Hlen. simpl in Hlen. lia.
    + destruct (throwForDuplication_throws this e E) as [pre [b [post [_ [-> _]]]]].
      eexists. reflexivity.
Qed.

Lemma duplication_check_two_versions_witness :
  exists msg,
    BitIds.throwForDuplicationIgnoreVersion [Examples.idA; Examples.idB; Examples.idA2]
    = Throw (PlainError msg).
Proof.
  apply (proj2 (duplication_check_after_toVersionLatest
                  [Examples.idA; Examples.idB; Examples.idA2])
               Examples.idA (Some "1.0.0") (Some "2.0.0")).
  - now left.
  - right; right; now left.
  - discriminate.
Defined.

(** ** The identity collection: grouping *)

Section FindDuplicationsFacts.

Implicit Types (this : BitIds.t) (key : string).

Lemma findDuplications_fold this (l : list BitId) :
  forall (acc : gmap string (list BitId)) key sameIds,
    fold_left
      (fun duplications id =>
         let sameIds := BitIds.filterWithoutVersion this id in
         if Nat.ltb 1 (length sameIds)
         then Js.setProperty (BitId.toStringWithoutVersion id) sameIds duplications
         else duplications)
      l acc !! key = Some sameIds ->
    acc !! key = Some sameIds
    \/ (key <> "__proto__"
        /\ exists id, In id l /\ BitId.toStringWithoutVersion id = key
                      /\ sameIds = BitIds.filterWithoutVersion this id
                      /\ 1 < length sameIds).
Proof.
  induction l as [|a l IH]; intros acc key sameIds; simpl; [now left|].
  intros H. apply IH in H as [H|[Hk [id [Hin Hid]]]].
  - destruct (Nat.ltb_spec 1 (length (BitIds.filterWithoutVersion this a))) as [Hlt|Hle];
      [|now left].
    unfold Js.setProperty in H.
    destruct (bool_decide (BitId.toStringWithoutVersion a = "__proto__")) eqn:Ep;
      [now left|].
    apply bool_decide_eq_false in Ep.
    destruct (decide (BitId.toStringWithoutVersion a = key)) as [Heq|Hne].
    + rewrite Heq, lookup_insert_eq in H. injection H as <-.
      right. split; [congruence|]. exists a. split; [now left|]. now repeat split.
    + rewrite lookup_insert_ne in H by exact Hne. now left.
  - right. split; [exact Hk|]. exists id. split; [now right|exact Hid].
Qed.

Lemma findDuplications_fold_present this (l : list BitId) :
  forall (acc : gmap string (list BitId)) key,
    is_Some (acc !! key)
    \/ (key <> "__proto__"
        /\ exists id, In id l /\ BitId.toStringWithoutVersion id = key
                      /\ 1 < length (BitIds.filterWithoutVersion this id)) ->
    is_Some
      (fold_left
         (fun duplications id =>
            let sameIds := BitIds.filterWithoutVersion this id in
            if Nat.ltb 1 (length sameIds)
            then Js.setProperty (BitId.toStringWithoutVersion id) sameIds duplications
            else duplications)
         l acc !! key).
Proof.
  induction l as [|a l IH]; intros acc key; simpl.
  - intros [H|[_ [id [[] _]]]]. exact H.
  - intros H. apply IH.
    destruct (Nat.ltb_spec 1 (length (BitIds.filterWithoutVersion this a))) as [Hlt|Hle].
    + unfold Js.setProperty.
      destruct (bool_decide (BitId.toStringWithoutVersion a = "__proto__")) eqn:Ep.
      * apply bool_decide_eq_true in Ep.
        destruct H as [H|[Hk [id [[<-|Hin] [Hid Hlen]]]]]; [now left|congruence|].
        right. split; [exact Hk|]. now exists id.
      * destruct (decide (BitId.toStringWithoutVersion a = key)) as [Heq|Hne].
        -- left. rewrite Heq, lookup_insert_eq. eauto.
        -- rewrite lookup_insert_ne by exact Hne.
           destruct H as [H|[Hk [id [[<-|Hin] [Hid Hlen]]]]]; [now left|congruence|].
           right. split; [exact Hk|]. now exists id.
    + destruct H as [H|[Hk [id [[<-|Hin] [Hid Hlen]]]]]; [now left|lia|].
      right. split; [exact Hk|]. now exists id.
Qed.

End FindDuplicationsFacts.

(** X11. [findDuplicationsIgnoreVersion] has an entry exactly for the
    keys (other than [__proto__]) of the members that share scope and name
    with another member, each entry listing all the members that share them;
    it is empty whenever [throwForDuplicationIgnoreVersion] returns
    normally. *)
Theorem findDuplicationsIgnoreVersion_entries (this : BitIds.t) :
  (forall key sameIds,
      BitIds.findDuplicationsIgnoreVersion this !! key = Some sameIds ->
      key <> "__proto__"
      /\ exists id, In id this /\ BitId.toStringWithoutVersion id = key
                    /\ sameIds = BitIds.filterWithoutVersion this id
                    /\ 1 < length sameIds)
  /\ (forall id,
        In id this ->
        1 < length (BitIds.filterWithoutVersion this id) ->
        BitId.toStringWithoutVersion id <> "__proto__" ->
        is_Some (BitIds.findDuplicationsIgnoreVersion this
                   !! BitId.toStringWithoutVersion id))
  /\ (BitIds.throwForDuplicationIgnoreVersion this = Ok tt ->
      BitIds.findDuplicationsIgnoreVersion this = ∅).
Proof.
  assert (Hentries : forall key sameIds,
             BitIds.findDuplicationsIgnoreVersion this !! key = Some sameIds ->
             key <> "__proto__"
             /\ exists id, In id this /\ BitId.toStringWithoutVersion id = key
                           /\ sameIds = BitIds.filterWithoutVersion this id
                           /\ 1 < length sameIds).
  { intros key sameIds H. unfold BitIds.findDuplicationsIgnoreVersion in H.
    apply findDuplications_fold in H as [H|H]; [|exact H].
    rewrite lookup_empty in H. discriminate. }
  split; [exact Hentries|]. split.
  - intros id Hin Hlen Hkey. unfold BitIds.findDuplicationsIgnoreVersion.
    apply findDuplications_fold_present. right. split; [exact Hkey|]. now exists id.
  - intros Hok. apply map_eq. intros key. rewrite lookup_empty.
    destruct (BitIds.findDuplicationsIgnoreVersion this !! key) as [sameIds|] eqn:E;
      [|reflexivity].
    exfalso. apply Hentries in E as [_ [id [Hin [_ [-> Hlen]]]]].
    unfold BitIds.throwForDuplicationIgnoreVersion in Hok.
    pose proof (proj1 (forEachRes_ok _ _) Hok id Hin) as Hid. simpl in Hid.
    destruct (Nat.ltb_spec 1 (length (BitIds.filterWithoutVersion this id)));
      [discriminate|lia].
Qed.

Lemma findDuplicationsIgnoreVersion_witness :
  BitIds.throwForDuplicationIgnoreVersion [Examples.idA; Examples.idB] = Ok tt
  /\ BitIds.findDuplicationsIgnoreVersion [Examples.idA; Examples.idB] = ∅.
Proof.
  split; [reflexivity|].
  apply (proj2 (proj2 (findDuplicationsIgnoreVersion_entries
                         [Examples.idA; Examples.idB]))).
  reflexivity.
Defined.

Section GroupingFacts.

Variable keyOf : BitId -> option string.
Variable errorOf : BitId -> Error.
Variable step : gmap string BitIds.t -> BitId -> Res (gmap string BitIds.t).

Hypothesis step_spec : forall acc current,
  step acc current
  = match keyOf current with
    | Some key => BitIds.groupInto key current acc
    | None => Throw (errorOf current)
    end.

Lemma groupOf_snoc key seen current :
  BitIds.groupOf keyOf key (seen ++ [current])
  = if bool_decide (keyOf current = Some key)
    then Some (default [] (BitIds.groupOf keyOf key seen) ++ [current])
    else BitIds.groupOf keyOf key seen.
Proof.
  unfold BitIds.groupOf. rewrite List.filter_app. simpl.
  destruct (bool_decide (keyOf current = Some key)).
  - destruct (List.filter _ seen) as [|a l]; reflexivity.
  - now rewrite app_nil_r.
Qed.

Lemma groupOf_member key seen group :
  BitIds.groupOf keyOf key seen = Some group ->
  exists id, In id seen /\ keyOf id = Some key.
Proof.
  unfold BitIds.groupOf.
  destruct (List.filter _ seen) as [|a l] eqn:E; [discriminate|]. intros _.
  assert (Hin : In a (List.filter (fun id => bool_decide (keyOf id = Some key)) seen))
    by (rewrite E; now left).
  apply filter_In in Hin as [Hin Hk]. apply bool_decide_eq_true in Hk. eauto.
Qed.

Lemma step_files seen acc current :
  BitIds.groupsOfSeen keyOf seen acc -> BitIds.filable keyOf current ->
  exists acc', step acc current = Ok acc' /\ BitIds.groupsOfSeen keyOf (seen ++ [current]) acc'.
Proof.
  intros Hinv [key [Hkey Hown]]. unfold BitIds.groupsOfSeen in *. rewrite step_spec, Hkey.
  unfold BitIds.groupInto, Js.getProperty. fold (Js.inheritedKey key).
  assert (Hproto : key <> "__proto__") by (intros ->; discriminate Hown).
  destruct (acc !! key) as [group|] eqn:E.
  - eexists. split; [reflexivity|]. intros k. rewrite groupOf_snoc, Hkey.
    destruct (decide (key = k)) as [<-|Hne].
    + rewrite lookup_insert_eq, bool_decide_eq_true_2 by reflexivity.
      now rewrite <- Hinv, E.
    + rewrite lookup_insert_ne by exact Hne.
      rewrite bool_decide_eq_false_2 by congruence. apply Hinv.
  - rewrite Hown. unfold Js.setProperty. rewrite bool_decide_eq_false_2 by exact Hproto.
    eexists. split; [reflexivity|]. intros k. rewrite groupOf_snoc, Hkey.
    destruct (decide (key = k)) as [<-|Hne].
    + rewrite lookup_insert_eq, bool_decide_eq_true_2 by reflexivity.
      now rewrite <- Hinv, E.
    + rewrite lookup_insert_ne by exact Hne.
      rewrite bool_decide_eq_false_2 by congruence. apply Hinv.
Qed.

Lemma reduce_files (l : list BitId) : forall seen acc,
  BitIds.groupsOfSeen keyOf seen acc -> (forall id, In id l -> BitIds.filable keyOf id) ->
  exists groups,
    BitIds.reduceRes step l acc = Ok groups /\ BitIds.groupsOfSeen keyOf (seen ++ l) groups.
Proof.
  induction l as [|a l IH]; intros seen acc Hinv Hall; simpl.
  - exists acc. split; [reflexivity|]. now rewrite app_nil_r.
  - destruct (step_files seen acc a Hinv (Hall a (or_introl eq_refl)))
      as [acc' [Hstep Hinv']].
    rewrite Hstep.
    destruct (IH (seen ++ [a]) acc' Hinv') as [groups [Hred Hgroups]].
    { intros id Hid. apply Hall. now right. }
    exists groups. split; [exact Hred|]. now rewrite <- app_assoc in Hgroups.
Qed.

Lemma reduceRes_app (l1 l2 : list BitId) (acc : gmap string BitIds.t) :
  BitIds.reduceRes step (l1 ++ l2) acc
  = match BitIds.reduceRes step l1 acc with
    | Ok acc' => BitIds.reduceRes step l2 acc'
    | Throw e => Throw e
    end.
Proof.
  revert acc. induction l1 as [|a l1 IH]; intros acc; simpl; [reflexivity|].
  destruct (step acc a); [apply IH|reflexivity].
Qed.

(** The first member that cannot be filed ends the reduction: with the
    error of the key function, or with a [TypeError] when its key names an
    inherited member. *)
Lemma reduce_stops (pre post : list BitId) (current : BitId) :
  (forall id, In id pre -> BitIds.filable keyOf id) ->
  ~ BitIds.filable keyOf current ->
  BitIds.reduceRes step (pre ++ current :: post) ∅
  = Throw (match keyOf current with Some _ => TypeError | None => errorOf current end).
Proof.
  intros Hpre Hnot. rewrite reduceRes_app.
  destruct (reduce_files pre [] ∅) as [groups [Hred Hgroups]].
  { intros key. rewrite lookup_empty. reflexivity. }
  { exact Hpre. }
  rewrite Hred. simpl. rewrite step_spec.
  destruct (keyOf current) as [key|] eqn:Hkey; [|reflexivity].
  unfold BitIds.groupInto, Js.getProperty. fold (Js.inheritedKey key).
  assert (Hinh : Js.inheritedKey key = true).
  { destruct (Js.inheritedKey key) eqn:E; [reflexivity|].
    exfalso. apply Hnot. now exists key. }
  destruct (groups !! key) as [group|] eqn:E.
  - exfalso. rewrite Hgroups in E. simpl in E.
    apply groupOf_member in E as [id [Hin Hk]].
    destruct (Hpre id Hin) as [k [Hk' Hown]]. congruence.
  - now rewrite Hinh.
Qed.

Lemma first_unfilable (l : list BitId) :
  (exists id, In id l /\ ~ BitIds.filable keyOf id) ->
  exists pre current post,
    l = pre ++ current :: post
    /\ (forall id, In id pre -> BitIds.filable keyOf id) /\ ~ BitIds.filable keyOf current.
Proof.
  assert (Hdec : forall id, BitIds.filable keyOf id \/ ~ BitIds.filable keyOf id).
  { intros id. unfold BitIds.filable. destruct (keyOf id) as [key|].
    - destruct (Js.inheritedKey key) eqn:E.
      + right. intros [k [[= <-] Hk]]. congruence.
      + left. now exists key.
    - right. intros [k [[=] _]]. }
  induction l as [|a l IH]; intros [id [Hin Hnot]]; [destruct Hin|].
  destruct (Hdec a) as [Ha|Ha].
  - destruct Hin as [->|Hin]; [contradiction|].
    destruct IH as [pre [current [post [-> [Hpre Hcur]]]]]; [now exists id|].
    exists (a :: pre), current, post. split; [reflexivity|]. split; [|exact Hcur].
    intros y [<-|Hy]; [exact Ha|now apply Hpre].
  - exists [], a, l. split; [reflexivity|]. split; [intros ? []|exact Ha].
Qed.

Lemma classic_filable_all (l : list BitId) :
  (forall id, In id l -> BitIds.filable keyOf id) \/ (exists id, In id l /\ ~ BitIds.filable keyOf id).
Proof.
  induction l as [|a l IH]; [left; intros ? []|].
  assert (Ha : BitIds.filable keyOf a \/ ~ BitIds.filable keyOf a).
  { unfold BitIds.filable. destruct (keyOf a) as [key|].
    - destruct (Js.inheritedKey key) eqn:E.
      + right. intros [k [[= <-] Hk]]. congruence.
      + left. now exists key.
    - right. intros [k [[=] _]]. }
  destruct Ha as [Ha|Ha]; [|right; exists a; split; [now left|exact Ha]].
  destruct IH as [IH|[id [Hin Hnot]]].
  - left. intros id [<-|Hid]; [exact Ha|now apply IH].
  - right. exists id. split; [now right|exact Hnot].
Qed.

End GroupingFacts.

(** X12. [toGroupByIdWithoutVersion] files every member under its
    identity string without version, each group in the order of the
    collection, when no such string names a member inherited from
    [Object.prototype]; when one does, the call throws a [TypeError], and it
    throws nothing else. *)
Theorem toGroupByIdWithoutVersion_groups (this : BitIds.t) :
  ((forall id, In id this -> Js.inheritedKey (BitId.toStringWithoutVersion id) = false) ->
   exists groups,
     BitIds.toGroupByIdWithoutVersion this = Ok groups
     /\ forall key,
          groups !! key
          = BitIds.groupOf (fun id => Some (BitId.toStringWithoutVersion id)) key this)
  /\ ((exists id, In id this
                  /\ Js.inheritedKey (BitId.toStringWithoutVersion id) = true) ->
      BitIds.toGroupByIdWithoutVersion this = Throw TypeError)
  /\ (forall e, BitIds.toGroupByIdWithoutVersion this = Throw e -> e = TypeError).
Proof.
  set (keyOf := fun id : BitId => Some (BitId.toStringWithoutVersion id)).
  set (step := fun (acc : gmap string BitIds.t) (current : BitId) =>
                 BitIds.groupInto (BitId.toStringWithoutVersion current) current acc).
  assert (Hspec : forall acc current,
             step acc current
             = match keyOf current with
               | Some key => BitIds.groupInto key current acc
               | None => Throw TypeError
               end) by reflexivity.
  assert (Hfil : forall id,
             BitIds.filable keyOf id <-> Js.inheritedKey (BitId.toStringWithoutVersion id) = false).
  { intros id. unfold BitIds.filable, keyOf. split.
    - intros [key [[= <-] H]]. exact H.
    - intros H. eexists. split; [reflexivity|exact H]. }
  assert (Hthrow : (exists id, In id this /\ ~ BitIds.filable keyOf id) ->
                   BitIds.toGroupByIdWithoutVersion this = Throw TypeError).
  { intros Hex.
    destruct (first_unfilable keyOf this Hex) as [pre [current [post [-> [Hpre Hcur]]]]].
    exact (reduce_stops keyOf (fun _ => TypeError) step Hspec pre post current Hpre Hcur). }
  split; [|split].
  - intros Hall.
    destruct (reduce_files keyOf (fun _ => TypeError) step Hspec this [] ∅)
      as [groups [Hred Hgroups]].
    + intros key. rewrite lookup_empty. reflexivity.
    + intros id Hid. apply Hfil. now apply Hall.
    + exists groups. split; [exact Hred|exact Hgroups].
  - intros [id [Hin Hinh]]. apply Hthrow. exists id. split; [exact Hin|].
    rewrite Hfil. congruence.
  - intros e He.
    destruct (classic_filable_all keyOf this) as [Hall|Hex].
    + destruct (reduce_files keyOf (fun _ => TypeError) step Hspec this [] ∅)
        as [groups [Hred _]].
      * intros key. rewrite lookup_empty. reflexivity.
      * exact Hall.
      * unfold BitIds.toGroupByIdWithoutVersion in He. fold step in He. congruence.
    + rewrite (Hthrow Hex) in He. congruence.
Qed.

Lemma reduceRes_ext_in {A B : Type} (f g : B -> A -> Res B) (xs : list A) :
  (forall acc x, In x xs -> f acc x = g acc x) ->
  forall acc, BitIds.reduceRes f xs acc = BitIds.reduceRes g xs acc.
Proof.
  induction xs as [|a xs IH]; intros Hext acc; simpl; [reflexivity|].
  rewrite (Hext acc a (or_introl eq_refl)).
  destruct (g acc a); [|reflexivity]. apply IH. intros acc' x Hx. apply Hext. now right.
Qed.

(** X13. [toGroupByScopeName] files every member under its own scope
    name, or else under the scope of the identity of the same name among the
    defaults. It throws for the first member that has neither, with the
    message naming that member. Members that carry a scope never consult the
    defaults. *)
Theorem toGroupByScopeName_groups (this idsWithDefaultScope : BitIds.t) :
  ((forall id, In id this ->
      BitIds.filable (BitIds.resolvedScope idsWithDefaultScope) id) ->
   exists groups,
     BitIds.toGroupByScopeName this idsWithDefaultScope = Ok groups
     /\ forall key,
          groups !! key
          = BitIds.groupOf (BitIds.resolvedScope idsWithDefaultScope) key this)
  /\ (forall pre current post,
        this = pre ++ current :: post ->
        (forall id, In id pre ->
           BitIds.filable (BitIds.resolvedScope idsWithDefaultScope) id) ->
        BitIds.resolvedScope idsWithDefaultScope current = None ->
        BitIds.toGroupByScopeName this idsWithDefaultScope
        = Throw (PlainError (BitIds.missingScopeMessage current)))
  /\ ((forall id, In id this -> Js.truthyStr (BitId.scope id) = true) ->
      BitIds.toGroupByScopeName this idsWithDefaultScope
      = BitIds.toGroupByScopeName this [])
  /\ (forall id, Js.truthyStr (BitId.scope id) = true ->
        BitIds.resolvedScope idsWithDefaultScope id = BitId.scope id).
Proof.
  set (keyOf := BitIds.resolvedScope idsWithDefaultScope).
  set (errorOf := fun current => PlainError (BitIds.missingScopeMessage current)).
  set (step := fun (acc : gmap string BitIds.t) (current : BitId) =>
                 let scopeName := BitIds.getScopeName idsWithDefaultScope current in
                 if negb (Js.truthyStr scopeName)
                 then Throw (PlainError (BitIds.missingScopeMessage current))
                 else BitIds.groupInto (default "" scopeName) current acc).
  assert (Hspec : forall acc current,
             step acc current
             = match keyOf current with
               | Some key => BitIds.groupInto key current acc
               | None => Throw (errorOf current)
               end).
  { intros acc current. unfold step, keyOf, errorOf, BitIds.resolvedScope. simpl.
    destruct (BitIds.getScopeName idsWithDefaultScope current) as [s|]; simpl;
      [|reflexivity].
    destruct (bool_decide (s = "")); reflexivity. }
  assert (Hown : forall ids id, Js.truthyStr (BitId.scope id) = true ->
                                BitIds.getScopeName ids id = BitId.scope id).
  { intros ids id H. unfold BitIds.getScopeName. now rewrite H. }
  split; [|split; [|split]].
  - intros Hall.
    destruct (reduce_files keyOf errorOf step Hspec this [] ∅) as [groups [Hred Hgroups]].
    + intros key. rewrite lookup_empty. reflexivity.
    + exact Hall.
    + exists groups. split; [exact Hred|exact Hgroups].
  - intros pre current post -> Hpre Hnone.
    assert (Hnot : ~ BitIds.filable keyOf current).
    { intros [key [Hk _]]. rewrite Hnone in Hk. discriminate Hk. }
    pose proof (reduce_stops keyOf errorOf step Hspec pre post current Hpre Hnot) as H.
    rewrite Hnone in H. exact H.
  - intros Hscoped. unfold BitIds.toGroupByScopeName.
    apply reduceRes_ext_in. intros acc id Hid. unfold step. cbv beta zeta.
    rewrite (Hown idsWithDefaultScope id (Hscoped id Hid)).
    rewrite (Hown [] id (Hscoped id Hid)). reflexivity.
  - intros id H. unfold keyOf, BitIds.resolvedScope.
    rewrite (Hown idsWithDefaultScope id H), H. reflexivity.
Qed.

Lemma toGroupByScopeName_witness :
  BitIds.toGroupByScopeName [Examples.idA; Examples.idUnscoped; Examples.idB] []
  = Throw (PlainError
             "toGroupByScopeName() expect ids to have a scope name, got utils/is-string").
Proof.
  refine (proj1 (proj2 (toGroupByScopeName_groups
                          [Examples.idA; Examples.idUnscoped; Examples.idB] []))
                [Examples.idA] Examples.idUnscoped [Examples.idB] eq_refl _ eq_refl).
  intros id [<-|[]]. exists "acme". split; reflexivity.
Defined.

Lemma toGroupByIdWithoutVersion_witness :
  (exists groups,
      BitIds.toGroupByIdWithoutVersion [Examples.idA; Examples.idB; Examples.idA2] = Ok groups
      /\ groups !! "acme/ui/button" = Some [Examples.idA; Examples.idA2])
  /\ BitIds.toGroupByIdWithoutVersion [Examples.idA; BitId.mk None "constructor" None]
     = Throw TypeError.
Proof.
  split.
  - destruct (proj1 (toGroupByIdWithoutVersion_groups
                       [Examples.idA; Examples.idB; Examples.idA2]))
      as [groups [Hgroups Hkeys]].
    + intros id [<-|[<-|[<-|[]]]]; reflexivity.
    + exists groups. split; [exact Hgroups|]. rewrite Hkeys. reflexivity.
  - apply (proj1 (proj2 (toGroupByIdWithoutVersion_groups
                           [Examples.idA; BitId.mk None "constructor" None]))).
    exists (BitId.mk None "constructor" None). split; [right; now left|reflexivity].
Defined.

(** ** The status loader: what a record tells and what a computation calls *)

Section StatusRecordFacts.

Import StatusLoader.

Ltac step_status :=
  match goal with
  | |- context [getModelComponentIfExist ?c ?i] =>
      destruct (getModelComponentIfExist c i) as [[?|]|?] eqn:?
  | |- context [loadComponents ?c ?i ?b] => destruct (loadComponents c i b) as [?|[]] eqn:?
  | |- context [negb (Nat.eqb ?n 0)] => destruct (negb (Nat.eqb n 0)) eqn:?
  | |- context [bool_decide (?h = VERSION_ZERO)] => destruct (bool_decide (h = VERSION_ZERO)) eqn:?
  | |- context [getCurrentLaneObject ?c] => destruct (getCurrentLaneObject c) eqn:?
  | |- context [setDivergeData ?m] => destruct (setDivergeData m) eqn:?
  | |- context [isLocallyChanged ?m ?l] => destruct (isLocallyChanged m l) eqn:?
  | |- context [head ?l] => destruct (head l) eqn:?
  | |- context [BitId.hasVersion ?i] => destruct (BitId.hasVersion i) eqn:?
  | |- context [getRef ?m ?v] => destruct (getRef m v) eqn:?
  | |- context [getObject ?c ?h] => destruct (getObject c h) as [[?|]|?] eqn:?
  | |- context [isComponentModified ?c ?v ?f] => destruct (isComponentModified c v f) eqn:?
  end; simpl.

(** The calls of a computation that returns a record: two when the record
    is settled by the model lookup and the load alone, seven, in this order,
    when staged and modified are computed. *)
Lemma outcome_calls (consumer : Consumer) (id : ComponentID) (status : ComponentStatus) :
  outcomeOf consumer id = Ok status ->
  let load := CallLoadComponents
                (BitIds.fromArray [BitId.changeVersion id (Some BitId.LATEST)]) in
  (modified status = None
   /\ callsOf consumer id = [CallGetModelComponentIfExist id; load])
  \/ (exists isStaged isModified h,
        status = set_modified (set_staged emptyStatus isStaged) isModified
        /\ callsOf consumer id
           = [CallGetModelComponentIfExist id; load; CallGetCurrentLaneObject;
              CallSetDivergeData; CallIsLocallyChanged; CallGetObject h;
              CallIsComponentModified]).
Proof.
  unfold outcomeOf, callsOf, getStatus, bind, tryCatch, call, ret, throw; simpl.
  repeat step_status; intros [= <-];
    first [ left; split; reflexivity
          | right; eexists; eexists; eexists; split; reflexivity ].
Qed.

(** Every error of a computation has one of the origins of [thrownBy]. *)
Lemma outcome_thrownBy (consumer : Consumer) (id : ComponentID) (e : Error) :
  outcomeOf consumer id = Throw e -> thrownBy consumer id e.
Proof.
  unfold outcomeOf, callsOf, getStatus, bind, tryCatch, call, ret, throw; simpl.
  repeat step_status; intros [= <-];
    solve [ eauto using thrownBy
          | eapply ByLoad; [eassumption|reflexivity]
          | eapply ByDivergeData; eassumption
          | eapply ByLocalChanges; eassumption
          | eapply ByObjectStore; eassumption
          | eapply ByComparison; eassumption ].
Qed.

(** A load that fails with an expected absence never makes the computation
    throw. *)
Lemma expected_absence_outcome (consumer : Consumer) (id : ComponentID)
    (model : option ModelComponent) (err : Error) :
  getModelComponentIfExist consumer id = Ok model ->
  loadComponents consumer
    (BitIds.fromArray [BitId.changeVersion id (Some BitId.LATEST)]) true = Throw err ->
  expectedAbsence err = true ->
  outcomeOf consumer id
  = Ok (match err with
        | ComponentsPendingImport => emptyStatus
        | _ => if Js.truthy model then set_deleted emptyStatus true
               else set_notExist emptyStatus true
        end).
Proof.
  intros Hm Hl Hexp.
  unfold outcomeOf, getStatus, bind, tryCatch, call, ret, throw; simpl.
  rewrite Hm. simpl. rewrite Hl.
  destruct err; try discriminate Hexp; destruct model; reflexivity.
Qed.

End StatusRecordFacts.

(** X14. In a computed status record [modified] and [staged] are defined
    together, and only for a tracked component: when one of [notExist],
    [deleted], [newlyCreated] is true both are [undefined], and
    [modified === false] holds only for a record with none of the three. *)
Theorem getStatus_modified_defined_only_when_tracked
    (consumer : Consumer) (id : ComponentID) (s s' : StatusLoader.State)
    (status : ComponentStatus)
    (Hstatus : StatusLoader.getStatus consumer id s = (Ok status, s')) :
  (modified status = None <-> staged status = None)
  /\ (terminalFacets status = 1 -> modified status = None /\ staged status = None)
  /\ (forall b, modified status = Some b ->
        terminalFacets status = 0
        /\ notExist status = None /\ deleted status = None
        /\ newlyCreated status = None /\ is_Some (staged status))
  /\ deleted status <> Some false
  /\ notExist status <> Some false
  /\ newlyCreated status <> Some false.
Proof.
  apply getStatus_shape in Hstatus.
  destruct Hstatus; unfold terminalFacets; simpl;
    repeat split; try discriminate; try congruence; try lia; eauto;
    intros; try discriminate.
Qed.

Lemma getStatus_modified_defined_witness :
  modified (set_modified (set_staged emptyStatus true) true) = Some true
  /\ terminalFacets (set_modified (set_staged emptyStatus true) true) = 0.
Proof.
  split; [reflexivity|].
  refine (proj1 (proj1 (proj2 (proj2
            (getStatus_modified_defined_only_when_tracked
               Examples.stagedAndModified Examples.idA StatusLoader.newLoader
               (snd (StatusLoader.getStatus Examples.stagedAndModified Examples.idA
                       StatusLoader.newLoader))
               (set_modified (set_staged emptyStatus true) true) _))) true eq_refl)).
  vm_compute; reflexivity.
Defined.

(** X15. [getStatus] loads the working copy at the version [LATEST],
    whatever the version of the identity. A record without [modified] is
    settled by the model lookup and that load alone: the lane, the
    divergence data and the object store are not consulted. A record with
    [modified] costs exactly seven calls, in the order model lookup, load,
    current lane, divergence data, local changes, object, comparison. When
    the model lookup fails nothing else is called. *)
Theorem getStatus_calls
    (consumer : Consumer) (id : ComponentID) (s s' : StatusLoader.State)
    (status : ComponentStatus)
    (Hstatus : StatusLoader.getStatus consumer id s = (Ok status, s')) :
  exists calls,
    StatusLoader.journal s' = StatusLoader.journal s ++ calls
    /\ StatusLoader._componentsStatusCache s' = StatusLoader._componentsStatusCache s
    /\ ((modified status = None
         /\ calls = [StatusLoader.CallGetModelComponentIfExist id;
                     StatusLoader.CallLoadComponents
                       [BitId.changeVersion id (Some BitId.LATEST)]])
        \/ (exists h,
              is_Some (modified status)
              /\ calls = [StatusLoader.CallGetModelComponentIfExist id;
                          StatusLoader.CallLoadComponents
                            [BitId.changeVersion id (Some BitId.LATEST)];
                          StatusLoader.CallGetCurrentLaneObject;
                          StatusLoader.CallSetDivergeData;
                          StatusLoader.CallIsLocallyChanged;
                          StatusLoader.CallGetObject h;
                          StatusLoader.CallIsComponentModified])).
Proof.
  rewrite getStatus_run in Hstatus. injection Hstatus as Hout <-.
  exists (StatusLoader.callsOf consumer id). split; [reflexivity|]. split; [reflexivity|].
  destruct (outcome_calls consumer id status Hout) as [[Hm Hc]|[b1 [b2 [h [-> Hc]]]]].
  - left. split; [exact Hm|exact Hc].
  - right. exists h. split; [simpl; eauto|exact Hc].
Qed.

Lemma getStatus_calls_witness :
  exists calls,
    StatusLoader.journal
      (snd (StatusLoader.getStatus Examples.pendingImport Examples.idA StatusLoader.newLoader))
    = [] ++ calls
    /\ length calls = 2.
Proof.
  destruct (getStatus_calls Examples.pendingImport Examples.idA StatusLoader.newLoader
              (snd (StatusLoader.getStatus Examples.pendingImport Examples.idA
                      StatusLoader.newLoader))
              emptyStatus)
    as [calls [Hj [_ [[_ Hc]|[h [[b Hb] _]]]]]].
  - vm_compute; reflexivity.
  - exists calls. split; [exact Hj|]. now rewrite Hc.
  - discriminate Hb.
Defined.

(** X16. An error thrown by [getStatus] is either the error of one of
    its collaborators, passed on as it is, or one of its own: out of sync,
    version not found, version not loaded, or the dereference of a missing
    loaded component. A load that fails with missing files, a component not
    found in its path, a component missing from the bitmap or a pending
    import never makes it throw: the first three give [deleted] when the
    model component exists and [notExist] otherwise. *)
Theorem getStatus_error_origins (consumer : Consumer) (id : ComponentID)
    (s : StatusLoader.State) :
  (forall e s', StatusLoader.getStatus consumer id s = (Throw e, s') ->
                StatusLoader.thrownBy consumer id e)
  /\ (forall model err,
        getModelComponentIfExist consumer id = Ok model ->
        loadComponents consumer
          (BitIds.fromArray [BitId.changeVersion id (Some BitId.LATEST)]) true = Throw err ->
        StatusLoader.expectedAbsence err = true ->
        fst (StatusLoader.getStatus consumer id s)
        = Ok (match err with
              | ComponentsPendingImport => emptyStatus
              | _ => if Js.truthy model then set_deleted emptyStatus true
                     else set_notExist emptyStatus true
              end))
  /\ (forall e,
        getModelComponentIfExist consumer id = Throw e ->
        StatusLoader.getStatus consumer id s
        = (Throw e,
           {| StatusLoader._componentsStatusCache := StatusLoader._componentsStatusCache s;
              StatusLoader.journal :=
                StatusLoader.journal s ++ [StatusLoader.CallGetModelComponentIfExist id] |})).
Proof.
  split; [|split].
  - intros e s' H. rewrite getStatus_run in H. injection H as H _.
    now apply outcome_thrownBy.
  - intros model err Hm Hl Hexp. rewrite getStatus_run. simpl.
    now apply (expected_absence_outcome consumer id model err).
  - intros e H. rewrite getStatus_run. f_equal.
    + unfold StatusLoader.outcomeOf, StatusLoader.getStatus, StatusLoader.bind,
        StatusLoader.call. simpl. now rewrite H.
    + f_equal. unfold StatusLoader.callsOf, StatusLoader.getStatus, StatusLoader.bind,
        StatusLoader.call. simpl. now rewrite H.
Qed.

Lemma getStatus_error_origins_witness :
  StatusLoader.thrownBy Examples.outOfSync Examples.idA
    (ComponentOutOfSync "acme/ui/button@1.0.0").
Proof.
  apply (proj1 (getStatus_error_origins Examples.outOfSync Examples.idA
                  StatusLoader.newLoader)
               (ComponentOutOfSync "acme/ui/button@1.0.0")
               (snd (StatusLoader.getStatus Examples.outOfSync Examples.idA
                       StatusLoader.newLoader))).
  vm_compute; reflexivity.
Defined.

(** ** The status loader: the cache over many requests *)

Section CacheFacts.

Import StatusLoader.

(** One request: entries are never replaced, a returned record is the entry
    of its identity afterwards, and the loader runs at most once. *)
Lemma getComponentStatusById_step (consumer : Consumer) (id : ComponentID) (s s' : State)
    (r : Res ComponentStatus) :
  getComponentStatusById consumer id s = (r, s') ->
  (forall key st, _componentsStatusCache s !! key = Some st ->
                  _componentsStatusCache s' !! key = Some st)
  /\ (forall st, r = Ok st -> _componentsStatusCache s' !! BitId.toString id = Some st)
  /\ loadCount s <= loadCount s' <= S (loadCount s)
  /\ (forall key, key <> BitId.toString id ->
        _componentsStatusCache s' !! key = _componentsStatusCache s !! key).
Proof.
  destruct (_componentsStatusCache s !! BitId.toString id) as [st0|] eqn:Hc.
  - rewrite (getComponentStatusById_hit _ _ _ _ Hc). intros [= <- <-].
    split; [auto|]. split; [intros st [= <-]; exact Hc|]. split; [lia|auto].
  - rewrite (getComponentStatusById_miss _ _ _ Hc), getStatus_run.
    destruct (outcomeOf consumer id) as [st|e] eqn:Ho; intros [= <- <-];
      unfold cached, loadCount; simpl.
    + split.
      { intros key st0 Hk. destruct (decide (key = BitId.toString id)) as [->|Hne];
          [congruence|]. now rewrite lookup_insert_ne by congruence. }
      split; [intros st0 [= <-]; apply lookup_insert_eq|]. split.
      { rewrite List.filter_app, length_app, (callsOf_loads_once _ _ _ Ho). lia. }
      intros key Hne. now rewrite lookup_insert_ne by congruence.
    + split; [auto|]. split; [discriminate|]. split; [|auto].
      rewrite List.filter_app, length_app.
      assert (Hle : length (List.filter isLoadCall (callsOf consumer id)) <= 1).
      { clear. unfold callsOf, getStatus, bind, tryCatch, call, ret, throw; simpl.
        repeat match goal with
               | |- context [getModelComponentIfExist ?c ?i] =>
                   destruct (getModelComponentIfExist c i) as [[?|]|?]; simpl
               | |- context [loadComponents ?c ?i ?b] =>
                   destruct (loadComponents c i b) as [?|[]]; simpl
               | |- context [negb (Nat.eqb ?n 0)] => destruct (negb (Nat.eqb n 0)); simpl
               | |- context [bool_decide (?h = VERSION_ZERO)] =>
                   destruct (bool_decide (h = VERSION_ZERO)); simpl
               | |- context [getCurrentLaneObject ?c] =>
                   destruct (getCurrentLaneObject c); simpl
               | |- context [setDivergeData ?m] => destruct (setDivergeData m); simpl
               | |- context [isLocallyChanged ?m ?l] => destruct (isLocallyChanged m l); simpl
               | |- context [head ?l] => destruct (head l); simpl
               | |- context [BitId.hasVersion ?i] => destruct (BitId.hasVersion i); simpl
               | |- context [getRef ?m ?v] => destruct (getRef m v); simpl
               | |- context [getObject ?c ?h] => destruct (getObject c h) as [[?|]|?]; simpl
               | |- context [isComponentModified ?c ?v ?f] =>
                   destruct (isComponentModified c v f); simpl
               end; lia. }
      lia.
Qed.

End CacheFacts.

(** X17. [getManyComponentsStatuses] answers the identities in the order
    given, one record each; every record returned is the cache entry of its
    identity afterwards; entries present before are never replaced; and the
    working copy is loaded at most once per identity asked. When a request
    fails the call throws, and the entries written before stay. *)
Theorem getManyComponentsStatuses_fills_cache
    (consumer : Consumer) (ids : list ComponentID) (s s' : StatusLoader.State)
    (r : Res (list (ComponentID * ComponentStatus)))
    (Hrun : StatusLoader.getManyComponentsStatuses consumer ids s = (r, s')) :
  (forall key st, StatusLoader._componentsStatusCache s !! key = Some st ->
                  StatusLoader._componentsStatusCache s' !! key = Some st)
  /\ StatusLoader.loadCount s <= StatusLoader.loadCount s'
     <= StatusLoader.loadCount s + length ids
  /\ (forall results, r = Ok results ->
        map fst results = ids
        /\ forall id st, In (id, st) results ->
             StatusLoader._componentsStatusCache s' !! BitId.toString id = Some st).
Proof.
  revert s s' r Hrun. induction ids as [|id ids IH]; intros s s' r Hrun.
  - injection Hrun as <- <-. split; [auto|]. split; [simpl; lia|].
    intros results [= <-]. split; [reflexivity|intros ? ? []].
  - simpl in Hrun. unfold StatusLoader.bind in Hrun.
    destruct (StatusLoader.getComponentStatusById consumer id s) as [[st|e] s1] eqn:H1.
    + destruct (getComponentStatusById_step _ _ _ _ _ H1) as [Hkeep [Hentry [Hcount _]]].
      destruct (StatusLoader.getManyComponentsStatuses consumer ids s1)
        as [[results|e] s2] eqn:H2;
        destruct (IH _ _ _ H2) as [Hkeep2 [Hcount2 Hres2]];
        injection Hrun as <- <-.
      * split; [intros key st0 Hk; now apply Hkeep2, Hkeep|]. split; [simpl; lia|].
        intros results' [= <-]. destruct (Hres2 _ eq_refl) as [Hids Hentries].
        split; [simpl; now rewrite Hids|].
        intros id' st' [[= <- <-]|Hin]; [|now apply Hentries].
        apply Hkeep2. now apply Hentry.
      * split; [intros key st0 Hk; now apply Hkeep2, Hkeep|]. split; [simpl; lia|].
        discriminate.
    + destruct (getComponentStatusById_step _ _ _ _ _ H1) as [Hkeep [_ [Hcount _]]].
      injection Hrun as <- <-.
      split; [exact Hkeep|]. split; [simpl; lia|discriminate].
Qed.

Lemma getManyComponentsStatuses_witness :
  StatusLoader.loadCount
    (snd (StatusLoader.getManyComponentsStatuses Examples.stagedAndModified
            [Examples.idA; Examples.idA; Examples.idA] StatusLoader.newLoader))
  <= 3
  /\ StatusLoader.loadCount
       (snd (StatusLoader.getManyComponentsStatuses Examples.stagedAndModified
               [Examples.idA; Examples.idA; Examples.idA] StatusLoader.newLoader))
     = 1.
Proof.
  split; [|vm_compute; reflexivity].
  apply (proj1 (proj2 (getManyComponentsStatuses_fills_cache
                         Examples.stagedAndModified
                         [Examples.idA; Examples.idA; Examples.idA]
                         StatusLoader.newLoader _ _ (surjective_pairing _)))).
Defined.

(** X18. After [clearOneComponentCache(id)] the next request for the
    identity computes its status anew from the workspace as it then is, and
    caches what it returns; requests for identities with another key are
    answered as before; clearing an identity that has no entry changes
    nothing. *)
Theorem clearOneComponentCache_forces_recomputation
    (consumer : Consumer) (id : ComponentID) (s : StatusLoader.State) :
  fst (StatusLoader.getComponentStatusById consumer id
         (StatusLoader.clearOneComponentCache id s))
  = StatusLoader.outcomeOf consumer id
  /\ (forall status,
        StatusLoader.outcomeOf consumer id = Ok status ->
        StatusLoader._componentsStatusCache
          (snd (StatusLoader.getComponentStatusById consumer id
                  (StatusLoader.clearOneComponentCache id s)))
          !! BitId.toString id = Some status)
  /\ (forall id' status,
        BitId.toString id' <> BitId.toString id ->
        StatusLoader._componentsStatusCache s !! BitId.toString id' = Some status ->
        StatusLoader.getComponentStatusById consumer id'
          (StatusLoader.clearOneComponentCache id s)
        = (Ok status, StatusLoader.clearOneComponentCache id s))
  /\ (StatusLoader._componentsStatusCache s !! BitId.toString id = None ->
      StatusLoader.clearOneComponentCache id s = s).
Proof.
  assert (Hmiss : StatusLoader._componentsStatusCache
                    (StatusLoader.clearOneComponentCache id s) !! BitId.toString id = None)
    by apply lookup_delete_eq.
  split; [|split; [|split]].
  - rewrite (getComponentStatusById_miss _ _ _ Hmiss), getStatus_run.
    now destruct (StatusLoader.outcomeOf consumer id).
  - intros status Ho.
    rewrite (getComponentStatusById_miss _ _ _ Hmiss), getStatus_run, Ho. simpl.
    apply lookup_insert_eq.
  - intros id' status Hne Hc. apply getComponentStatusById_hit.
    unfold StatusLoader.clearOneComponentCache. simpl.
    now rewrite lookup_delete_ne by congruence.
  - intros Hnone. unfold StatusLoader.clearOneComponentCache.
    rewrite delete_id by exact Hnone. now destruct s.
Qed.

Lemma clearOneComponentCache_witness :
  StatusLoader._componentsStatusCache StatusLoader.newLoader
    !! BitId.toString Examples.idA = None
  /\ StatusLoader.clearOneComponentCache Examples.idA StatusLoader.newLoader
     = StatusLoader.newLoader.
Proof.
  split; [reflexivity|].
  apply (proj2 (proj2 (proj2 (clearOneComponentCache_forces_recomputation
                                Examples.stagedAndModified Examples.idA
                                StatusLoader.newLoader)))).
  reflexivity.
Defined.

(** ** The dependency indexer: the whole index *)

Section IndexContentFacts.

Import IndexByDepId.

Lemma fold_left_flat_map {A B C : Type} (f : A -> C -> A) (g : B -> list C)
    (l : list B) (a : A) :
  fold_left f (flat_map g l) a = fold_left (fun acc x => fold_left f (g x) acc) l a.
Proof.
  revert a. induction l as [|x l IH]; intros a; simpl; [reflexivity|].
  now rewrite fold_left_app, IH.
Qed.

Lemma fold_left_map' {A B C : Type} (f : A -> C -> A) (g : B -> C) (l : list B) (a : A) :
  fold_left f (map g l) a = fold_left (fun acc x => f acc (g x)) l a.
Proof. revert a. induction l as [|x l IH]; intros a; simpl; [reflexivity|]. apply IH. Qed.

Lemma fold_left_same {A B : Type} (f g : A -> B -> A) (l : list B) :
  (forall a x, f a x = g a x) -> forall a, fold_left f l a = fold_left g l a.
Proof.
  intros Hfg. induction l as [|x l IH]; intros a; simpl; [reflexivity|].
  now rewrite Hfg, IH.
Qed.

(** The three nested loops of [indexByDepId] visit the declarations. *)
Lemma indexComponents_declarations (componentDependenciesMap : ComponentDependenciesMap)
    (hoistedDepFields : option (list string)) :
  indexComponents componentDependenciesMap hoistedDepFields
  = fold_left addDeclaration (declarations componentDependenciesMap hoistedDepFields) ∅.
Proof.
  unfold indexComponents, declarations. rewrite fold_left_flat_map.
  apply fold_left_same. intros index entry.
  unfold addComponentToIndex, componentDeclarations. rewrite fold_left_flat_map.
  apply fold_left_same. intros index' bucket.
  unfold addSpecificLifeCycleDepsToIndex, bucketDeclarations.
  now rewrite fold_left_map'.
Qed.

Lemma declaredItem_snoc (depId : string) (seen : list Declaration) (d : Declaration) :
  declaredItem depId (seen ++ [d])
  = if bool_decide (fst d = depId)
    then Some {| metadata := noMetadata;
                 componentItems :=
                   default [] (componentItems <$> declaredItem depId seen) ++ [snd d] |}
    else declaredItem depId seen.
Proof.
  unfold declaredItem, Declaration in *. rewrite List.filter_app, map_app.
  match goal with |- context [map snd ?l ++ _] => generalize (map snd l) end.
  intros items. cbn [List.filter map].
  destruct (bool_decide (fst d = depId)); cbn [map].
  - destruct items; reflexivity.
  - now rewrite app_nil_r.
Qed.

Lemma addDeclaration_declaredItem (seen : list Declaration) (d : Declaration)
    (index : PackageNameIndex) :
  (forall depId, index !! depId = declaredItem depId seen) ->
  forall depId, addDeclaration index d !! depId = declaredItem depId (seen ++ [d]).
Proof.
  intros Hinv depId. rewrite declaredItem_snoc.
  unfold addDeclaration, addComponentDepToDepIdIndex.
  destruct (index !! fst d) as [item|] eqn:E; simpl.
  - rewrite lookup_alter. destruct (decide (fst d = depId)) as [<-|Hne].
    + rewrite bool_decide_eq_true_2 by reflexivity. rewrite E. simpl.
      rewrite <- Hinv, E. simpl.
      rewrite Hinv in E. unfold declaredItem in E.
      match type of E with context [map snd ?l] => destruct (map snd l) end;
        [discriminate|]. injection E as <-.
      unfold pushComponentItem. simpl. now destruct d as [? []].
    + rewrite bool_decide_eq_false_2 by exact Hne. apply Hinv.
  - destruct (decide (fst d = depId)) as [<-|Hne].
    + rewrite lookup_insert_eq, bool_decide_eq_true_2 by reflexivity.
      rewrite <- Hinv, E. simpl. now destruct d as [? []].
    + rewrite lookup_insert_ne by exact Hne.
      rewrite bool_decide_eq_false_2 by exact Hne. apply Hinv.
Qed.

Lemma fold_addDeclaration (l seen : list Declaration) (index : PackageNameIndex) :
  (forall depId, index !! depId = declaredItem depId seen) ->
  forall depId, fold_left addDeclaration l index !! depId = declaredItem depId (seen ++ l).
Proof.
  revert seen index. induction l as [|d l IH]; intros seen index Hinv depId; simpl.
  - rewrite app_nil_r. apply Hinv.
  - rewrite (IH (seen ++ [d])); [now rewrite <- app_assoc|].
    now apply addDeclaration_declaredItem.
Qed.

End IndexContentFacts.

(** X19. The index is the plain aggregation of the declarations: the
    entry of a dependency name lists, in the order the components and their
    buckets are visited, one component item per declaration of that name and
    nothing else, and carries the metadata of the last policy entry marked
    preserve that names it, or none. Without components the index is empty
    whatever the policy, and policy entries not marked preserve have no
    effect. *)
Theorem indexByDepId_is_stamped_aggregation
    (rootPolicy : IndexByDepId.WorkspacePolicy)
    (componentDependenciesMap : IndexByDepId.ComponentDependenciesMap)
    (hoistedDepFields : option (list string)) :
  (forall depId,
      IndexByDepId.indexByDepId rootPolicy componentDependenciesMap hoistedDepFields !! depId
      = IndexByDepId.stampWith (last (IndexByDepId.preservedFor rootPolicy depId))
          <$> IndexByDepId.declaredItem depId
                (IndexByDepId.declarations componentDependenciesMap hoistedDepFields))
  /\ IndexByDepId.indexByDepId rootPolicy [] hoistedDepFields = ∅
  /\ IndexByDepId.indexByDepId (List.filter IndexByDepId.isPreserved rootPolicy)
       componentDependenciesMap hoistedDepFields
     = IndexByDepId.indexByDepId rootPolicy componentDependenciesMap hoistedDepFields
  /\ ((forall entry, In entry rootPolicy -> IndexByDepId.isPreserved entry = false) ->
      IndexByDepId.indexByDepId rootPolicy componentDependenciesMap hoistedDepFields
      = IndexByDepId.indexComponents componentDependenciesMap hoistedDepFields).
Proof.
  assert (Hmain : forall policy cdm depId,
             IndexByDepId.indexByDepId policy cdm hoistedDepFields !! depId
             = IndexByDepId.stampWith (last (IndexByDepId.preservedFor policy depId))
                 <$> IndexByDepId.declaredItem depId
                       (IndexByDepId.declarations cdm hoistedDepFields)).
  { intros policy cdm depId. unfold IndexByDepId.indexByDepId.
    rewrite addPreservedFromRoot_lookup, indexComponents_declarations.
    rewrite (fold_addDeclaration _ [] ∅); [reflexivity|].
    intros k. now rewrite lookup_empty. }
  split; [apply Hmain|]. split; [|split].
  - apply map_eq. intros depId. rewrite Hmain, lookup_empty. reflexivity.
  - unfold IndexByDepId.indexByDepId, IndexByDepId.addPreservedFromRoot.
    f_equal. clear. induction rootPolicy as [|e l IH]; simpl; [reflexivity|].
    destruct (IndexByDepId.isPreserved e) eqn:E; simpl; [|exact IH].
    rewrite E. now rewrite IH.
  - intros Hnone. unfold IndexByDepId.indexByDepId, IndexByDepId.addPreservedFromRoot.
    rewrite filter_none by exact Hnone. reflexivity.
Qed.

Lemma indexByDepId_no_preserve_witness :
  IndexByDepId.indexByDepId
    [ {| IndexByDepId.dependencyId := "left-pad";
         IndexByDepId.value := {| IndexByDepId.version := "1.3.0";
                                  IndexByDepId.preserve := None |};
         IndexByDepId.policyLifecycleType := IndexByDepId.RUNTIME |} ]
    Examples.depsOfX None
  = IndexByDepId.indexComponents Examples.depsOfX None.
Proof.
  apply (proj2 (proj2 (proj2 (indexByDepId_is_stamped_aggregation _ _ _)))).
  intros entry [<-|[]]. reflexivity.
Defined.

(** ** The dependency indexer: which buckets are indexed *)

Section BucketFacts.

Import IndexByDepId.

Context {V : Type}.

Implicit Types (obj result : list (string * V)) (names : list string).

Lemma prop_Some obj key v : prop key obj = Some v -> In (key, v) obj.
Proof.
  unfold prop. destruct (List.find _ obj) as [[k v']|] eqn:E; [|discriminate].
  intros [= <-]. apply find_some in E as [Hin Hk].
  apply bool_decide_eq_true in Hk. simpl in Hk. now subst.
Qed.

Lemma prop_truthy obj key :
  Js.truthy (prop key obj) = true <-> exists v, In (key, v) obj.
Proof.
  unfold prop. destruct (List.find _ obj) as [[k v']|] eqn:E; simpl.
  - split; [intros _|reflexivity]. apply find_some in E as [Hin Hk].
    apply bool_decide_eq_true in Hk. simpl in Hk. subst. now exists v'.
  - split; [discriminate|]. intros [v Hin].
    pose proof (find_none _ _ E _ Hin) as Hk. simpl in Hk.
    now rewrite bool_decide_eq_true_2 in Hk.
Qed.

Lemma NoDup_snoc {A : Type} (l : list A) (x : A) :
  List.NoDup l -> ~ In x l -> List.NoDup (l ++ [x]).
Proof.
  induction l as [|a l IH]; intros Hnd Hx; simpl.
  - constructor; [intros []|constructor].
  - inversion Hnd as [|? ? Ha Hnd']; subst. constructor.
    + intros Hin. apply in_app_or in Hin as [Hin|[<-|[]]]; [contradiction|].
      apply Hx. now left.
    + apply IH; [exact Hnd'|]. intros Hin. apply Hx. now right.
Qed.

Lemma pick_fold obj names : forall result,
  pickedFrom obj result ->
  let picked :=
    fold_left
      (fun result name =>
         match prop name obj with
         | Some v => if Js.truthy (prop name result) then result else result ++ [(name, v)]
         | None => result
         end)
      names result in
  pickedFrom obj picked
  /\ forall key v,
       In (key, v) picked
       <-> In (key, v) result \/ (In key names /\ prop key obj = Some v).
Proof.
  induction names as [|name names IH]; intros result Hinv; simpl.
  - split; [exact Hinv|]. intros key v. split; [now left|]. intros [H|[[] _]]. exact H.
  - destruct Hinv as [Hvals Hnd].
    destruct (prop name obj) as [v'|] eqn:Ev.
    + destruct (Js.truthy (prop name result)) eqn:Et.
      * destruct (IH result (conj Hvals Hnd)) as [Hinv' Hmem]. split; [exact Hinv'|].
        intros key v. rewrite Hmem. split.
        -- intros [H|[H1 H2]]; [now left|right; split; [now right|exact H2]].
        -- intros [H|[[<-|H1] H2]]; [now left| |right; now split].
           left. apply prop_truthy in Et as [v0 Hv0].
           pose proof (Hvals _ _ Hv0) as Hp. congruence.
      * assert (Hfresh : ~ In name (map fst result)).
        { rewrite in_map_iff. intros [[k v0] [Hk Hin]]. simpl in Hk. subst k.
          assert (Js.truthy (prop name result) = true)
            by (apply prop_truthy; now exists v0).
          congruence. }
        destruct (IH (result ++ [(name, v')])) as [Hinv' Hmem].
        { split.
          - intros key v Hin. apply in_app_or in Hin as [Hin|[[= <- <-]|[]]];
              [now apply Hvals|exact Ev].
          - rewrite map_app. simpl. now apply NoDup_snoc. }
        split; [exact Hinv'|].
        intros key v. rewrite Hmem, in_app_iff. simpl. split.
        -- intros [[H|[[= <- <-]|[]]]|[H1 H2]];
             [now left|right; split; [now left|exact Ev]|right; split; [now right|exact H2]].
        -- intros [H|[[<-|H1] H2]]; [left; now left| |right; now split].
           left. right. left. congruence.
    + destruct (IH result (conj Hvals Hnd)) as [Hinv' Hmem]. split; [exact Hinv'|].
      intros key v. rewrite Hmem. split.
      * intros [H|[H1 H2]]; [now left|right; split; [now right|exact H2]].
      * intros [H|[[<-|H1] H2]]; [now left|congruence|right; now split].
Qed.

End BucketFacts.

Lemma indexByDepId_dom (rootPolicy : IndexByDepId.WorkspacePolicy)
    (componentDependenciesMap : IndexByDepId.ComponentDependenciesMap)
    (hoistedDepFields : option (list string)) (key : string) :
  is_Some (IndexByDepId.indexByDepId rootPolicy componentDependenciesMap
             hoistedDepFields !! key)
  <-> IndexByDepId.declared componentDependenciesMap hoistedDepFields key.
Proof.
  unfold IndexByDepId.indexByDepId.
  rewrite addPreservedFromRoot_lookup, <- indexComponents_dom. apply fmap_is_Some.
Qed.

(** X20. Without hoisted fields every bucket of a component is indexed
    except [peerDependenciesMeta]. With hoisted fields exactly the named
    buckets that the component has are indexed, each once, whatever the
    number of times it is named; a dependency declared only in another
    bucket does not reach the index. *)
Theorem indexedBuckets_selection
    (depsObject : IndexByDepId.ManifestDependenciesObject) :
  (forall depKeyName deps,
      In (depKeyName, deps) (IndexByDepId.indexedBuckets None depsObject)
      <-> In (depKeyName, deps) depsObject /\ depKeyName <> "peerDependenciesMeta")
  /\ (forall fields depKeyName deps,
        In (depKeyName, deps) (IndexByDepId.indexedBuckets (Some fields) depsObject)
        <-> In depKeyName fields /\ IndexByDepId.prop depKeyName depsObject = Some deps)
  /\ (forall fields,
        List.NoDup (map fst (IndexByDepId.indexedBuckets (Some fields) depsObject)))
  /\ IndexByDepId.indexedBuckets (Some []) depsObject = []
  /\ (forall fields comp depId,
        (forall depKeyName deps range,
            In depKeyName fields ->
            IndexByDepId.prop depKeyName depsObject = Some deps ->
            ~ In (depId, range) deps) ->
        IndexByDepId.indexByDepId [] [(comp, depsObject)] (Some fields) !! depId = None).
Proof.
  assert (Hpick : forall fields,
             IndexByDepId.pickedFrom depsObject (IndexByDepId.pick fields depsObject)
             /\ forall key v,
                  In (key, v) (IndexByDepId.pick fields depsObject)
                  <-> In (key, v) [] \/ (In key fields
                                         /\ IndexByDepId.prop key depsObject = Some v)).
  { intros fields. apply pick_fold. split; [intros ? ? []|constructor]. }
  assert (Hsel : forall fields depKeyName deps,
             In (depKeyName, deps) (IndexByDepId.indexedBuckets (Some fields) depsObject)
             <-> In depKeyName fields
                 /\ IndexByDepId.prop depKeyName depsObject = Some deps).
  { intros fields k deps. simpl. rewrite (proj2 (Hpick fields)). simpl. tauto. }
  split; [|split; [exact Hsel|split; [|split]]].
  - intros k deps. simpl. unfold IndexByDepId.omit. rewrite filter_In. simpl.
    rewrite orb_false_r, negb_true_iff, bool_decide_eq_false. split.
    + intros [H1 H2]. split; [exact H1|congruence].
    + intros [H1 H2]. split; [exact H1|congruence].
  - intros fields. apply (proj1 (Hpick fields)).
  - reflexivity.
  - intros fields comp depId Hnot. apply eq_None_not_Some.
    rewrite indexByDepId_dom.
    intros [c [d [k [deps [range [[[= <- <-]|[]] [H1 H2]]]]]]].
    apply Hsel in H1 as [Hk Hp]. exact (Hnot k deps range Hk Hp H2).
Qed.

Lemma indexedBuckets_selection_witness :
  IndexByDepId.indexByDepId [] Examples.depsOfX (Some ["devDependencies"]) !! "left-pad"
  = None.
Proof.
  apply (proj2 (proj2 (proj2 (proj2
           (indexedBuckets_selection [("dependencies", [("left-pad", "^1.0.0")])])))) 
           ["devDependencies"] "@acme/x" "left-pad").
  intros k deps range [<-|[]] Hp. discriminate Hp.
Defined.

(** ** The removal engine: the whole call *)

Section RemoveCallFacts.

Import Remove.

Lemma toLatest_idempotent (ids : list BitId) :
  map (fun id => BitId.changeVersion id (Some BitId.LATEST))
      (map (fun id => BitId.changeVersion id (Some BitId.LATEST)) ids)
  = map (fun id => BitId.changeVersion id (Some BitId.LATEST)) ids.
Proof. rewrite map_map. reflexivity. Qed.

(** What the second half of [removeLocal] reports, when it returns. *)
Lemma removeCandidates_result (consumer : Consumer) (idsToRemove modifiedComponents : ComponentIdList)
    (force track deleteFiles : bool) (res : RemovedLocalObjects) :
  removeCandidates consumer idsToRemove modifiedComponents force track deleteFiles = Ok res ->
  exists newComponents loaded removed,
    listNewComponents consumer false = Ok newComponents
    /\ loadComponents consumer idsToRemove false = Ok loaded
    /\ removeMany consumer (idsToRemoveFromScope newComponents idsToRemove) force = Ok removed
    /\ res = {| removedIdentities :=
                  BitIds.uniqFromArray
                    ((List.filter (fun id => BitIds.hasWithoutVersion newComponents id)
                        idsToRemove
                      ++ removedComponentIds removed) ++ removedComponentIds removed);
                missingIdentities := missingComponents removed;
                modifiedSkipped := modifiedComponents;
                blockingDependents := dependentBits removed;
                removedFromLaneIds := removedFromLane removed |}.
Proof.
  unfold removeCandidates, idsToRemoveFromScope, res_bind.
  destruct (listNewComponents consumer false) as [newComponents|] eqn:Hnew; [|discriminate].
  destruct (loadComponents consumer idsToRemove false) as [loaded|] eqn:Hload; [|discriminate].
  destruct (removeMany consumer _ force) as [removed|] eqn:Hremoved; [|discriminate].
  match goal with
  | |- match ?side with Ok _ => _ | Throw e => _ end = _ -> _ =>
      destruct side; [|discriminate]
  end.
  intros [= <-]. exists newComponents, loaded, removed.
  split; [reflexivity|]. split; [reflexivity|]. split; [exact Hremoved|].
  now rewrite (fromArray_same (List.filter _ idsToRemove)).
Qed.

(** With [track] on and [deleteFiles] off nothing is deleted or cleaned:
    the call returns as soon as the three collaborators before have. *)
Lemma removeCandidates_tracked (consumer : Consumer) (idsToRemove modifiedComponents : ComponentIdList)
    (force : bool) (newComponents : ComponentIdList) (loaded : LoadComponentsResult)
    (removed : RemovedObjects) :
  listNewComponents consumer false = Ok newComponents ->
  loadComponents consumer idsToRemove false = Ok loaded ->
  removeMany consumer (idsToRemoveFromScope newComponents idsToRemove) force = Ok removed ->
  removeCandidates consumer idsToRemove modifiedComponents force true false
  = Ok {| removedIdentities :=
            BitIds.uniqFromArray
              ((List.filter (fun id => BitIds.hasWithoutVersion newComponents id)
                  idsToRemove
                ++ removedComponentIds removed) ++ removedComponentIds removed);
          missingIdentities := missingComponents removed;
          modifiedSkipped := modifiedComponents;
          blockingDependents := dependentBits removed;
          removedFromLaneIds := removedFromLane removed |}.
Proof.
  unfold removeCandidates, idsToRemoveFromScope, res_bind.
  intros -> -> ->. rewrite (fromArray_same (List.filter _ idsToRemove)). simpl.
  now destruct (R_isEmpty _).
Qed.

Lemma removeCandidates_flags (consumer : Consumer) (idsToRemove modifiedComponents : ComponentIdList)
    (force track deleteFiles : bool) (res : RemovedLocalObjects) :
  removeCandidates consumer idsToRemove modifiedComponents force track deleteFiles = Ok res ->
  removeCandidates consumer idsToRemove modifiedComponents force true false = Ok res.
Proof.
  intros H. destruct (removeCandidates_result _ _ _ _ _ _ _ H)
    as [newComponents [loaded [removed [Hnew [Hload [Hremoved ->]]]]]].
  now apply removeCandidates_tracked with (loaded := loaded).
Qed.



End RemoveCallFacts.

(** X21. [removeComponents] routes the identities, all turned to
    [LATEST], by the [remote] flag alone: the versions given play no role;
    an empty set returns empty results without any removal; with [remote]
    and only scoped identities the outcome is that of the remote removal and
    the local result is empty. *)
Theorem removeComponents_dispatch
    (net : Remove.Network) (consumer : option Consumer) (ids : ComponentIdList)
    (force track deleteFiles : bool) :
  (forall remote,
      Remove.removeComponents net consumer [] force remote track deleteFiles
      = Ok {| Remove.localResult := Remove.emptyRemovedLocalObjects;
              Remove.remoteResult := [] |})
  /\ (forall remote ids',
        map (fun id => BitId.changeVersion id (Some BitId.LATEST)) ids'
        = map (fun id => BitId.changeVersion id (Some BitId.LATEST)) ids ->
        Remove.removeComponents net consumer ids' force remote track deleteFiles
        = Remove.removeComponents net consumer ids force remote track deleteFiles)
  /\ ((forall id, In id ids -> BitId.isLocal id = false) ->
      ids <> [] ->
      Remove.removeComponents net consumer ids force true track deleteFiles
      = match Remove.removeRemote net consumer
                (map (fun id => BitId.changeVersion id (Some BitId.LATEST)) ids) force with
        | Ok remoteResult =>
            Ok {| Remove.localResult := Remove.emptyRemovedLocalObjects;
                  Remove.remoteResult := remoteResult |}
        | Throw e => Throw e
        end).
Proof.
  split; [|split].
  - intros remote. destruct remote, consumer; reflexivity.
  - intros remote ids' Heq. unfold Remove.removeComponents. now rewrite Heq.
  - intros Hscoped Hne. unfold Remove.removeComponents, Js.partition.
    rewrite fromArray_same.
    set (latest := map (fun id => BitId.changeVersion id (Some BitId.LATEST)) ids).
    assert (Hall : forall id, In id latest -> BitId.isLocal id = false).
    { intros id Hin. apply in_map_iff in Hin as [id0 [<- Hin0]].
      exact (Hscoped id0 Hin0). }
    assert (Hnone : List.filter BitId.isLocal latest = [])
      by (apply filter_none; exact Hall).
    assert (Hsame : List.filter (fun x => negb (BitId.isLocal x)) latest = latest).
    { clear Hnone. induction latest as [|a l IH]; simpl; [reflexivity|].
      rewrite (Hall a (or_introl eq_refl)). simpl. f_equal. apply IH.
      intros id Hid. apply Hall. now right. }
    rewrite Hnone, Hsame. simpl.
    assert (Hnonempty : Remove.R_isEmpty latest = false).
    { unfold latest. destruct ids; [congruence|reflexivity]. }
    rewrite Hnonempty. simpl. unfold res_bind.
    now destruct (Remove.removeRemote net consumer latest force).
Qed.

Lemma removeComponents_dispatch_witness :
  Remove.removeComponents Examples.offline (Some Examples.zModified)
    [Examples.idA; Examples.idB] false true false false
  = Throw (OtherError "no remotes").
Proof.
  rewrite (proj2 (proj2 (removeComponents_dispatch Examples.offline
                           (Some Examples.zModified) [Examples.idA; Examples.idB]
                           false false false))).
  - reflexivity.
  - intros id [<-|[<-|[]]]; reflexivity.
  - discriminate.
Defined.



(** X23. What a local removal reports, when it returns: no identity twice
    in [removedIdentities]; in [modifiedSkipped] exactly the input
    identities whose status is modified, in input order, and none under
    [force]; and, the scope reporting as removed only what it was asked to
    remove, only input identities in [removedIdentities], none of them
    skipped as modified. *)
Theorem removeLocal_report
    (consumer : Consumer) (bitIds : ComponentIdList) (force track deleteFiles : bool)
    (res : Remove.RemovedLocalObjects)
    (Hres : Remove.removeLocal consumer bitIds force track deleteFiles = Ok res) :
  List.NoDup (Remove.removedIdentities res)
  /\ Remove.modifiedSkipped res
     = (if force then [] else List.filter (Remove.statusModified consumer) bitIds)
  /\ (Remove.removesOnlyRequested consumer ->
      forall id, In id (Remove.removedIdentities res) ->
        In id bitIds
        /\ ~ In id (Remove.modifiedSkipped res)
        /\ (force = false -> Remove.statusModified consumer id = false)).
Proof.
  unfold Remove.removeLocal in Hres.
  destruct bitIds as [|b bitIds].
  { injection Hres as <-. simpl. split; [constructor|].
    split; [now destruct force|]. intros _ id []. }
  simpl Remove.R_isEmpty in Hres. cbv iota in Hres.
  destruct force.
  - change (Remove.removeCandidates consumer (b :: bitIds) [] true track deleteFiles = Ok res)
      in Hres.
    destruct (removeCandidates_result _ _ _ _ _ _ _ Hres)
      as [newComponents [loaded [removed [_ [_ [Hremoved ->]]]]]].
    cbn [Remove.removedIdentities Remove.modifiedSkipped].
    split; [apply uniqueFull_NoDup, uniqFromArray_uniqueFull|].
    split; [reflexivity|].
    intros Hcontract id Hin. rewrite uniqFromArray_In, !in_app_iff, filter_In in Hin.
    split; [|split; [intros []|discriminate]].
    assert (Hreq : In id (removedComponentIds removed) -> In id (b :: bitIds)).
    { intros H. apply (Hcontract _ _ _ Hremoved) in H.
      unfold Remove.idsToRemoveFromScope in H. rewrite fromArray_same in H.
      now apply filter_In in H as [H _]. }
    tauto.
  - change (match Remove.partitionByModification consumer (b :: bitIds) [] [] with
            | Ok lists => Remove.removeCandidates consumer (snd lists) (fst lists)
                            false track deleteFiles
            | Throw e => Throw e
            end = Ok res) in Hres.
    destruct (Remove.partitionByModification consumer (b :: bitIds) [] [])
      as [[m n]|e] eqn:Hpart; [|discriminate].
    cbn [fst snd] in Hres. apply partitionByModification_inv in Hpart as [_ [-> ->]].
    destruct (removeCandidates_result _ _ _ _ _ _ _ Hres)
      as [newComponents [loaded [removed [_ [_ [Hremoved ->]]]]]].
    cbn [Remove.removedIdentities Remove.modifiedSkipped].
    split; [apply uniqueFull_NoDup, uniqFromArray_uniqueFull|].
    split; [reflexivity|].
    intros Hcontract id Hin. rewrite uniqFromArray_In, !in_app_iff, !filter_In in Hin.
    assert (Hcand : In id (b :: bitIds) /\ Remove.statusModified consumer id = false).
    { assert (Hreq : In id (removedComponentIds removed) ->
                     In id (b :: bitIds) /\ Remove.statusModified consumer id = false).
      { intros H. apply (Hcontract _ _ _ Hremoved) in H.
        unfold Remove.idsToRemoveFromScope in H. rewrite fromArray_same in H.
        apply filter_In in H as [H _]. apply filter_In in H as [H1 H2].
        split; [exact H1|]. now apply negb_true_iff. }
      destruct Hin as [[[[H1 H2] _]|H]|H]; [|now apply Hreq|now apply Hreq].
      split; [exact H1|]. now apply negb_true_iff. }
    destruct Hcand as [H1 H2]. split; [exact H1|]. split; [|intros _; exact H2].
    rewrite filter_In. intros [_ H3]. congruence.
Qed.

Lemma removeLocal_report_witness :
  List.NoDup [Examples.idY]
  /\ [Examples.idZ; Examples.idZ]
     = List.filter (Remove.statusModified Examples.zModified)
         [Examples.idZ; Examples.idY; Examples.idZ].
Proof.
  assert (Hrun : Remove.removeLocal Examples.zModified
                   [Examples.idZ; Examples.idY; Examples.idZ] false true false
                 = Ok {| Remove.removedIdentities := [Examples.idY];
                         Remove.missingIdentities := [];
                         Remove.modifiedSkipped := [Examples.idZ; Examples.idZ];
                         Remove.blockingDependents := [];
                         Remove.removedFromLaneIds := [] |})
    by (vm_compute; reflexivity).
  split; [exact (proj1 (removeLocal_report _ _ _ _ _ _ Hrun))|].
  exact (proj1 (proj2 (removeLocal_report _ _ _ _ _ _ Hrun))).
Defined.

(** X24. The flags [track] and [deleteFiles] decide what is cleaned and
    deleted, never what is reported: a local removal that returns reports the
    same with any other setting of the two flags that returns as well, and it
    always returns, with that report, when the components stay tracked and
    their files stay on disk. *)
Theorem removeLocal_flags_do_not_change_report
    (consumer : Consumer) (bitIds : ComponentIdList) (force track deleteFiles : bool)
    (res : Remove.RemovedLocalObjects)
    (Hres : Remove.removeLocal consumer bitIds force track deleteFiles = Ok res) :
  Remove.removeLocal consumer bitIds force true false = Ok res
  /\ forall track' deleteFiles' res',
       Remove.removeLocal consumer bitIds force track' deleteFiles' = Ok res' ->
       res' = res.
Proof.
  assert (Hkeep : forall t d r,
             Remove.removeLocal consumer bitIds force t d = Ok r ->
             Remove.removeLocal consumer bitIds force true false = Ok r).
  { intros t d r. unfold Remove.removeLocal.
    destruct (Remove.R_isEmpty bitIds); [trivial|]. unfold res_bind.
    destruct (if negb force
              then Remove.partitionByModification consumer bitIds [] []
              else Ok ([], [])) as [lists|e]; [|trivial].
    apply removeCandidates_flags. }
  split; [now apply (Hkeep track deleteFiles)|].
  intros track' deleteFiles' res' Hres'.
  apply Hkeep in Hres. apply Hkeep in Hres'. congruence.
Qed.

Lemma removeLocal_flags_witness :
  Remove.removeLocal Examples.zModified [Examples.idZ; Examples.idY] false true false
  = Ok {| Remove.removedIdentities := [Examples.idY];
          Remove.missingIdentities := [];
          Remove.modifiedSkipped := [Examples.idZ];
          Remove.blockingDependents := [];
          Remove.removedFromLaneIds := [] |}.
Proof.
  apply (proj1 (removeLocal_flags_do_not_change_report
                  Examples.zModified [Examples.idZ; Examples.idY] false false true _
                  ltac:(vm_compute; reflexivity))).
Defined.
